(** * Resilience and caching subsystem of the Odoo CRM integration server

    A shallow embedding of
      - the retry executor      (utils/retry.ts; here the second document of
                                 src/dist/utils/notes-parser.d.ts),
      - the circuit breaker     (utils/circuit-breaker.ts; src/unnamed/part_004),
      - the in-memory LRU cache (utils/cache-memory.ts; the third document of
                                 src/unnamed/part_002),
      - the Redis cache         (src/src/utils/cache-redis.ts),
    together with the properties the specification states about them, and
    with further properties of the same code: the shape of every retry run,
    invariants of the breaker and of the in-memory cache under any use, round
    trips, the life of a background refresh, and how the Redis cache degrades.

    Conventions.
      - JavaScript numbers that hold counters, millisecond timestamps and
        durations are integers of [Z]; the one place where the source divides
        ([ttlMs * refreshThresholdPercent / 100]) is computed in [Q].
      - Every [Date.now()] of the source is one reading of a clock oracle, so
        two readings inside one method may differ.
      - A callback ([fn], [refreshFn]) is an oracle too: its n-th invocation
        yields a value or fails, either by rejecting the promise it returned
        or by throwing before it returns one (the two differ only where the
        call is not awaited).  Invocations and backoff waits are recorded
        in a trace, which is what "invoked exactly k times" is read from.
      - A method is a function from the environment and the object's fields to
        an outcome and the new environment and fields; an [await] inside it is
        a point where the environment may have moved on, which the oracles
        account for.
      - [console.error] output is not modelled. *)

From Stdlib Require Import ZArith QArith String List Lia Bool DecimalString.
From stdpp Require Import gmap strings.
Import ListNotations.
Open Scope Z_scope.

(* ======================================================================= *)
(** * JavaScript runtime: thrown values, the clock, callbacks               *)
(* ======================================================================= *)

Module Js.

(** What a [throw] can carry.  [JsError] is a plain [Error];
    [CircuitBreakerError] is the subclass declared by the breaker, with its
    [secondsUntilRetry] field; [JsValue] is any non-[Error] value, given by the
    text [String(v)] produces for it ([undefined] gives ["undefined"]). *)
Inductive Thrown : Type :=
| JsError (message : string)
| CircuitBreakerError (message : string) (secondsUntilRetry : Z)
| JsValue (rendering : string).

(** [error instanceof Error ? error.message : String(error)] *)
Definition message_of (e : Thrown) : string :=
  match e with
  | JsError m => m
  | CircuitBreakerError m _ => m
  | JsValue r => r
  end.

(** Outcome of an (awaited) computation. *)
Inductive Res (A : Type) : Type :=
| Ok (a : A)
| Throw (e : Thrown).
Arguments Ok {A} a.
Arguments Throw {A} e.

Inductive Event : Type :=
| EvCall                 (* the callback was invoked *)
| EvSleep (ms : Z).      (* setTimeout(resolve, ms) was awaited *)

(** The environment of a run: the clock oracle with the number of readings
    taken so far, the number of callback invocations so far, and the trace. *)
Record Env : Type := mkEnv {
  clk   : nat -> Z;
  tick  : nat;
  calls : nat;
  trace : list Event
}.

(** A callback [() => Promise<T>].  Used as a function, it gives what awaiting
    its invocation number [n] (counted from 0) yields.  An [async] function
    delivers a failure through the promise it returns; a plain function may
    instead throw before it returns one, which [throwsSync n] says of a
    failing invocation.  The two differ only where the call is not awaited. *)
Record Callback (T : Type) : Type := mkCallback {
  outcome    :> nat -> Res T;
  throwsSync : nat -> bool
}.
Arguments mkCallback {T} outcome throwsSync.
Arguments outcome {T} c _.
Arguments throwsSync {T} c _.

(** State-and-exception monad over the environment and an object's fields. *)
Definition M (S A : Type) : Type := Env * S -> Res A * (Env * S).

Definition ret {S A} (a : A) : M S A := fun w => (Ok a, w).

Definition bind {S A B} (m : M S A) (k : A -> M S B) : M S B :=
  fun w => match m w with
           | (Ok a, w') => k a w'
           | (Throw e, w') => (Throw e, w')
           end.

Definition throw {S A} (e : Thrown) : M S A := fun w => (Throw e, w).

(** [try { m } catch (error) { ... }]: the outcome of [m], reified. *)
Definition try {S A} (m : M S A) : M S (Res A) :=
  fun w => let (r, w') := m w in (Ok r, w').

Definition this {S} : M S S := fun w => (Ok (snd w), w).

Definition assign {S} (f : S -> S) : M S unit :=
  fun w => (Ok tt, (fst w, f (snd w))).

(** [Date.now()] *)
Definition date_now {S} : M S Z :=
  fun w => let env := fst w in
           (Ok (clk env (tick env)),
            (mkEnv (clk env) (Datatypes.S (tick env)) (calls env) (trace env), snd w)).

(** [await fn()] *)
Definition invoke {S T} (fn : Callback T) : M S T :=
  fun w => let env := fst w in
           (fn (calls env),
            (mkEnv (clk env) (tick env) (Datatypes.S (calls env)) (trace env ++ [EvCall]),
             snd w)).

(** What invocation number [n] throws before it returns a promise, if
    anything. *)
Definition thrownAtOnce {T} (fn : Callback T) (n : nat) : option Thrown :=
  match fn n with
  | Throw e => if throwsSync fn n then Some e else None
  | Ok _ => None
  end.

(** [fn()], not awaited: the promise it returns, given by the outcome it will
    settle with; a callback that throws before returning one throws here. *)
Definition invokeUnawaited {S T} (fn : Callback T) : M S (Res T) :=
  fun w => let env := fst w in
           let w' := (mkEnv (clk env) (tick env) (Datatypes.S (calls env))
                            (trace env ++ [EvCall]), snd w) in
           match thrownAtOnce fn (calls env) with
           | Some e => (Throw e, w')
           | None => (Ok (fn (calls env)), w')
           end.

(** [await new Promise(resolve => setTimeout(resolve, ms))] *)
Definition sleep {S} (ms : Z) : M S unit :=
  fun w => let env := fst w in
           (Ok tt,
            (mkEnv (clk env) (tick env) (calls env) (trace env ++ [EvSleep ms]), snd w)).

(** The environment after one more invocation of the callback. *)
Definition called (env : Env) : Env :=
  mkEnv (clk env) (tick env) (Datatypes.S (calls env)) (trace env ++ [EvCall]).

(** The environment after a backoff wait of [ms]. *)
Definition slept (ms : Z) (env : Env) : Env :=
  mkEnv (clk env) (tick env) (calls env) (trace env ++ [EvSleep ms]).

(** The environment after [n] more readings of the clock. *)
Definition ticked (n : nat) (env : Env) : Env :=
  mkEnv (clk env) (n + tick env) (calls env) (trace env).

(** Number of invocations recorded in a trace. *)
Fixpoint invocations (tr : list Event) : nat :=
  match tr with
  | [] => O
  | EvCall :: tr' => S (invocations tr')
  | EvSleep _ :: tr' => invocations tr'
  end.

(** Waits recorded in a trace, in order. *)
Fixpoint waits (tr : list Event) : list Z :=
  match tr with
  | [] => []
  | EvSleep ms :: tr' => ms :: waits tr'
  | EvCall :: tr' => waits tr'
  end.

(** [String.prototype.startsWith] / [includes] on byte strings. *)
Fixpoint startsWith (s p : string) {struct p} : bool :=
  match p with
  | EmptyString => true
  | String c p' =>
      match s with
      | String d s' => Ascii.eqb c d && startsWith s' p'
      | EmptyString => false
      end
  end.

Fixpoint includes (s p : string) : bool :=
  startsWith s p ||
  match s with
  | EmptyString => false
  | String _ s' => includes s' p
  end.

(** [p] occurs in [s] as a contiguous substring. *)
Definition Contains (p s : string) : Prop :=
  exists a b, s = String.append a (String.append p b).

(** [Math.ceil(a / b)] for integers [a] and [b > 0]. *)
Definition ceil_div (a b : Z) : Z := - ((- a) / b).

End Js.

Declare Scope js_scope.
Delimit Scope js_scope with js.
Notation "x <- m ;; k" := (Js.bind m (fun x => k))
  (at level 100, m at next level, right associativity) : js_scope.
Notation "m ;;; k" := (Js.bind m (fun _ => k))
  (at level 100, right associativity) : js_scope.

(* ======================================================================= *)
(** * Retry executor (src/utils/retry.ts)                                   *)
(* ======================================================================= *)

Module Retry.
Import Js.
Local Open Scope js_scope.

(** Network/server errors that should trigger retry. *)
Definition RETRYABLE_PATTERNS : list string :=
  [ "ECONNREFUSED"; "ECONNRESET"; "ETIMEDOUT"; "EHOSTUNREACH";
    "socket hang up"; "ENOTFOUND";
    "500"; "502"; "503"; "504";
    "Traceback" ]%string.

(** Client errors that should NOT be retried. *)
Definition NON_RETRYABLE_PATTERNS : list string :=
  [ "Invalid credentials"; "Access Denied"; "Forbidden";
    "unknown field"; "does not have attribute";
    "invalid literal" ]%string.

(** The two [for ... of] loops of [isRetryableError], each returning at the
    first pattern the message includes. *)
Definition isRetryableError (error : Thrown) : bool :=
  let message := message_of error in
  if existsb (includes message) NON_RETRYABLE_PATTERNS then false
  else if existsb (includes message) RETRYABLE_PATTERNS then true
  else false.

Section ExecuteWithRetry.
Context {T : Type}.
Variable fn : Callback T.
Variable maxRetries : Z.
Variable baseDelayMs : Z.

(** The [for (let attempt = 1; attempt <= maxRetries; attempt++)] loop, from
    the iteration with counter [attempt].  [fuel] bounds the iterations left;
    [executeWithRetry] supplies [maxRetries] of it, which the loop test
    exhausts first. *)
Fixpoint retryLoop (fuel : nat) (attempt : Z) (lastError : Thrown) : M unit T :=
  if attempt <=? maxRetries then
    match fuel with
    | O => throw lastError
    | S fuel' =>
        r <- try (invoke fn) ;;
        match r with
        | Ok v => ret v
        | Throw error =>
            if negb (isRetryableError error) || (attempt =? maxRetries)
            then throw error
            else
              let delay := baseDelayMs * 2 ^ (attempt - 1) in
              sleep delay ;;;
              retryLoop fuel' (attempt + 1) error
        end
    end
  else throw lastError.

Definition executeWithRetry : M unit T :=
  retryLoop (Z.to_nat maxRetries) 1 (JsValue "undefined").
End ExecuteWithRetry.

(** The trace a run of [n] attempts leaves, the first of them numbered
    [attempt]: one invocation per attempt and, between two attempts, the wait
    [baseDelayMs * 2 ^ (attempt - 1)]. *)
Fixpoint attemptsTrace (baseDelayMs : Z) (attempt : Z) (n : nat) : list Event :=
  match n with
  | O => []
  | S O => [EvCall]
  | S n' =>
      EvCall :: EvSleep (baseDelayMs * 2 ^ (attempt - 1))
             :: attemptsTrace baseDelayMs (attempt + 1) n'
  end.

End Retry.

(* ======================================================================= *)
(** * Circuit breaker (src/utils/circuit-breaker.ts)                        *)
(* ======================================================================= *)

Module Breaker.
Import Js.
Local Open Scope js_scope.

Inductive CircuitState : Type := CLOSED | OPEN | HALF_OPEN.

Definition CircuitState_eqb (a b : CircuitState) : bool :=
  match a, b with
  | CLOSED, CLOSED | OPEN, OPEN | HALF_OPEN, HALF_OPEN => true
  | _, _ => false
  end.

(** The private fields of [class CircuitBreaker]; the last three are the
    [readonly] constructor parameters. *)
Record CircuitBreaker : Type := mkBreaker {
  state               : CircuitState;
  failureCount        : Z;
  successCount        : Z;
  lastFailureTime     : option Z;
  lastStateChange     : option Z;
  halfOpenAttempts    : Z;
  failureThreshold    : Z;
  resetTimeoutMs      : Z;
  halfOpenMaxAttempts : Z
}.

(** [new CircuitBreaker(failureThreshold, resetTimeoutMs, halfOpenMaxAttempts)] *)
Definition new (failureThreshold resetTimeoutMs halfOpenMaxAttempts : Z) : CircuitBreaker :=
  mkBreaker CLOSED 0 0 None None 0 failureThreshold resetTimeoutMs halfOpenMaxAttempts.

(** The constructor's default arguments. *)
Definition default : CircuitBreaker := new 5 60000 1.

Definition set_state (s : CircuitState) (b : CircuitBreaker) : CircuitBreaker :=
  mkBreaker s (failureCount b) (successCount b) (lastFailureTime b) (lastStateChange b)
            (halfOpenAttempts b) (failureThreshold b) (resetTimeoutMs b) (halfOpenMaxAttempts b).

Definition set_failureCount (n : Z) (b : CircuitBreaker) : CircuitBreaker :=
  mkBreaker (state b) n (successCount b) (lastFailureTime b) (lastStateChange b)
            (halfOpenAttempts b) (failureThreshold b) (resetTimeoutMs b) (halfOpenMaxAttempts b).

Definition set_successCount (n : Z) (b : CircuitBreaker) : CircuitBreaker :=
  mkBreaker (state b) (failureCount b) n (lastFailureTime b) (lastStateChange b)
            (halfOpenAttempts b) (failureThreshold b) (resetTimeoutMs b) (halfOpenMaxAttempts b).

Definition set_lastFailureTime (t : option Z) (b : CircuitBreaker) : CircuitBreaker :=
  mkBreaker (state b) (failureCount b) (successCount b) t (lastStateChange b)
            (halfOpenAttempts b) (failureThreshold b) (resetTimeoutMs b) (halfOpenMaxAttempts b).

Definition set_lastStateChange (t : option Z) (b : CircuitBreaker) : CircuitBreaker :=
  mkBreaker (state b) (failureCount b) (successCount b) (lastFailureTime b) t
            (halfOpenAttempts b) (failureThreshold b) (resetTimeoutMs b) (halfOpenMaxAttempts b).

Definition set_halfOpenAttempts (n : Z) (b : CircuitBreaker) : CircuitBreaker :=
  mkBreaker (state b) (failureCount b) (successCount b) (lastFailureTime b) (lastStateChange b)
            n (failureThreshold b) (resetTimeoutMs b) (halfOpenMaxAttempts b).

Abbreviation Method := (M CircuitBreaker).

(** Decimal text of a number, for the template literal in the error message. *)
Definition toString (n : Z) : string :=
  DecimalString.NilZero.string_of_int (Z.to_int n).

Definition getState : Method CircuitState :=
  b <- this ;; ret (state b).

(** [transitionTo]: assigns and reads the clock only when the state changes. *)
Definition transitionTo (newState : CircuitState) : Method unit :=
  b <- this ;;
  if negb (CircuitState_eqb (state b) newState) then
    assign (set_state newState) ;;;
    now <- date_now ;;
    assign (set_lastStateChange (Some now))
  else ret tt.

Definition shouldTransitionToHalfOpen : Method bool :=
  b <- this ;;
  match lastFailureTime b with
  | None => ret true
  | Some last =>
      now <- date_now ;;
      let elapsed := now - last in
      ret (resetTimeoutMs b <=? elapsed)
  end.

Definition getSecondsUntilHalfOpen : Method Z :=
  b <- this ;;
  match lastFailureTime b with
  | None => ret 0
  | Some last =>
      now <- date_now ;;
      let elapsed := now - last in
      let remaining := resetTimeoutMs b - elapsed in
      ret (if 0 <? remaining then ceil_div remaining 1000 else 0)
  end.

Definition onSuccess : Method unit :=
  assign (fun b => set_successCount (successCount b + 1) b) ;;;
  b <- this ;;
  match state b with
  | HALF_OPEN =>
      transitionTo CLOSED ;;;
      assign (set_failureCount 0) ;;;
      assign (set_halfOpenAttempts 0)
  | CLOSED => assign (set_failureCount 0)
  | OPEN => ret tt
  end.

Definition onFailure : Method unit :=
  assign (fun b => set_failureCount (failureCount b + 1) b) ;;;
  now <- date_now ;;
  assign (set_lastFailureTime (Some now)) ;;;
  b <- this ;;
  match state b with
  | HALF_OPEN =>
      transitionTo OPEN ;;;
      assign (set_halfOpenAttempts 0)
  | CLOSED =>
      if failureThreshold b <=? failureCount b
      then transitionTo OPEN
      else ret tt
  | OPEN => ret tt
  end.

Definition openMessage (secondsUntilRetry : Z) : string :=
  String.append "Odoo service temporarily unavailable. Connection will be retried in "
    (String.append (toString secondsUntilRetry) " seconds.").

Definition halfOpenMessage : string :=
  "Odoo service recovery test in progress. Please wait.".

(** [execute], up to its [await fn()]: the admission decision.  It runs
    without suspension, so no other call interleaves with it. *)
Definition beforeCall : Method unit :=
  b <- this ;;
  (match state b with
   | OPEN =>
       go <- shouldTransitionToHalfOpen ;;
       if go then
         transitionTo HALF_OPEN ;;;
         assign (set_halfOpenAttempts 0)
       else
         secondsUntilRetry <- getSecondsUntilHalfOpen ;;
         throw (CircuitBreakerError (openMessage secondsUntilRetry) secondsUntilRetry)
   | _ => ret tt
   end) ;;;
  b <- this ;;
  match state b with
  | HALF_OPEN =>
      if halfOpenMaxAttempts b <=? halfOpenAttempts b
      then throw (CircuitBreakerError halfOpenMessage 5)
      else assign (fun b => set_halfOpenAttempts (halfOpenAttempts b + 1) b)
  | _ => ret tt
  end.

(** [execute], from the moment the promise of [fn] settles with [r]. *)
Definition afterCall {T} (r : Res T) : Method T :=
  match r with
  | Ok result => onSuccess ;;; ret result
  | Throw error => onFailure ;;; throw error
  end.

(** [execute(fn)] when nothing else runs while [fn] is awaited. *)
Definition execute {T} (fn : Callback T) : Method T :=
  beforeCall ;;;
  r <- try (invoke fn) ;;
  afterCall r.

Definition reset : Method unit :=
  transitionTo CLOSED ;;;
  assign (set_failureCount 0) ;;;
  assign (set_halfOpenAttempts 0).

(** [n] calls of [execute] one after the other, each caller catching what its
    call throws. *)
Fixpoint executeMany {T} (n : nat) (fn : Callback T) : Method unit :=
  match n with
  | O => ret tt
  | S n' => try (execute fn) ;;; executeMany n' fn
  end.

(** The hint the fail-fast error carries when the clock reads [now]. *)
Definition retryHint (b : CircuitBreaker) (last now : Z) : Z :=
  ceil_div (resetTimeoutMs b - (now - last)) 1000.


(** The records agree on the constructor parameters. *)
Definition sameConfig (b b' : CircuitBreaker) : Prop :=
  failureThreshold b' = failureThreshold b /\
  resetTimeoutMs b' = resetTimeoutMs b /\
  halfOpenMaxAttempts b' = halfOpenMaxAttempts b.

(** [CircuitBreakerMetrics] *)
Record CircuitBreakerMetrics : Type := mkMetrics {
  m_state                : CircuitState;
  m_failureCount         : Z;
  m_successCount         : Z;
  m_lastFailureTime      : option Z;
  m_lastStateChange      : option Z;
  m_secondsUntilHalfOpen : option Z
}.

Definition getMetrics : Method CircuitBreakerMetrics :=
  b <- this ;;
  secondsUntilHalfOpen <-
    (match state b, lastFailureTime b with
     | OPEN, Some last =>
         now <- date_now ;;
         let elapsed := now - last in
         let remaining := resetTimeoutMs b - elapsed in
         ret (Some (if 0 <? remaining then ceil_div remaining 1000 else 0))
     | _, _ => ret None
     end) ;;
  ret (mkMetrics (state b) (failureCount b) (successCount b)
                 (lastFailureTime b) (lastStateChange b) secondsUntilHalfOpen).

(** What can happen to a breaker shared by overlapping calls: a call reaches
    its admission, an admitted call's promise settles, or somebody resets or
    inspects the breaker. *)
Inductive Action : Type :=
| Begin
| EndOk
| EndFail (error : Thrown)
| Reset
| Inspect.

Definition act (a : Action) : Method unit :=
  match a with
  | Begin => try beforeCall ;;; ret tt
  | EndOk => try (afterCall (Ok tt)) ;;; ret tt
  | EndFail error => try (afterCall (T:=unit) (Throw error)) ;;; ret tt
  | Reset => reset
  | Inspect => getMetrics ;;; ret tt
  end.

Fixpoint acts (l : list Action) : Method unit :=
  match l with
  | [] => ret tt
  | a :: l' => act a ;;; acts l'
  end.

(** What holds of a breaker however it has been used. *)
Definition WellFormed (b : CircuitBreaker) : Prop :=
  0 <= failureCount b /\
  0 <= successCount b /\
  0 <= halfOpenAttempts b <= Z.max 0 (halfOpenMaxAttempts b) /\
  (state b <> HALF_OPEN -> halfOpenAttempts b = 0) /\
  (state b = OPEN -> lastFailureTime b <> None).

(** What one action does to the fields, as a relation between the breaker
    before and after. *)
Definition Kept (b b' : CircuitBreaker) : Prop :=
  sameConfig b b' /\ (WellFormed b -> WellFormed b').

End Breaker.

(* ======================================================================= *)
(** * Cache entries (src/utils/cache-interface.ts)                          *)
(* ======================================================================= *)

Module Cache.

Record CacheEntry (T : Type) : Type := mkEntry {
  data      : T;
  createdAt : Z;
  expiresAt : Z
}.
Arguments mkEntry {T} data createdAt expiresAt.
Arguments data {T} c.
Arguments createdAt {T} c.
Arguments expiresAt {T} c.

(** [x < y] on rationals, as a test. *)
Definition Qltb (x y : Q) : bool := negb (Qle_bool y x).

(** [entry.createdAt + (ttlMs * refreshThresholdPercent / 100)] *)
Definition refreshThreshold {T} (entry : CacheEntry T) (ttlMs refreshThresholdPercent : Z) : Q :=
  (inject_Z (createdAt entry) + inject_Z (ttlMs * refreshThresholdPercent) / inject_Z 100)%Q.

(** A background refresh in flight: the promise [refreshFn()] returned, which
    settles with [outcome], and the [key] and [ttlMs] its handlers captured. *)
Record Refresh (T : Type) : Type := mkRefresh {
  r_key     : string;
  r_outcome : Js.Res T;
  r_ttlMs   : Z
}.
Arguments mkRefresh {T} r_key r_outcome r_ttlMs.
Arguments r_key {T} r.
Arguments r_outcome {T} r.
Arguments r_ttlMs {T} r.

(** [stats()] result. *)
Record CacheStats : Type := mkStats {
  size : Z;
  keys : list string
}.

End Cache.

(* ======================================================================= *)
(** * The [lru-cache] package, as far as the memory cache uses it           *)
(* ======================================================================= *)

(** A store of at most [max] entries, kept from the most recently used to the
    least recently used; no key occurs twice.  [get] and [set] make their key
    the most recent one, [set] evicts the least recent entry beyond [max], and
    [entries()]/[keys()] enumerate from the most recent entry on. *)
Module Lru.
Section Lru.
Context {V : Type}.

Definition t : Type := list (string * V).

Fixpoint lookup (key : string) (l : t) : option V :=
  match l with
  | [] => None
  | (k, v) :: l' => if String.eqb k key then Some v else lookup key l'
  end.

Fixpoint remove (key : string) (l : t) : t :=
  match l with
  | [] => []
  | (k, v) :: l' => if String.eqb k key then remove key l' else (k, v) :: remove key l'
  end.

Definition get (key : string) (l : t) : option V * t :=
  match lookup key l with
  | Some v => (Some v, (key, v) :: remove key l)
  | None => (None, l)
  end.

Definition set (max : nat) (key : string) (v : V) (l : t) : t :=
  firstn max ((key, v) :: remove key l).

Definition delete (key : string) (l : t) : bool * t :=
  (match lookup key l with Some _ => true | None => false end, remove key l).

Definition entries (l : t) : list (string * V) := l.

Definition keys (l : t) : list string := map fst l.

Definition size (l : t) : Z := Z.of_nat (length l).
End Lru.
Arguments t V : clear implicits.
End Lru.

(* ======================================================================= *)
(** * In-memory cache (src/utils/cache-memory.ts)                           *)
(* ======================================================================= *)

Module MemoryCache.
Import Js Cache.
Local Open Scope js_scope.

(** [CACHE_CONFIG.MAX_SIZE] *)
Definition MAX_SIZE : nat := 500.

Section WithData.
Context {T : Type}.

(** Fields of [class MemoryCache]; [pending] holds the promise chains of the
    background refreshes that have not settled yet. *)
Record MemoryCache : Type := mkCache {
  cache          : Lru.t (CacheEntry T);
  hits           : Z;
  misses         : Z;
  refreshingKeys : gset string;
  pending        : list (Refresh T)
}.

(** [new MemoryCache()] *)
Definition new : MemoryCache := mkCache [] 0 0 ∅ [].

Definition set_cache (l : Lru.t (CacheEntry T)) (c : MemoryCache) : MemoryCache :=
  mkCache l (hits c) (misses c) (refreshingKeys c) (pending c).
Definition set_hits (n : Z) (c : MemoryCache) : MemoryCache :=
  mkCache (cache c) n (misses c) (refreshingKeys c) (pending c).
Definition set_misses (n : Z) (c : MemoryCache) : MemoryCache :=
  mkCache (cache c) (hits c) n (refreshingKeys c) (pending c).
Definition set_refreshingKeys (s : gset string) (c : MemoryCache) : MemoryCache :=
  mkCache (cache c) (hits c) (misses c) s (pending c).
Definition set_pending (p : list (Refresh T)) (c : MemoryCache) : MemoryCache :=
  mkCache (cache c) (hits c) (misses c) (refreshingKeys c) p.

Definition Method : Type -> Type := M MemoryCache.

(** [this.cache.get(key)] *)
Definition cache_get (key : string) : Method (option (CacheEntry T)) :=
  c <- this ;;
  let (entry, l) := Lru.get key (cache c) in
  assign (set_cache l) ;;;
  ret entry.

(** [this.cache.delete(key)] *)
Definition cache_delete (key : string) : Method bool :=
  c <- this ;;
  let (existed, l) := Lru.delete key (cache c) in
  assign (set_cache l) ;;;
  ret existed.

Definition hit : Method unit := assign (fun c => set_hits (hits c + 1) c).
Definition miss : Method unit := assign (fun c => set_misses (misses c + 1) c).

Definition get (key : string) : Method (option T) :=
  entry <- cache_get key ;;
  match entry with
  | None => miss ;;; ret None
  | Some entry =>
      now <- date_now ;;
      if expiresAt entry <? now then
        cache_delete key ;;;
        miss ;;;
        ret None
      else
        hit ;;;
        ret (Some (data entry))
  end.

Definition set (key : string) (data : T) (ttlMs : Z) : Method unit :=
  now <- date_now ;;
  assign (fun c => set_cache (Lru.set MAX_SIZE key (mkEntry data now (now + ttlMs)) (cache c)) c).

(** The stale branch's
    [refreshFn().then(set).catch(log).finally(() => refreshingKeys.delete(key))]:
    [refreshFn] is invoked at once, its handlers run when the promise settles.
    The call itself is under no [try]: when [refreshFn] throws before it
    returns a promise, the exception leaves [getWithRefresh] with the key
    already in [refreshingKeys] and no handler to take it out. *)
Definition startRefresh (key : string) (refreshFn : Callback T) (ttlMs : Z) : Method unit :=
  c <- this ;;
  if bool_decide (key ∈ refreshingKeys c) then ret tt
  else
    assign (fun c => set_refreshingKeys ({[key]} ∪ refreshingKeys c) c) ;;;
    promise <- invokeUnawaited refreshFn ;;
    assign (fun c => set_pending (pending c ++ [mkRefresh key promise ttlMs]) c).

(** The handlers of the oldest background refresh run. *)
Definition settleRefresh : Method unit :=
  c <- this ;;
  match pending c with
  | [] => ret tt
  | r :: rest =>
      assign (set_pending rest) ;;;
      (match r_outcome r with
       | Ok freshData => set (r_key r) freshData (r_ttlMs r)
       | Throw _ => ret tt
       end) ;;;
      assign (fun c => set_refreshingKeys (refreshingKeys c ∖ {[r_key r]}) c)
  end.

(** The tail of [getWithRefresh]: cache miss or hard expired, fetch fresh. *)
Definition fetchFresh (key : string) (refreshFn : Callback T) (ttlMs : Z) : Method T :=
  miss ;;;
  freshData <- invoke refreshFn ;;
  set key freshData ttlMs ;;;
  ret freshData.

Definition getWithRefresh (key : string) (refreshFn : Callback T)
           (ttlMs : Z) (refreshThresholdPercent : Z) : Method T :=
  entry <- cache_get key ;;
  now <- date_now ;;
  match entry with
  | Some entry =>
      if Qltb (inject_Z now) (refreshThreshold entry ttlMs refreshThresholdPercent) then
        hit ;;;
        ret (data entry)
      else if now <? expiresAt entry then
        hit ;;;
        startRefresh key refreshFn ttlMs ;;;
        ret (data entry)
      else
        cache_delete key ;;;
        fetchFresh key refreshFn ttlMs
  | None => fetchFresh key refreshFn ttlMs
  end.

(** [refreshThresholdPercent] defaults to 80. *)
Definition getWithRefresh80 (key : string) (refreshFn : Callback T) (ttlMs : Z) : Method T :=
  getWithRefresh key refreshFn ttlMs 80.

Definition has (key : string) : Method bool :=
  entry <- cache_get key ;;
  match entry with
  | None => ret false
  | Some entry =>
      now <- date_now ;;
      if expiresAt entry <? now then
        cache_delete key ;;;
        ret false
      else ret true
  end.

Definition delete (key : string) : Method bool := cache_delete key.

Definition clear : Method unit :=
  assign (set_cache []) ;;;
  assign (set_hits 0) ;;;
  assign (set_misses 0).

(** The loop of [clearExpired] over [this.cache.entries()]. *)
Fixpoint clearExpiredLoop (now : Z) (todo : list (string * CacheEntry T))
         (cleared : Z) : Method Z :=
  match todo with
  | [] => ret cleared
  | (key, entry) :: todo' =>
      if expiresAt entry <? now then
        cache_delete key ;;;
        clearExpiredLoop now todo' (cleared + 1)
      else clearExpiredLoop now todo' cleared
  end.

Definition clearExpired : Method Z :=
  now <- date_now ;;
  c <- this ;;
  clearExpiredLoop now (Lru.entries (cache c)) 0.

Definition stats : Method CacheStats :=
  clearExpired ;;;
  c <- this ;;
  ret (mkStats (Lru.size (cache c)) (Lru.keys (cache c))).

Definition resetMetrics : Method unit :=
  assign (set_hits 0) ;;;
  assign (set_misses 0).
(** One use of the cache by the code that owns it; [CallSettle] is the
    settlement of the oldest background refresh. *)
Inductive Call : Type :=
| CallGet (key : string)
| CallSet (key : string) (data : T) (ttlMs : Z)
| CallHas (key : string)
| CallDelete (key : string)
| CallClear
| CallClearExpired
| CallStats
| CallGetWithRefresh (key : string) (refreshFn : Callback T) (ttlMs pct : Z)
| CallSettle
| CallResetMetrics.

Definition perform (call : Call) : Method unit :=
  match call with
  | CallGet key => try (get key) ;;; ret tt
  | CallSet key data ttlMs => try (set key data ttlMs) ;;; ret tt
  | CallHas key => try (has key) ;;; ret tt
  | CallDelete key => try (delete key) ;;; ret tt
  | CallClear => try clear ;;; ret tt
  | CallClearExpired => try clearExpired ;;; ret tt
  | CallStats => try stats ;;; ret tt
  | CallGetWithRefresh key refreshFn ttlMs pct =>
      try (getWithRefresh key refreshFn ttlMs pct) ;;; ret tt
  | CallSettle => try settleRefresh ;;; ret tt
  | CallResetMetrics => try resetMetrics ;;; ret tt
  end.

Fixpoint performAll (l : list Call) : Method unit :=
  match l with
  | [] => ret tt
  | call :: l' => perform call ;;; performAll l'
  end.

(** What holds of a cache however it has been used. *)
Definition WellFormed (c : MemoryCache) : Prop :=
  List.NoDup (Lru.keys (cache c)) /\
  (length (cache c) <= MAX_SIZE)%nat /\
  0 <= hits c /\ 0 <= misses c.

End WithData.
Arguments MemoryCache T : clear implicits.

(** A method keeps [WellFormed]. *)
Definition Keeps {T A} (m : Method (T:=T) A) : Prop :=
  forall env c, WellFormed c -> WellFormed (snd (snd (m (env, c)))).

(** The entries [clearExpired] keeps at [now]. *)
Definition survivors {T} (now : Z) (l : Lru.t (CacheEntry T)) : Lru.t (CacheEntry T) :=
  List.filter (fun kv => negb (expiresAt (snd kv) <? now)) l.

End MemoryCache.

(* ======================================================================= *)
(** * Redis cache (src/utils/cache-redis.ts)                                *)
(* ======================================================================= *)

Module RedisCache.
Import Js Cache.
Local Open Scope js_scope.

(** Modelled from the spec: [REDIS_CONFIG.KEY_PREFIX] of src/constants.ts,
    whose default the specification gives as [odoo-crm:]. *)
Definition KEY_PREFIX : string := "odoo-crm:".

Section WithData.
Context {T : Type}.

(** The Redis server behind the [ioredis] client, as the cache sees it:
    whether commands get through, and the live keys, each with the
    serialised entry and the server-side deadline its [PX] option set.
    [JSON.parse (JSON.stringify entry)] is [entry] for the JSON-serialisable
    data the interface requires, so the entry stands for its own text. *)
Record Server : Type := mkServer {
  reachable : bool;
  db        : gmap string (CacheEntry T * Z)
}.

(** Fields of [class RedisCache]; [pending] as in the memory cache. *)
Record RedisCache : Type := mkCache {
  client         : Server;
  hits           : Z;
  misses         : Z;
  refreshingKeys : gset string;
  pending        : list (Refresh T)
}.

(** [new RedisCache()] against a given server. *)
Definition new (srv : Server) : RedisCache := mkCache srv 0 0 ∅ [].

Definition set_db (d : gmap string (CacheEntry T * Z)) (c : RedisCache) : RedisCache :=
  mkCache (mkServer (reachable (client c)) d) (hits c) (misses c) (refreshingKeys c) (pending c).
Definition set_hits (n : Z) (c : RedisCache) : RedisCache :=
  mkCache (client c) n (misses c) (refreshingKeys c) (pending c).
Definition set_misses (n : Z) (c : RedisCache) : RedisCache :=
  mkCache (client c) (hits c) n (refreshingKeys c) (pending c).
Definition set_refreshingKeys (s : gset string) (c : RedisCache) : RedisCache :=
  mkCache (client c) (hits c) (misses c) s (pending c).
Definition set_pending (p : list (Refresh T)) (c : RedisCache) : RedisCache :=
  mkCache (client c) (hits c) (misses c) (refreshingKeys c) p.

Definition Method : Type -> Type := M RedisCache.

(** Every command is rejected while the server cannot be reached. *)
Definition connected : Method unit :=
  c <- this ;;
  if reachable (client c) then ret tt
  else throw (JsError "Reached the max retries per request limit (which is 3).").

(** The server drops a key once its own clock has passed the deadline; the
    reading taken here is the instant the command is served. *)
Definition live (key : string) : Method (option (CacheEntry T)) :=
  serverNow <- date_now ;;
  c <- this ;;
  match db (client c) !! key with
  | Some (raw, deadline) =>
      if deadline <? serverNow then
        assign (set_db (base.delete key (db (client c)))) ;;;
        ret None
      else ret (Some raw)
  | None => ret None
  end.

(** [await this.client.get(key)] *)
Definition client_get (key : string) : Method (option (CacheEntry T)) :=
  connected ;;; live key.

(** [await this.client.set(key, raw, 'PX', ttlMs)]; the server refuses an
    expire time that is not positive. *)
Definition client_set (key : string) (raw : CacheEntry T) (ttlMs : Z) : Method unit :=
  connected ;;;
  if ttlMs <=? 0 then throw (JsError "ERR invalid expire time in 'set' command")
  else
    serverNow <- date_now ;;
    assign (fun c => set_db (<[key := (raw, serverNow + ttlMs)]> (db (client c))) c).

(** [await this.client.exists(key)] *)
Definition client_exists (key : string) : Method Z :=
  connected ;;;
  raw <- live key ;;
  ret (match raw with Some _ => 1 | None => 0 end).

(** [await this.client.del(key)] *)
Definition client_del (key : string) : Method Z :=
  connected ;;;
  raw <- live key ;;
  match raw with
  | Some _ =>
      assign (fun c => set_db (base.delete key (db (client c))) c) ;;;
      ret 1
  | None => ret 0
  end.

Definition prefixKey (key : string) : string := String.append KEY_PREFIX key.

Definition hit : Method unit := assign (fun c => set_hits (hits c + 1) c).
Definition miss : Method unit := assign (fun c => set_misses (misses c + 1) c).

Definition get (key : string) : Method (option T) :=
  r <- try (
    let prefixedKey := prefixKey key in
    raw <- client_get prefixedKey ;;
    match raw with
    | None => miss ;;; ret None
    | Some entry =>
        now <- date_now ;;
        if expiresAt entry <? now then
          client_del prefixedKey ;;;
          miss ;;;
          ret None
        else
          hit ;;;
          ret (Some (data entry))
    end) ;;
  match r with
  | Ok v => ret v
  | Throw _ => miss ;;; ret None
  end.

Definition set (key : string) (data : T) (ttlMs : Z) : Method unit :=
  r <- try (
    now <- date_now ;;
    let entry := mkEntry data now (now + ttlMs) in
    let prefixedKey := prefixKey key in
    client_set prefixedKey entry ttlMs) ;;
  match r with
  | Ok _ => ret tt
  | Throw _ => ret tt
  end.

Definition has (key : string) : Method bool :=
  r <- try (
    exists_ <- client_exists (prefixKey key) ;;
    ret (exists_ =? 1)) ;;
  match r with
  | Ok b => ret b
  | Throw _ => ret false
  end.

Definition delete (key : string) : Method bool :=
  r <- try (
    deleted <- client_del (prefixKey key) ;;
    ret (deleted =? 1)) ;;
  match r with
  | Ok b => ret b
  | Throw _ => ret false
  end.

(** As in the memory cache, the call [refreshFn()] of the stale branch is
    not awaited; here an exception thrown before a promise is returned is
    caught by the [catch] of [getWithRefresh]. *)
Definition startRefresh (key : string) (refreshFn : Callback T) (ttlMs : Z) : Method unit :=
  c <- this ;;
  if bool_decide (key ∈ refreshingKeys c) then ret tt
  else
    assign (fun c => set_refreshingKeys ({[key]} ∪ refreshingKeys c) c) ;;;
    promise <- invokeUnawaited refreshFn ;;
    assign (fun c => set_pending (pending c ++ [mkRefresh key promise ttlMs]) c).

Definition settleRefresh : Method unit :=
  c <- this ;;
  match pending c with
  | [] => ret tt
  | r :: rest =>
      assign (set_pending rest) ;;;
      (match r_outcome r with
       | Ok freshData => set (r_key r) freshData (r_ttlMs r)
       | Throw _ => ret tt
       end) ;;;
      assign (fun c => set_refreshingKeys (refreshingKeys c ∖ {[r_key r]}) c)
  end.

(** The block the [try] and the [catch] of [getWithRefresh] both end with.  In
    the [catch] block the source does not await [this.set(...)]; [set] issues
    its command before its first suspension and never rejects, so it is run in
    place there too. *)
Definition fetchFresh (key : string) (refreshFn : Callback T) (ttlMs : Z) : Method T :=
  miss ;;;
  freshData <- invoke refreshFn ;;
  set key freshData ttlMs ;;;
  ret freshData.

(** The body of the [try] block of [getWithRefresh]. *)
Definition lookupOrFetch (key : string) (refreshFn : Callback T)
           (ttlMs : Z) (refreshThresholdPercent : Z) : Method T :=
  let prefixedKey := prefixKey key in
  raw <- client_get prefixedKey ;;
  now <- date_now ;;
  match raw with
  | Some entry =>
      if Qltb (inject_Z now) (refreshThreshold entry ttlMs refreshThresholdPercent) then
        hit ;;;
        ret (data entry)
      else if now <? expiresAt entry then
        hit ;;;
        startRefresh key refreshFn ttlMs ;;;
        ret (data entry)
      else fetchFresh key refreshFn ttlMs
  | None => fetchFresh key refreshFn ttlMs
  end.

Definition getWithRefresh (key : string) (refreshFn : Callback T)
           (ttlMs : Z) (refreshThresholdPercent : Z) : Method T :=
  r <- try (lookupOrFetch key refreshFn ttlMs refreshThresholdPercent) ;;
  match r with
  | Ok v => ret v
  | Throw _ => fetchFresh key refreshFn ttlMs
  end.

Definition getWithRefresh80 (key : string) (refreshFn : Callback T) (ttlMs : Z) : Method T :=
  getWithRefresh key refreshFn ttlMs 80.

Definition resetMetrics : Method unit :=
  assign (set_hits 0) ;;;
  assign (set_misses 0).
(** The key is held by the server and its deadline has not passed at [now]. *)
Definition liveAt (c : RedisCache) (key : string) (now : Z)
           (entry : CacheEntry T) : Prop :=
  exists deadline, db (client c) !! prefixKey key = Some (entry, deadline) /\ now <= deadline.

(** The server holds nothing for the key at [now]. *)
Definition deadAt (c : RedisCache) (key : string) (now : Z) : Prop :=
  match db (client c) !! prefixKey key with
  | Some (_, deadline) => deadline < now
  | None => True
  end.

(** What the server is left with once it has been asked for a dead key. *)
Definition purge (key : string) (c : RedisCache) : RedisCache :=
  match db (client c) !! prefixKey key with
  | Some _ => set_db (base.delete (prefixKey key) (db (client c))) c
  | None => c
  end.

(** The [retryStrategy] option the constructor passes to [ioredis]: the delay
    before reconnection attempt number [times], or [null] to give up. *)
Definition retryStrategy (times : Z) : option Z :=
  if 3 <? times then None
  else Some (Z.min (times * 200) 2000).

(** [await this.client.keys(pattern)] for the pattern [KEY_PREFIX*]: the keys
    the server holds at the instant it serves the command that start with the
    prefix (which contains no glob character), in the order the server
    happens to enumerate them. *)
Definition client_keys : Method (list string) :=
  connected ;;;
  serverNow <- date_now ;;
  c <- this ;;
  let alive := filter (fun kv => serverNow <= snd (snd kv)) (db (client c)) in
  assign (set_db alive) ;;;
  ret (List.filter (fun key => startsWith key KEY_PREFIX) (map fst (map_to_list alive))).

(** [await this.client.del(...keys)] *)
Definition client_del_many (keys : list string) : Method Z :=
  connected ;;;
  c <- this ;;
  let held := List.filter (fun key => bool_decide (is_Some (db (client c) !! key))) keys in
  assign (set_db (foldr base.delete (db (client c)) keys)) ;;;
  ret (Z.of_nat (length held)).

Definition clear : Method unit :=
  r <- try (
    keys <- client_keys ;;
    (if (0 <? Z.of_nat (length keys)) then client_del_many keys ;;; ret tt else ret tt) ;;;
    assign (set_hits 0) ;;;
    assign (set_misses 0)) ;;
  match r with
  | Ok _ => ret tt
  | Throw _ => ret tt
  end.

(** [k.substring(prefixLen)] *)
Fixpoint substringFrom (n : nat) (s : string) : string :=
  match n, s with
  | O, _ => s
  | S n', String _ s' => substringFrom n' s'
  | S _, EmptyString => EmptyString
  end.

Definition stats : Method CacheStats :=
  r <- try (
    keys <- client_keys ;;
    let prefixLen := String.length KEY_PREFIX in
    let cleanKeys := map (substringFrom prefixLen) keys in
    ret (mkStats (Z.of_nat (length keys)) cleanKeys)) ;;
  match r with
  | Ok st => ret st
  | Throw _ => ret (mkStats 0 [])
  end.

End WithData.
Arguments Server T : clear implicits.
Arguments RedisCache T : clear implicits.

End RedisCache.

(* ======================================================================= *)
(** * Concrete breakers, caches and runs                                    *)
(* ======================================================================= *)

Module Scenario.
Import Js.

(** A clock whose successive readings are the elements of [l] (and stay at
    the last one afterwards). *)
Definition clockOf (l : list Z) : nat -> Z := fun n => nth n l (List.last l 0).

(** A fresh environment: nothing read, nothing invoked. *)
Definition envAt (l : list Z) : Env := mkEnv (clockOf l) 0 0 [].

(** An [async] callback that always fails with the error of message [m]. *)
Definition alwaysThrows (m : string) : Callback Z :=
  mkCallback (fun _ => Throw (JsError m)) (fun _ => false).

(** A callback that always resolves with [v]. *)
Definition alwaysReturns (v : Z) : Callback Z :=
  mkCallback (fun _ => Ok v) (fun _ => false).

(** A callback that throws on its first invocation and resolves afterwards. *)
Definition throwsOnce (m : string) (v : Z) : Callback Z :=
  mkCallback (fun n => match n with O => Throw (JsError m) | S _ => Ok v end)
             (fun _ => false).

(** A plain function that throws the error of message [m] before it returns
    a promise. *)
Definition throwsAtOnce (m : string) : Callback Z :=
  mkCallback (fun _ => Throw (JsError m)) (fun _ => true).

(** A breaker with a threshold of two failures. *)
Definition twoStrikes : Breaker.CircuitBreaker := Breaker.new 2 60000 1.

(** The default breaker, tripped by five failures, the last at time 1000. *)
Definition tripped : Breaker.CircuitBreaker :=
  Breaker.mkBreaker Breaker.OPEN 5 0 (Some 1000) (Some 1000) 0 5 60000 1.

(** Clock readings during the two failures that trip [twoStrikes]. *)
Definition strikesEnv : Env := envAt [1000; 2000; 2001].

(** Clock readings of a trial call made a minute after [tripped] opened. *)
Definition trialEnv : Env := envAt [61000; 61001; 61200; 61201].

(** An empty in-memory cache. *)
Definition emptyMemory : MemoryCache.MemoryCache Z := MemoryCache.new.

(** A Redis cache in front of a reachable, empty server. *)
Definition emptyRedis : RedisCache.RedisCache Z :=
  RedisCache.new (RedisCache.mkServer true ∅).

(** The in-memory cache once ["x"] has been set for one second at time 0. *)
Definition memoryWithX : MemoryCache.MemoryCache Z :=
  snd (snd (MemoryCache.set "x" 42 1000 (envAt [0], emptyMemory))).

(** The Redis cache once ["x"] has been set for 100 ms: the cache reads its
    clock at 0, the server serves the command at 5. *)
Definition redisWithX : RedisCache.RedisCache Z :=
  snd (snd (RedisCache.set "x" 42 100 (envAt [0; 5], emptyRedis))).

(** A wrapped call the breaker refuses with 32 seconds to go. *)
Definition refused : Callback Z :=
  mkCallback (fun _ => Throw (CircuitBreakerError (Breaker.openMessage 32) 32))
             (fun _ => false).

(** The upstream is down. *)
Definition upstreamDown : Callback Z := alwaysThrows "connect ECONNREFUSED".

(** A breaker in the state the OPEN to HALF_OPEN transition leaves, allowing
    three trial calls. *)
Definition threeTrials : Breaker.CircuitBreaker :=
  Breaker.mkBreaker Breaker.HALF_OPEN 5 0 (Some 1000) (Some 61000) 0 5 60000 3.


(** [memoryWithX] once a stale read at time 900 has started a refresh that
    will resolve with 7. *)
Definition refreshingX : MemoryCache.MemoryCache Z :=
  snd (snd (MemoryCache.getWithRefresh "x" (alwaysReturns 7) 1000 80
              (envAt [900], memoryWithX))).

(** A Redis cache that has counted three hits and a miss, its server out of
    reach. *)
Definition offlineRedis : RedisCache.RedisCache Z :=
  RedisCache.mkCache (RedisCache.mkServer false ∅) 3 1 ∅ [].

(** An environment whose clock stands at 0. *)
Definition idle : Env := envAt [0].

End Scenario.

(* ======================================================================= *)
(** * Facts about the runtime helpers                                       *)
(* ======================================================================= *)

Module JsFacts.
Import Js.

Lemma startsWith_spec (s p : string) :
  startsWith s p = true <-> exists b, s = String.append p b.
Proof.
  revert s. induction p as [|c p IH]; intros s; simpl.
  - split; [intros _; exists s; reflexivity | reflexivity].
  - destruct s as [|d s].
    + split; [discriminate | intros [b Hb]; discriminate].
    + rewrite andb_true_iff, Ascii.eqb_eq, IH. split.
      * intros [-> [b ->]]. exists b. reflexivity.
      * intros [b Hb]. injection Hb as -> ->. split; [reflexivity | exists b; reflexivity].
Qed.

Lemma includes_spec (s p : string) :
  includes s p = true <-> Contains p s.
Proof.
  unfold Contains. induction s as [|d s IH].
  - simpl. rewrite orb_false_r, startsWith_spec. split.
    + intros [b Hb]. exists EmptyString, b. exact Hb.
    + intros [a [b Hab]]. destruct a as [|x a]; [exists b; exact Hab | discriminate].
  - cbn [includes]. rewrite orb_true_iff, startsWith_spec, IH. split.
    + intros [[b Hb] | [a [b Hab]]].
      * exists EmptyString, b. exact Hb.
      * exists (String d a), b. simpl. rewrite Hab. reflexivity.
    + intros [a [b Hab]]. destruct a as [|x a].
      * left. exists b. exact Hab.
      * right. simpl in Hab. injection Hab as -> ->. exists a, b. reflexivity.
Qed.

Lemma includes_false (s p : string) :
  includes s p = false <-> ~ Contains p s.
Proof.
  rewrite <- includes_spec. destruct (includes s p); split; intros H;
    try reflexivity; try discriminate; try (intros X; discriminate X).
  exfalso. apply H. reflexivity.
Qed.

(** [ceil_div a b] is the least integer [n] with [a <= n * b]. *)
Lemma ceil_div_spec (a b : Z) :
  0 < b -> b * (ceil_div a b - 1) < a <= b * ceil_div a b.
Proof.
  intros Hb. unfold ceil_div.
  pose proof (Z.mul_div_le (- a) b Hb).
  pose proof (Z.mul_succ_div_gt (- a) b Hb).
  lia.
Qed.

Lemma ceil_div_pos (a b : Z) : 0 < b -> 0 < a -> 0 < ceil_div a b.
Proof.
  intros Hb Ha. pose proof (ceil_div_spec a b Hb). nia.
Qed.

Lemma Qltb_spec (x y : Q) : Cache.Qltb x y = true <-> (x < y)%Q.
Proof.
  unfold Cache.Qltb. rewrite negb_true_iff. split.
  - intros H. apply Qnot_le_lt. intros Hle.
    apply Qle_bool_iff in Hle. congruence.
  - intros H. destruct (Qle_bool y x) eqn:E; [|reflexivity].
    apply Qle_bool_iff in E. exfalso. exact (Qlt_not_le _ _ H E).
Qed.

(** The freshness test of [getWithRefresh], cleared of its division. *)
Lemma fresh_iff {T} (entry : Cache.CacheEntry T) (now ttlMs pct : Z) :
  Cache.Qltb (inject_Z now) (Cache.refreshThreshold entry ttlMs pct) = true <->
  100 * (now - Cache.createdAt entry) < ttlMs * pct.
Proof.
  rewrite Qltb_spec. unfold Cache.refreshThreshold.
  unfold Qlt, Qplus, Qdiv, Qmult, Qinv, inject_Z. simpl.
  lia.
Qed.

Lemma invocations_app (tr tr' : list Event) :
  invocations (tr ++ tr') = (invocations tr + invocations tr')%nat.
Proof.
  induction tr as [|[|ms] tr IH]; cbn [invocations app]; rewrite ?IH; reflexivity.
Qed.

End JsFacts.

(* ======================================================================= *)
(** * Retry executor: classification and backoff                            *)
(* ======================================================================= *)

Module RetryProps.
Import Js Retry Scenario JsFacts.

Lemma existsb_includes (message : string) (patterns : list string) :
  existsb (includes message) patterns = true <->
  exists p, In p patterns /\ Contains p message.
Proof.
  rewrite existsb_exists. split; intros [p [Hin Hp]]; exists p; split; auto;
    apply includes_spec; exact Hp.
Qed.

Lemma existsb_includes_false (message : string) (patterns : list string) :
  existsb (includes message) patterns = false <->
  forall p, In p patterns -> ~ Contains p message.
Proof.
  split.
  - intros H p Hin Hp.
    assert (existsb (includes message) patterns = true) as E
      by (apply existsb_includes; exists p; auto).
    congruence.
  - intros H. destruct (existsb (includes message) patterns) eqn:E; [|reflexivity].
    apply existsb_includes in E. destruct E as [p [Hin Hp]].
    exfalso. exact (H p Hin Hp).
Qed.

(** A message with a client-error signature is never retried. *)
Lemma non_retryable_signature (error : Thrown) :
  (exists p, In p NON_RETRYABLE_PATTERNS /\ Contains p (message_of error)) ->
  isRetryableError error = false.
Proof.
  intros H. apply existsb_includes in H. unfold isRetryableError.
  cbv zeta. rewrite H. reflexivity.
Qed.

(** A message with no known signature is not retried either. *)
Lemma unknown_signature (error : Thrown) :
  (forall p, In p (NON_RETRYABLE_PATTERNS ++ RETRYABLE_PATTERNS) ->
             ~ Contains p (message_of error)) ->
  isRetryableError error = false.
Proof.
  intros H. unfold isRetryableError. cbv zeta.
  destruct (existsb (includes (message_of error)) NON_RETRYABLE_PATTERNS); [reflexivity|].
  assert (existsb (includes (message_of error)) RETRYABLE_PATTERNS = false) as ->; [|reflexivity].
  apply existsb_includes_false. intros p Hin. apply H.
  apply in_or_app. right. exact Hin.
Qed.

(** A transient signature with no client-error signature is retried. *)
Lemma retryable_signature (error : Thrown) :
  (exists p, In p RETRYABLE_PATTERNS /\ Contains p (message_of error)) ->
  (forall p, In p NON_RETRYABLE_PATTERNS -> ~ Contains p (message_of error)) ->
  isRetryableError error = true.
Proof.
  intros Hr Hn. apply existsb_includes in Hr. apply existsb_includes_false in Hn.
  unfold isRetryableError. cbv zeta. rewrite Hn, Hr. reflexivity.
Qed.

Section Loop.
Context {T : Type}.
Variable fn : Callback T.
Variable maxRetries baseDelayMs : Z.

(** An iteration whose error is final: not retryable, or the last attempt. *)
Lemma retryLoop_final (fuel : nat) (attempt : Z) (lastError error : Thrown) (env : Env) :
  attempt <= maxRetries ->
  fn (calls env) = Throw error ->
  isRetryableError error = false \/ attempt = maxRetries ->
  retryLoop fn maxRetries baseDelayMs (S fuel) attempt lastError (env, tt) =
    (Throw error, (called env, tt)).
Proof.
  intros Hle Hfn Hfinal. cbn [retryLoop].
  apply Z.leb_le in Hle. rewrite Hle.
  unfold bind, try, invoke. cbn [fst snd]. rewrite Hfn.
  assert (negb (isRetryableError error) || (attempt =? maxRetries) = true) as ->.
  { destruct Hfinal as [-> | ->]; [reflexivity|].
    rewrite Z.eqb_refl. apply orb_true_r. }
  reflexivity.
Qed.

(** An iteration that waits and goes round again. *)
Lemma retryLoop_again (fuel : nat) (attempt : Z) (lastError error : Thrown) (env : Env) :
  attempt < maxRetries ->
  fn (calls env) = Throw error ->
  isRetryableError error = true ->
  retryLoop fn maxRetries baseDelayMs (S fuel) attempt lastError (env, tt) =
    retryLoop fn maxRetries baseDelayMs fuel (attempt + 1) error
      (slept (baseDelayMs * 2 ^ (attempt - 1)) (called env), tt).
Proof.
  intros Hlt Hfn Hretry. cbn [retryLoop].
  assert ((attempt <=? maxRetries) = true) as -> by (apply Z.leb_le; lia).
  unfold bind at 1. unfold try, invoke. cbn [fst snd]. rewrite Hfn.
  rewrite Hretry.
  assert ((attempt =? maxRetries) = false) as -> by (apply Z.eqb_neq; lia).
  cbn [negb orb]. unfold bind at 1. unfold sleep. cbn [fst snd]. reflexivity.
Qed.

(** An iteration in which [fn] resolves. *)
Lemma retryLoop_ok (fuel : nat) (attempt : Z) (lastError : Thrown) (v : T) (env : Env) :
  attempt <= maxRetries ->
  fn (calls env) = Ok v ->
  retryLoop fn maxRetries baseDelayMs (S fuel) attempt lastError (env, tt) =
    (Ok v, (called env, tt)).
Proof.
  intros Hle Hfn. cbn [retryLoop].
  apply Z.leb_le in Hle. rewrite Hle.
  unfold bind, try, invoke. cbn [fst snd]. rewrite Hfn. reflexivity.
Qed.

(** The fuel is never what stops the loop: any two amounts that cover the
    iterations left give the same run. *)
Lemma retryLoop_fuel (fuel1 : nat) :
  forall (fuel2 : nat) (attempt : Z) (lastError : Thrown) (w : Env * unit),
    (Z.to_nat (maxRetries - attempt + 1) <= fuel1)%nat ->
    (Z.to_nat (maxRetries - attempt + 1) <= fuel2)%nat ->
    retryLoop fn maxRetries baseDelayMs fuel1 attempt lastError w =
    retryLoop fn maxRetries baseDelayMs fuel2 attempt lastError w.
Proof.
  induction fuel1 as [|fuel1 IH]; intros fuel2 attempt lastError w H1 H2.
  - destruct fuel2 as [|fuel2]; [reflexivity|].
    cbn [retryLoop]. destruct (attempt <=? maxRetries) eqn:E; [|reflexivity].
    apply Z.leb_le in E. lia.
  - destruct fuel2 as [|fuel2].
    + cbn [retryLoop]. destruct (attempt <=? maxRetries) eqn:E; [|reflexivity].
      apply Z.leb_le in E. lia.
    + cbn [retryLoop]. destruct (attempt <=? maxRetries) eqn:E; [|reflexivity].
      apply Z.leb_le in E. unfold bind at 1 3. destruct (try (invoke fn) w) as [[r|e] w'];
        [|reflexivity].
      destruct r as [v|error]; [reflexivity|].
      destruct (negb (isRetryableError error) || (attempt =? maxRetries)); [reflexivity|].
      unfold bind. destruct (sleep _ w') as [[u|e] w'']; [|reflexivity].
      apply IH; lia.
Qed.

(** The first attempt's error ends the run when it is not retryable. *)
Lemma first_error_final (error : Thrown) (env : Env) :
  1 <= maxRetries ->
  fn (calls env) = Throw error ->
  isRetryableError error = false ->
  executeWithRetry fn maxRetries baseDelayMs (env, tt) = (Throw error, (called env, tt)).
Proof.
  intros Hmax Hfn Hnr. unfold executeWithRetry.
  destruct (Z.to_nat maxRetries) as [|fuel] eqn:E; [lia|].
  apply retryLoop_final; auto.
Qed.
End Loop.

(** C7. With at least one attempt allowed, an error judged non-retryable (its
    message carries a client-error signature, or it matches neither pattern
    list) ends the run at once: [fn] has been invoked exactly once, no wait
    has been made, and that very error is thrown. *)
Theorem non_retryable_error_invoked_once :
  forall (T : Type) (fn : Callback T) (maxRetries baseDelayMs : Z) (env : Env) (error : Thrown),
    1 <= maxRetries ->
    fn (calls env) = Throw error ->
    (exists p, In p NON_RETRYABLE_PATTERNS /\ Contains p (message_of error)) \/
    (forall p, In p (NON_RETRYABLE_PATTERNS ++ RETRYABLE_PATTERNS) ->
               ~ Contains p (message_of error)) ->
    executeWithRetry fn maxRetries baseDelayMs (env, tt) =
      (Throw error,
       (mkEnv (clk env) (tick env) (S (calls env)) (trace env ++ [EvCall]), tt)).
Proof.
  intros T fn maxRetries baseDelayMs env error Hmax Hfn Hclass.
  apply first_error_final; auto.
  destruct Hclass as [H | H]; [apply non_retryable_signature | apply unknown_signature]; exact H.
Qed.

Lemma non_retryable_error_invoked_once_witness :
  executeWithRetry (alwaysThrows "Invalid credentials") 7 1000 (envAt [0], tt) =
    (Throw (JsError "Invalid credentials"),
     (mkEnv (clockOf [0]) 0 1 [EvCall], tt)).
Proof.
  apply (non_retryable_error_invoked_once Z (alwaysThrows "Invalid credentials") 7 1000
           (envAt [0]) (JsError "Invalid credentials")).
  - lia.
  - reflexivity.
  - left. exists "Invalid credentials"%string. split.
    + simpl. auto.
    + exists EmptyString, EmptyString. reflexivity.
Defined.

(** C10. When a message carries both a client-error signature and a transient
    signature, the client-error list, checked first, decides: the error is
    classified as non-retryable, so with at least one attempt allowed [fn] is
    invoked exactly once and the error is thrown without any wait. *)
Theorem non_retryable_takes_precedence :
  forall (T : Type) (fn : Callback T) (maxRetries baseDelayMs : Z) (env : Env) (error : Thrown),
    (exists p, In p NON_RETRYABLE_PATTERNS /\ Contains p (message_of error)) ->
    (exists q, In q RETRYABLE_PATTERNS /\ Contains q (message_of error)) ->
    isRetryableError error = false /\
    (1 <= maxRetries ->
     fn (calls env) = Throw error ->
     executeWithRetry fn maxRetries baseDelayMs (env, tt) =
       (Throw error,
        (mkEnv (clk env) (tick env) (S (calls env)) (trace env ++ [EvCall]), tt))).
Proof.
  intros T fn maxRetries baseDelayMs env error Hnon _.
  pose proof (non_retryable_signature error Hnon) as Hclass.
  split; [exact Hclass|].
  intros Hmax Hfn. apply first_error_final; auto.
Qed.

Lemma non_retryable_takes_precedence_witness :
  isRetryableError (JsError "Invalid credentials (HTTP 500)") = false /\
  (1 <= 3 ->
   alwaysThrows "Invalid credentials (HTTP 500)" 0%nat =
     Throw (JsError "Invalid credentials (HTTP 500)") ->
   executeWithRetry (alwaysThrows "Invalid credentials (HTTP 500)") 3 1000 (envAt [0], tt) =
     (Throw (JsError "Invalid credentials (HTTP 500)"),
      (mkEnv (clockOf [0]) 0 1 [EvCall], tt))).
Proof.
  apply (non_retryable_takes_precedence Z (alwaysThrows "Invalid credentials (HTTP 500)")
           3 1000 (envAt [0]) (JsError "Invalid credentials (HTTP 500)")).
  - exists "Invalid credentials"%string. split.
    + simpl. auto.
    + exists EmptyString, " (HTTP 500)"%string. reflexivity.
  - exists "500"%string. split.
    + simpl. auto 10.
    + exists "Invalid credentials (HTTP "%string, ")"%string. reflexivity.
Defined.

(** C6 (amended). With [maxRetries = 3], when every invocation of [fn] throws
    an error whose message contains "ECONNRESET" and none of the client-error
    signatures, [fn] is invoked exactly three times, the waits between the
    attempts are [baseDelayMs] and then [2 * baseDelayMs], and the error of the
    third attempt is the one thrown. *)
Theorem econnreset_three_attempts :
  forall (T : Type) (fn : Callback T) (baseDelayMs : Z) (env : Env),
    (forall n, exists error,
        fn n = Throw error /\
        Contains "ECONNRESET" (message_of error) /\
        (forall p, In p NON_RETRYABLE_PATTERNS -> ~ Contains p (message_of error))) ->
    exists lastError,
      fn (S (S (calls env))) = Throw lastError /\
      executeWithRetry fn 3 baseDelayMs (env, tt) =
        (Throw lastError,
         (mkEnv (clk env) (tick env) (S (S (S (calls env))))
                (trace env ++ [EvCall; EvSleep baseDelayMs;
                               EvCall; EvSleep (2 * baseDelayMs);
                               EvCall]),
          tt)).
Proof.
  intros T fn baseDelayMs env Hfn.
  assert (forall n, exists error, fn n = Throw error /\ isRetryableError error = true) as Hretry.
  { intros n. destruct (Hfn n) as [error [E [Hc Hn]]]. exists error. split; [exact E|].
    apply retryable_signature; [|exact Hn].
    exists "ECONNRESET"%string. split; [simpl; auto | exact Hc]. }
  destruct (Hretry (calls env)) as [e1 [E1 R1]].
  destruct (Hretry (S (calls env))) as [e2 [E2 R2]].
  destruct (Hretry (S (S (calls env)))) as [e3 [E3 _]].
  exists e3. split; [exact E3|].
  unfold executeWithRetry. change (Z.to_nat 3) with 3%nat.
  rewrite (retryLoop_again fn 3 baseDelayMs 2 1 _ e1 env); [|lia|exact E1|exact R1].
  rewrite (retryLoop_again fn 3 baseDelayMs 1 (1 + 1) _ e2); [|lia|exact E2|exact R2].
  rewrite (retryLoop_final fn 3 baseDelayMs 0 (1 + 1 + 1) _ e3); [|lia|exact E3|right; reflexivity].
  unfold called, slept. cbn [clk tick calls trace].
  repeat rewrite <- app_assoc. cbn [app].
  change (2 ^ (1 - 1)) with 1. change (2 ^ (1 + 1 - 1)) with 2.
  replace (baseDelayMs * 1) with baseDelayMs by lia.
  replace (baseDelayMs * 2) with (2 * baseDelayMs) by lia.
  reflexivity.
Qed.

Lemma econnreset_three_attempts_witness :
  exists lastError,
    alwaysThrows "read ECONNRESET" 2%nat = Throw lastError /\
    executeWithRetry (alwaysThrows "read ECONNRESET") 3 1000 (envAt [0], tt) =
      (Throw lastError,
       (mkEnv (clockOf [0]) 0 3
              ([] ++ [EvCall; EvSleep 1000; EvCall; EvSleep (2 * 1000); EvCall]),
        tt)).
Proof.
  apply (econnreset_three_attempts Z (alwaysThrows "read ECONNRESET") 1000 (envAt [0])).
  intros n. exists (JsError "read ECONNRESET"). split; [reflexivity|]. split.
  - exists "read "%string, EmptyString. reflexivity.
  - apply existsb_includes_false. reflexivity.
Defined.

(** C6 as stated fails: a message may contain "ECONNRESET" together with a
    client-error signature, and then the first attempt is the only one. *)
Lemma econnreset_with_client_signature_counterexample :
  (forall n, exists error,
      alwaysThrows "Access Denied (ECONNRESET)" n = Throw error /\
      Contains "ECONNRESET" (message_of error)) /\
  executeWithRetry (alwaysThrows "Access Denied (ECONNRESET)") 3 1000 (envAt [0], tt) =
    (Throw (JsError "Access Denied (ECONNRESET)"),
     (mkEnv (clockOf [0]) 0 1 [EvCall], tt)) /\
  invocations [EvCall] <> 3%nat.
Proof.
  split; [|split].
  - intros n. exists (JsError "Access Denied (ECONNRESET)"). split; [reflexivity|].
    exists "Access Denied ("%string, ")"%string. reflexivity.
  - reflexivity.
  - discriminate.
Qed.

End RetryProps.

(* ======================================================================= *)
(** * Circuit breaker: transitions                                          *)
(* ======================================================================= *)

Module BreakerProps.
Import Js Breaker Scenario JsFacts.

Arguments openMessage : simpl never.
Arguments ceil_div : simpl never.

(** Unfolds the monadic plumbing of a method applied to a state. *)
Ltac run :=
  unfold execute, beforeCall, afterCall, onSuccess, onFailure, transitionTo,
    shouldTransitionToHalfOpen, getSecondsUntilHalfOpen,
    bind, ret, throw, try, this, assign, date_now, invoke,
    set_state, set_failureCount, set_successCount, set_lastFailureTime,
    set_lastStateChange, set_halfOpenAttempts;
  cbn [fst snd state failureCount successCount lastFailureTime lastStateChange
       halfOpenAttempts failureThreshold resetTimeoutMs halfOpenMaxAttempts
       CircuitState_eqb negb clk tick calls trace].

(** While CLOSED every call is let through, untouched. *)
Lemma beforeCall_closed (env : Env) (b : CircuitBreaker) :
  state b = CLOSED -> beforeCall (env, b) = (Ok tt, (env, b)).
Proof.
  intros Hs. destruct b; cbn in Hs; subst. run. reflexivity.
Qed.

(** While OPEN and before the timeout, the call is refused: two clock
    readings, no invocation, no change to the breaker. *)
Lemma beforeCall_open_wait (env : Env) (b : CircuitBreaker) (last : Z) :
  state b = OPEN ->
  lastFailureTime b = Some last ->
  clk env (tick env) - last < resetTimeoutMs b ->
  clk env (S (tick env)) - last < resetTimeoutMs b ->
  beforeCall (env, b) =
    (Throw (CircuitBreakerError
              (openMessage (retryHint b last (clk env (S (tick env)))))
              (retryHint b last (clk env (S (tick env))))),
     (ticked 2 env, b)).
Proof.
  intros Hs Hl H1 H2. unfold retryHint.
  destruct b; cbn in Hs, Hl, H1, H2 |- *; subst. run.
  assert ((resetTimeoutMs0 <=? clk env (tick env) - last) = false) as ->
    by (apply Z.leb_gt; lia).
  run.
  assert ((0 <? resetTimeoutMs0 - (clk env (S (tick env)) - last)) = true) as ->
    by (apply Z.ltb_lt; lia).
  reflexivity.
Qed.

Lemma execute_open_wait {T} (fn : Callback T) (env : Env) (b : CircuitBreaker) (last : Z) :
  state b = OPEN ->
  lastFailureTime b = Some last ->
  clk env (tick env) - last < resetTimeoutMs b ->
  clk env (S (tick env)) - last < resetTimeoutMs b ->
  execute fn (env, b) =
    (Throw (CircuitBreakerError
              (openMessage (retryHint b last (clk env (S (tick env)))))
              (retryHint b last (clk env (S (tick env))))),
     (ticked 2 env, b)).
Proof.
  intros Hs Hl H1 H2. unfold execute. unfold bind at 1.
  rewrite (beforeCall_open_wait env b last Hs Hl H1 H2). reflexivity.
Qed.


(** While HALF_OPEN with the quota used up, the call is refused with the
    fixed hint; nothing is read, invoked or changed. *)
Lemma beforeCall_half_open_full (env : Env) (b : CircuitBreaker) :
  state b = HALF_OPEN ->
  halfOpenMaxAttempts b <= halfOpenAttempts b ->
  beforeCall (env, b) = (Throw (CircuitBreakerError halfOpenMessage 5), (env, b)).
Proof.
  intros Hs Hq. destruct b; cbn in Hs, Hq; subst. run.
  assert ((halfOpenMaxAttempts0 <=? halfOpenAttempts0) = true) as ->
    by (apply Z.leb_le; lia).
  reflexivity.
Qed.

(** A failure while CLOSED, below the threshold. *)
Lemma afterCall_closed_failure_below {T} (error : Thrown) (env : Env) (b : CircuitBreaker) :
  state b = CLOSED ->
  failureCount b + 1 < failureThreshold b ->
  afterCall (T:=T) (Throw error) (env, b) =
    (Throw error,
     (ticked 1 env,
      set_lastFailureTime (Some (clk env (tick env)))
        (set_failureCount (failureCount b + 1) b))).
Proof.
  intros Hs Hlt. destruct b; cbn in Hs, Hlt; subst. run.
  assert ((failureThreshold0 <=? failureCount0 + 1) = false) as ->
    by (apply Z.leb_gt; lia).
  reflexivity.
Qed.

(** A failure while CLOSED that reaches the threshold opens the circuit. *)
Lemma afterCall_closed_failure_trips {T} (error : Thrown) (env : Env) (b : CircuitBreaker) :
  state b = CLOSED ->
  failureThreshold b <= failureCount b + 1 ->
  afterCall (T:=T) (Throw error) (env, b) =
    (Throw error,
     (ticked 2 env,
      set_lastStateChange (Some (clk env (S (tick env))))
        (set_state OPEN
           (set_lastFailureTime (Some (clk env (tick env)))
              (set_failureCount (failureCount b + 1) b))))).
Proof.
  intros Hs Hle. destruct b; cbn in Hs, Hle; subst. run.
  assert ((failureThreshold0 <=? failureCount0 + 1) = true) as ->
    by (apply Z.leb_le; lia).
  reflexivity.
Qed.



(** [execute] is the admission, one invocation, and the settlement. *)
Lemma execute_admitted {T} (fn : Callback T) (env env' : Env) (b b' : CircuitBreaker) :
  beforeCall (env, b) = (Ok tt, (env', b')) ->
  execute fn (env, b) = afterCall (fn (calls env')) (called env', b').
Proof.
  intros H. unfold execute. unfold bind at 1. rewrite H.
  unfold bind, try, invoke. cbn [fst snd]. reflexivity.
Qed.


Lemma executeMany_S {T} (n : nat) (fn : Callback T) (env : Env) (b : CircuitBreaker) :
  executeMany (S n) fn (env, b) = executeMany n fn (snd (execute fn (env, b))).
Proof.
  cbn [executeMany]. unfold bind, try. destruct (execute fn (env, b)) as [r w]. reflexivity.
Qed.

Lemma execute_closed_failure {T} (fn : Callback T) (error : Thrown) (env : Env) (b : CircuitBreaker) :
  state b = CLOSED ->
  fn (calls env) = Throw error ->
  execute fn (env, b) = afterCall (Throw error) (called env, b).
Proof.
  intros Hs Hfn. rewrite (execute_admitted fn env env b b (beforeCall_closed env b Hs)).
  rewrite Hfn. reflexivity.
Qed.

(** Failures that stay below the threshold leave the circuit CLOSED. *)
Lemma failures_below_threshold {T} (fn : Callback T) (n : nat) :
  forall (env : Env) (b : CircuitBreaker),
    state b = CLOSED ->
    failureCount b + Z.of_nat n < failureThreshold b ->
    (forall i, (i < n)%nat -> exists e, fn (calls env + i)%nat = Throw e) ->
    exists env' b',
      executeMany n fn (env, b) = (Ok tt, (env', b')) /\
      state b' = CLOSED /\
      failureCount b' = failureCount b + Z.of_nat n /\
      sameConfig b b' /\
      calls env' = (calls env + n)%nat /\
      invocations (trace env') = (invocations (trace env) + n)%nat.
Proof.
  induction n as [|n IH]; intros env b Hs Hlt Hfn.
  - exists env, b. cbn [executeMany]. unfold ret, sameConfig.
    rewrite Z.add_0_r, !Nat.add_0_r. repeat split; auto.
  - destruct (Hfn 0%nat ltac:(lia)) as [e He]. rewrite Nat.add_0_r in He.
    rewrite executeMany_S, (execute_closed_failure fn e env b Hs He).
    rewrite afterCall_closed_failure_below by (auto; lia). cbn [snd].
    edestruct (IH (ticked 1 (called env))
                 (set_lastFailureTime (Some (clk (called env) (tick (called env))))
                    (set_failureCount (failureCount b + 1) b)))
      as [env' [b' [Hrun [Hs' [Hfc [Hcfg [Hcalls Hinv]]]]]]].
    + exact Hs.
    + cbn. lia.
    + intros i Hi. destruct (Hfn (S i) ltac:(lia)) as [e' He']. exists e'.
      cbn [ticked called calls]. rewrite <- He'. f_equal. lia.
    + exists env', b'. split; [exact Hrun|]. 
      unfold sameConfig in *. cbn in *.
      rewrite Hinv, invocations_app. cbn [invocations].
      repeat split; try tauto; try lia.
Qed.

(** The failure that brings the count to the threshold opens the circuit. *)
Lemma failure_reaches_threshold {T} (fn : Callback T) (error : Thrown)
      (env : Env) (b : CircuitBreaker) :
  state b = CLOSED ->
  failureCount b + 1 = failureThreshold b ->
  fn (calls env) = Throw error ->
  exists env' b',
    execute fn (env, b) = (Throw error, (env', b')) /\
    state b' = OPEN /\
    lastFailureTime b' = Some (clk env (tick env)) /\
    sameConfig b b' /\
    calls env' = S (calls env) /\
    invocations (trace env') = S (invocations (trace env)).
Proof.
  intros Hs Hfc Hfn.
  rewrite (execute_closed_failure fn error env b Hs Hfn).
  rewrite afterCall_closed_failure_trips by (auto; lia).
  eexists; eexists. split; [reflexivity|].
  unfold sameConfig. cbn. rewrite invocations_app. cbn [invocations].
  repeat split; auto; lia.
Qed.

Lemma executeMany_app {T} (fn : Callback T) (n m : nat) :
  forall w, executeMany (n + m) fn w = executeMany m fn (snd (executeMany n fn w)).
Proof.
  induction n as [|n IH]; intros [env b].
  - reflexivity.
  - cbn [Nat.add]. rewrite !executeMany_S. apply IH.
Qed.

(** C1. From a CLOSED breaker with no failure counted (a new one, or one that
    has just seen a success) and a threshold of at least one: fewer than
    [failureThreshold] consecutive failed calls leave it CLOSED, exactly
    [failureThreshold] of them leave it OPEN with [fn] invoked once per call;
    from then on every [execute] whose clock readings lie before
    [lastFailureTime + resetTimeoutMs] throws a [CircuitBreakerError] carrying
    [ceil(remaining / 1000)] seconds, invokes nothing and leaves the breaker
    as it was. *)
Theorem open_after_threshold_failures_then_fail_fast :
  forall (T : Type) (fn : Callback T) (env : Env) (b : CircuitBreaker),
    state b = CLOSED ->
    failureCount b = 0 ->
    1 <= failureThreshold b ->
    (forall i, (i < Z.to_nat (failureThreshold b))%nat ->
               exists e, fn (calls env + i)%nat = Throw e) ->
    (forall k, (k < Z.to_nat (failureThreshold b))%nat ->
               state (snd (snd (executeMany k fn (env, b)))) = CLOSED) /\
    exists env1 b1 last,
      executeMany (Z.to_nat (failureThreshold b)) fn (env, b) = (Ok tt, (env1, b1)) /\
      state b1 = OPEN /\
      lastFailureTime b1 = Some last /\
      invocations (trace env1) =
        (invocations (trace env) + Z.to_nat (failureThreshold b))%nat /\
      forall (U : Type) (fn' : Callback U) (env' : Env),
        clk env' (tick env') - last < resetTimeoutMs b ->
        clk env' (S (tick env')) - last < resetTimeoutMs b ->
        let remaining := resetTimeoutMs b - (clk env' (S (tick env')) - last) in
        execute fn' (env', b1) =
          (Throw (CircuitBreakerError (openMessage (ceil_div remaining 1000))
                                      (ceil_div remaining 1000)),
           (mkEnv (clk env') (S (S (tick env'))) (calls env') (trace env'), b1)) /\
        1000 * (ceil_div remaining 1000 - 1) < remaining <= 1000 * ceil_div remaining 1000.
Proof.
  intros T fn env b Hs Hfc Hft Hfn. split.
  - intros k Hk.
    destruct (failures_below_threshold fn k env b Hs) as [env' [b' [Hrun [Hs' _]]]].
    + lia.
    + intros i Hi. apply Hfn. lia.
    + rewrite Hrun. exact Hs'.
  - destruct (Z.to_nat (failureThreshold b)) as [|m] eqn:Em; [lia|].
    destruct (failures_below_threshold fn m env b Hs) as
      [env0 [b0 [Hrun [Hs0 [Hfc0 [[Hc1 [Hc2 Hc3]] [Hcalls Hinv]]]]]]].
    + lia.
    + intros i Hi. apply Hfn. lia.
    + destruct (Hfn m ltac:(lia)) as [e He]. rewrite <- Hcalls in He.
      destruct (failure_reaches_threshold fn e env0 b0 Hs0) as
        [env1 [b1 [Hrun1 [Hs1 [Hl1 [[Hd1 [Hd2 Hd3]] [Hcalls1 Hinv1]]]]]]].
      * lia.
      * exact He.
      * exists env1, b1, (clk env0 (tick env0)).
        split; [|split; [exact Hs1|split; [exact Hl1|split]]].
        -- replace (S m) with (m + 1)%nat by lia.
           rewrite executeMany_app, Hrun. cbn [snd].
           rewrite executeMany_S, Hrun1. reflexivity.
        -- rewrite Hinv1, Hinv. lia.
        -- intros U fn' env' H1 H2 remaining. split.
           ++ rewrite <- Hc2, <- Hd2 in H1, H2.
              rewrite (execute_open_wait fn' env' b1 _ Hs1 Hl1 H1 H2).
              unfold retryHint, remaining. rewrite Hd2, Hc2. reflexivity.
           ++ apply ceil_div_spec. lia.
Qed.


Lemma open_after_threshold_failures_then_fail_fast_witness :
  (forall k, (k < Z.to_nat (failureThreshold twoStrikes))%nat ->
             state (snd (snd (executeMany k upstreamDown
                                (strikesEnv, twoStrikes)))) = CLOSED) /\
  exists env1 b1 last,
    executeMany (Z.to_nat (failureThreshold twoStrikes)) upstreamDown
      (strikesEnv, twoStrikes) = (Ok tt, (env1, b1)) /\
    state b1 = OPEN /\
    lastFailureTime b1 = Some last /\
    invocations (trace env1) =
      (invocations (trace strikesEnv) +
       Z.to_nat (failureThreshold twoStrikes))%nat /\
    forall (U : Type) (fn' : Callback U) (env' : Env),
      clk env' (tick env') - last < resetTimeoutMs twoStrikes ->
      clk env' (S (tick env')) - last < resetTimeoutMs twoStrikes ->
      let remaining := resetTimeoutMs twoStrikes - (clk env' (S (tick env')) - last) in
      execute fn' (env', b1) =
        (Throw (CircuitBreakerError (openMessage (ceil_div remaining 1000))
                                    (ceil_div remaining 1000)),
         (mkEnv (clk env') (S (S (tick env'))) (calls env') (trace env'), b1)) /\
      1000 * (ceil_div remaining 1000 - 1) < remaining <= 1000 * ceil_div remaining 1000.
Proof.
  apply (open_after_threshold_failures_then_fail_fast Z upstreamDown
           strikesEnv twoStrikes).
  - reflexivity.
  - reflexivity.
  - simpl. lia.
  - intros i _. exists (JsError "connect ECONNREFUSED"). reflexivity.
Defined.

(** That run, evaluated: two invocations, OPEN since the second failure at
    time 2000, and a call at time 30000 is told to wait 32 s. *)
Example two_strikes_run :
  executeMany 2 upstreamDown (envAt [1000; 2000; 2001], twoStrikes) =
    (Ok tt,
     (mkEnv (clockOf [1000; 2000; 2001]) 3 2 [EvCall; EvCall],
      mkBreaker OPEN 2 0 (Some 2000) (Some 2001) 0 2 60000 1)) /\
  execute (alwaysReturns 7)
    (envAt [30000], mkBreaker OPEN 2 0 (Some 2000) (Some 2001) 0 2 60000 1) =
    (Throw (CircuitBreakerError
              "Odoo service temporarily unavailable. Connection will be retried in 32 seconds."
              32),
     (mkEnv (clockOf [30000]) 2 0 [],
      mkBreaker OPEN 2 0 (Some 2000) (Some 2001) 0 2 60000 1)).
Proof. split; reflexivity. Qed.



(** That trial, evaluated: one invocation, and the breaker is OPEN again with
    the window restarted at 61200. *)
Example failed_trial_run :
  execute upstreamDown (envAt [61000; 61001; 61200; 61201], tripped) =
    (Throw (JsError "connect ECONNREFUSED"),
     (mkEnv (clockOf [61000; 61001; 61200; 61201]) 4 1 [EvCall],
      mkBreaker OPEN 6 0 (Some 61200) (Some 61201) 0 5 60000 1)).
Proof. reflexivity. Qed.

(** A successful trial, evaluated. *)
Example successful_trial_run :
  execute (alwaysReturns 7) (envAt [61000; 61001; 61200], tripped) =
    (Ok 7,
     (mkEnv (clockOf [61000; 61001; 61200]) 3 1 [EvCall],
      mkBreaker CLOSED 0 1 (Some 1000) (Some 61200) 0 5 60000 1)).
Proof. reflexivity. Qed.

End BreakerProps.

(* ======================================================================= *)
(** * The LRU store                                                         *)
(* ======================================================================= *)

Module LruFacts.
Section LruFacts.
Context {V : Type}.
Implicit Types (l : Lru.t V) (key k : string).

Lemma lookup_remove_same key l : Lru.lookup key (Lru.remove key l) = None.
Proof.
  induction l as [|[k v] l IH]; cbn [Lru.remove Lru.lookup]; [reflexivity|].
  destruct (String.eqb k key) eqn:E; [exact IH|].
  cbn [Lru.lookup]. rewrite E. exact IH.
Qed.

Lemma lookup_remove_other key k l :
  k <> key -> Lru.lookup k (Lru.remove key l) = Lru.lookup k l.
Proof.
  intros Hne. induction l as [|[k' v] l IH]; cbn [Lru.remove Lru.lookup]; [reflexivity|].
  destruct (String.eqb k' key) eqn:E.
  - apply String.eqb_eq in E. subst k'.
    destruct (String.eqb key k) eqn:E'; [apply String.eqb_eq in E'; congruence | exact IH].
  - cbn [Lru.lookup]. rewrite IH. reflexivity.
Qed.

Lemma keys_remove key k l :
  In k (Lru.keys (Lru.remove key l)) -> In k (Lru.keys l) /\ k <> key.
Proof.
  unfold Lru.keys. induction l as [|[k' v] l IH]; cbn [Lru.remove map]; [intros []|].
  destruct (String.eqb k' key) eqn:E.
  - intros H. destruct (IH H) as [Hin Hne]. split; [right; exact Hin | exact Hne].
  - cbn [map fst In]. intros [<- | H].
    + split; [left; reflexivity|]. apply String.eqb_neq in E. exact E.
    + destruct (IH H) as [Hin Hne]. split; [right; exact Hin | exact Hne].
Qed.

Lemma keys_firstn (n : nat) k l :
  In k (Lru.keys (firstn n l)) -> In k (Lru.keys l).
Proof.
  unfold Lru.keys. revert n. induction l as [|[k' v] l IH]; intros [|n]; cbn; auto.
  - intros [].
  - intros [<- | H]; [left; reflexivity | right; exact (IH n H)].
Qed.

Lemma lookup_None_keys key l : Lru.lookup key l = None <-> ~ In key (Lru.keys l).
Proof.
  unfold Lru.keys. induction l as [|[k v] l IH]; cbn [Lru.lookup map fst In].
  - split; [intros _ [] | reflexivity].
  - destruct (String.eqb k key) eqn:E.
    + apply String.eqb_eq in E. split; [discriminate | intros H; exfalso; apply H; left; exact E].
    + apply String.eqb_neq in E. rewrite IH. tauto.
Qed.

(** [set] makes its entry the most recent one and the only one for its key. *)
Lemma set_head (max : nat) key (v : V) l :
  (0 < max)%nat ->
  exists rest, Lru.set max key v l = (key, v) :: rest /\ Lru.lookup key rest = None.
Proof.
  intros Hmax. destruct max as [|m]; [lia|].
  unfold Lru.set. cbn [firstn]. eexists. split; [reflexivity|].
  apply lookup_None_keys. intros H. apply keys_firstn, keys_remove in H. tauto.
Qed.

Lemma lookup_set_same (max : nat) key (v : V) l :
  (0 < max)%nat -> Lru.lookup key (Lru.set max key v l) = Some v.
Proof.
  intros Hmax. destruct (set_head max key v l Hmax) as [rest [-> _]].
  cbn [Lru.lookup]. rewrite String.eqb_refl. reflexivity.
Qed.
End LruFacts.
End LruFacts.

(* ======================================================================= *)
(** * In-memory cache: the methods, case by case                            *)
(* ======================================================================= *)

Module MemoryProps.
Import Js Cache MemoryCache Scenario JsFacts LruFacts.

(** Unfolds the monadic plumbing of a method applied to a state. *)
Ltac run :=
  unfold getWithRefresh80, getWithRefresh, fetchFresh, get, set, has, delete, stats,
    clearExpired,
    startRefresh, cache_get, cache_delete, hit, miss,
    bind, ret, throw, try, this, assign, date_now, invoke,
    Lru.get, Lru.delete;
  cbn [fst snd cache hits misses refreshingKeys pending clk tick calls trace
       set_cache set_hits set_misses set_refreshingKeys set_pending].

(** [get] on a key the store does not hold. *)
Lemma get_missing {T} (key : string) (env : Env) (c : MemoryCache T) :
  Lru.lookup key (cache c) = None ->
  get key (env, c) = (Ok None, (env, set_misses (misses c + 1) c)).
Proof.
  intros H. destruct c as [l h m rk pd]. cbn in H. run. rewrite H. reflexivity.
Qed.

(** [get] on an entry whose [expiresAt] the clock has passed. *)
Lemma get_expired {T} (key : string) (env : Env) (c : MemoryCache T) (entry : CacheEntry T) :
  Lru.lookup key (cache c) = Some entry ->
  expiresAt entry < clk env (tick env) ->
  get key (env, c) =
    (Ok None,
     (ticked 1 env,
      set_misses (misses c + 1) (set_cache (Lru.remove key (Lru.remove key (cache c))) c))).
Proof.
  intros H Hexp. destruct c as [l h m rk pd]. cbn in H. run. rewrite H. run.
  apply Z.ltb_lt in Hexp. rewrite Hexp. run. cbn [Lru.lookup Lru.remove].
  rewrite String.eqb_refl. reflexivity.
Qed.

(** [get] on an entry that has not expired, [now <= expiresAt]. *)
Lemma get_valid {T} (key : string) (env : Env) (c : MemoryCache T) (entry : CacheEntry T) :
  Lru.lookup key (cache c) = Some entry ->
  clk env (tick env) <= expiresAt entry ->
  get key (env, c) =
    (Ok (Some (data entry)),
     (ticked 1 env,
      set_hits (hits c + 1) (set_cache ((key, entry) :: Lru.remove key (cache c)) c))).
Proof.
  intros H Hval. destruct c as [l h m rk pd]. cbn in H. run. rewrite H. run.
  assert ((expiresAt entry <? clk env (tick env)) = false) as -> by (apply Z.ltb_ge; lia).
  reflexivity.
Qed.

Lemma has_missing {T} (key : string) (env : Env) (c : MemoryCache T) :
  Lru.lookup key (cache c) = None ->
  has key (env, c) = (Ok false, (env, c)).
Proof.
  intros H. destruct c as [l h m rk pd]. cbn in H. run. rewrite H. reflexivity.
Qed.

Lemma has_expired {T} (key : string) (env : Env) (c : MemoryCache T) (entry : CacheEntry T) :
  Lru.lookup key (cache c) = Some entry ->
  expiresAt entry < clk env (tick env) ->
  has key (env, c) =
    (Ok false,
     (ticked 1 env, set_cache (Lru.remove key (Lru.remove key (cache c))) c)).
Proof.
  intros H Hexp. destruct c as [l h m rk pd]. cbn in H. run. rewrite H. run.
  apply Z.ltb_lt in Hexp. rewrite Hexp. run. cbn [Lru.lookup Lru.remove].
  rewrite String.eqb_refl. reflexivity.
Qed.

Lemma has_valid {T} (key : string) (env : Env) (c : MemoryCache T) (entry : CacheEntry T) :
  Lru.lookup key (cache c) = Some entry ->
  clk env (tick env) <= expiresAt entry ->
  has key (env, c) =
    (Ok true, (ticked 1 env, set_cache ((key, entry) :: Lru.remove key (cache c)) c)).
Proof.
  intros H Hval. destruct c as [l h m rk pd]. cbn in H. run. rewrite H. run.
  assert ((expiresAt entry <? clk env (tick env)) = false) as -> by (apply Z.ltb_ge; lia).
  reflexivity.
Qed.

(** [set] reads the clock once and puts its entry in front. *)
Lemma set_eq {T} (key : string) (data : T) (ttlMs : Z) (env : Env) (c : MemoryCache T) :
  set key data ttlMs (env, c) =
    (Ok tt,
     (ticked 1 env,
      set_cache (Lru.set MAX_SIZE key
                   (mkEntry data (clk env (tick env)) (clk env (tick env) + ttlMs))
                   (cache c)) c)).
Proof. reflexivity. Qed.

(** The housekeeping loop only removes keys. *)
Lemma clearExpiredLoop_keys {T} (now : Z) (todo : list (string * CacheEntry T)) :
  forall (cleared : Z) (env : Env) (c : MemoryCache T),
    exists n c',
      clearExpiredLoop now todo cleared (env, c) = (Ok n, (env, c')) /\
      hits c' = hits c /\ misses c' = misses c /\
      forall k, In k (Lru.keys (cache c')) -> In k (Lru.keys (cache c)).
Proof.
  induction todo as [|[key entry] todo IH]; intros cleared env c.
  - exists cleared, c. cbn [clearExpiredLoop]. unfold ret. auto.
  - cbn [clearExpiredLoop]. destruct (expiresAt entry <? now).
    + unfold bind at 1. run.
      destruct (IH (cleared + 1) env (set_cache (Lru.remove key (cache c)) c))
        as [n [c' [Hrun [Hh [Hm Hk]]]]].
      exists n, c'. split; [exact Hrun|]. split; [exact Hh|]. split; [exact Hm|].
      intros k Hin. apply Hk in Hin. cbn in Hin. apply keys_remove in Hin. tauto.
    + apply IH.
Qed.

(** [stats()] reports no key the store did not hold before. *)
Lemma stats_keys {T} (env : Env) (c : MemoryCache T) :
  exists st c',
    stats (env, c) = (Ok st, (ticked 1 env, c')) /\
    hits c' = hits c /\ misses c' = misses c /\
    forall k, In k (keys st) -> In k (Lru.keys (cache c)).
Proof.
  destruct (clearExpiredLoop_keys (clk env (tick env)) (Lru.entries (cache c)) 0
              (ticked 1 env) c) as [n [c' [Hrun [Hh [Hm Hk]]]]].
  exists (mkStats (Lru.size (cache c')) (Lru.keys (cache c'))), c'.
  split; [|auto].
  unfold stats, clearExpired. unfold bind, date_now, this. cbn [fst snd].
  unfold ticked in Hrun. cbn [Nat.add] in Hrun. rewrite Hrun. reflexivity.
Qed.

(** The fetch that ends a miss: one miss counted, one invocation, and the
    result stored when there is one. *)
Lemma fetchFresh_eq {T} (key : string) (fn : Callback T) (ttlMs : Z)
      (env : Env) (c : MemoryCache T) :
  fetchFresh key fn ttlMs (env, c) =
    match fn (calls env) with
    | Ok v =>
        (Ok v,
         (ticked 1 (called env),
          set_cache (Lru.set MAX_SIZE key
                       (mkEntry v (clk env (tick env)) (clk env (tick env) + ttlMs))
                       (cache c))
            (set_misses (misses c + 1) c)))
    | Throw e => (Throw e, (called env, set_misses (misses c + 1) c))
    end.
Proof.
  run. destruct (fn (calls env)); reflexivity.
Qed.

Lemma getWithRefresh_missing {T} (key : string) (fn : Callback T) (ttlMs pct : Z)
      (env : Env) (c : MemoryCache T) :
  Lru.lookup key (cache c) = None ->
  getWithRefresh key fn ttlMs pct (env, c) = fetchFresh key fn ttlMs (ticked 1 env, c).
Proof.
  intros H. destruct c as [l h m rk pd]. cbn in H.
  unfold getWithRefresh, cache_get, Lru.get, bind, this, assign, date_now, ret.
  cbn [fst snd cache]. rewrite H. reflexivity.
Qed.

Lemma getWithRefresh_fresh {T} (key : string) (fn : Callback T) (ttlMs pct : Z)
      (env : Env) (c : MemoryCache T) (entry : CacheEntry T) :
  Lru.lookup key (cache c) = Some entry ->
  Qltb (inject_Z (clk env (tick env))) (refreshThreshold entry ttlMs pct) = true ->
  getWithRefresh key fn ttlMs pct (env, c) =
    (Ok (data entry),
     (ticked 1 env,
      set_hits (hits c + 1) (set_cache ((key, entry) :: Lru.remove key (cache c)) c))).
Proof.
  intros H Hfresh. destruct c as [l h m rk pd]. cbn in H.
  unfold getWithRefresh, cache_get, Lru.get, bind, this, assign, date_now, ret, hit.
  cbn [fst snd cache]. rewrite H. cbn [fst snd clk tick]. rewrite Hfresh. reflexivity.
Qed.

Lemma getWithRefresh_expired {T} (key : string) (fn : Callback T) (ttlMs pct : Z)
      (env : Env) (c : MemoryCache T) (entry : CacheEntry T) :
  Lru.lookup key (cache c) = Some entry ->
  Qltb (inject_Z (clk env (tick env))) (refreshThreshold entry ttlMs pct) = false ->
  expiresAt entry <= clk env (tick env) ->
  getWithRefresh key fn ttlMs pct (env, c) =
    fetchFresh key fn ttlMs
      (ticked 1 env, set_cache (Lru.remove key (Lru.remove key (cache c))) c).
Proof.
  intros H Hfresh Hexp. destruct c as [l h m rk pd]. cbn in H.
  unfold getWithRefresh, cache_get, cache_delete, Lru.get, Lru.delete,
    bind, this, assign, date_now, ret.
  cbn [fst snd cache]. rewrite H. cbn [fst snd clk tick]. rewrite Hfresh.
  assert ((clk env (tick env) <? expiresAt entry) = false) as -> by (apply Z.ltb_ge; lia).
  cbn [fst snd cache set_cache Lru.remove Lru.lookup]. rewrite String.eqb_refl.
  reflexivity.
Qed.
End MemoryProps.

(* ======================================================================= *)
(** * Redis cache: the methods, case by case                                *)
(* ======================================================================= *)

Module RedisProps.
Import Js Cache RedisCache Scenario JsFacts.

(** Unfolds the monadic plumbing of a method applied to a state. *)
Ltac run :=
  unfold getWithRefresh80, getWithRefresh, lookupOrFetch, fetchFresh, get, set, has, delete,
    startRefresh, client_get, client_set, client_exists, client_del, connected, live,
    hit, miss, bind, ret, throw, try, this, assign, date_now, invoke;
  cbn [fst snd client reachable db hits misses refreshingKeys pending clk tick calls trace
       set_db set_hits set_misses set_refreshingKeys set_pending].

Lemma has_unreachable {T} (key : string) (env : Env) (c : RedisCache T) :
  reachable (client c) = false ->
  has key (env, c) = (Ok false, (env, c)).
Proof.
  intros Hup. destruct c as [[up d] h m rk pd]. cbn in Hup. subst up.
  run. reflexivity.
Qed.

Lemma has_live {T} (key : string) (env : Env) (c : RedisCache T) (entry : CacheEntry T) :
  reachable (client c) = true ->
  liveAt c key (clk env (tick env)) entry ->
  has key (env, c) = (Ok true, (ticked 1 env, c)).
Proof.
  intros Hup [deadline [Hdb Hlive]]. destruct c as [[up d] h m rk pd]. cbn in Hup, Hdb. subst up.
  run. rewrite Hdb.
  assert ((deadline <? clk env (tick env)) = false) as -> by (apply Z.ltb_ge; lia).
  reflexivity.
Qed.

Lemma has_dead {T} (key : string) (env : Env) (c : RedisCache T) :
  reachable (client c) = true ->
  deadAt c key (clk env (tick env)) ->
  has key (env, c) = (Ok false, (ticked 1 env, purge key c)).
Proof.
  intros Hup Hdead. unfold deadAt, purge in *.
  destruct c as [[up d] h m rk pd]. cbn in Hup, Hdead |- *. subst up.
  run. destruct (d !! prefixKey key) as [[raw deadline]|].
  - apply Z.ltb_lt in Hdead. rewrite Hdead. reflexivity.
  - reflexivity.
Qed.

(** Either the key is live with some entry, or it is dead. *)
Lemma live_or_dead {T} (c : RedisCache T) (key : string) (now : Z) :
  (exists entry, liveAt c key now entry) \/ deadAt c key now.
Proof.
  unfold liveAt, deadAt. destruct (db (client c) !! prefixKey key) as [[raw deadline]|].
  - destruct (Z_lt_le_dec deadline now).
    + right. assumption.
    + left. exists raw, deadline. auto.
  - right. exact I.
Qed.

Lemma live_not_dead {T} (c : RedisCache T) (key : string) (now : Z) (entry : CacheEntry T) :
  liveAt c key now entry -> ~ deadAt c key now.
Proof.
  unfold liveAt, deadAt. intros [deadline [-> Hle]]. lia.
Qed.

(** [set] when the server takes the write. *)
Lemma set_accepted {T} (key : string) (data : T) (ttlMs : Z) (env : Env) (c : RedisCache T) :
  reachable (client c) = true ->
  0 < ttlMs ->
  set key data ttlMs (env, c) =
    (Ok tt,
     (ticked 2 env,
      set_db (<[prefixKey key :=
                  (mkEntry data (clk env (tick env)) (clk env (tick env) + ttlMs),
                   clk env (S (tick env)) + ttlMs)]> (db (client c))) c)).
Proof.
  intros Hup Httl. destruct c as [[up d] h m rk pd]. cbn in Hup. subst up.
  run. assert ((ttlMs <=? 0) = false) as -> by (apply Z.leb_gt; lia).
  reflexivity.
Qed.

(** [set] when the server refuses the write: nothing thrown, nothing stored. *)
Lemma set_refused {T} (key : string) (data : T) (ttlMs : Z) (env : Env) (c : RedisCache T) :
  reachable (client c) = false \/ ttlMs <= 0 ->
  set key data ttlMs (env, c) = (Ok tt, (ticked 1 env, c)).
Proof.
  intros H. destruct c as [[up d] h m rk pd]. cbn in H.
  run. destruct up.
  - destruct H as [H|H]; [discriminate|].
    assert ((ttlMs <=? 0) = true) as -> by (apply Z.leb_le; lia). reflexivity.
  - reflexivity.
Qed.

Lemma get_live_valid {T} (key : string) (env : Env) (c : RedisCache T) (entry : CacheEntry T) :
  reachable (client c) = true ->
  liveAt c key (clk env (tick env)) entry ->
  clk env (S (tick env)) <= expiresAt entry ->
  get key (env, c) = (Ok (Some (data entry)), (ticked 2 env, set_hits (hits c + 1) c)).
Proof.
  intros Hup [deadline [Hdb Hlive]] Hval.
  destruct c as [[up d] h m rk pd]. cbn in Hup, Hdb. subst up.
  run. rewrite Hdb.
  assert ((deadline <? clk env (tick env)) = false) as -> by (apply Z.ltb_ge; lia).
  run.
  assert ((expiresAt entry <? clk env (S (tick env))) = false) as -> by (apply Z.ltb_ge; lia).
  reflexivity.
Qed.

(** The backup check of [get]: live at the server, expired by [expiresAt]. *)
Lemma get_live_expired {T} (key : string) (env : Env) (c : RedisCache T) (entry : CacheEntry T) :
  reachable (client c) = true ->
  liveAt c key (clk env (tick env)) entry ->
  expiresAt entry < clk env (S (tick env)) ->
  exists c',
    get key (env, c) = (Ok None, (ticked 3 env, c')) /\
    hits c' = hits c /\ misses c' = misses c + 1.
Proof.
  intros Hup [deadline [Hdb Hlive]] Hexp.
  destruct c as [[up d] h m rk pd]. cbn in Hup, Hdb. subst up.
  run. rewrite Hdb.
  assert ((deadline <? clk env (tick env)) = false) as -> by (apply Z.ltb_ge; lia).
  run. apply Z.ltb_lt in Hexp. rewrite Hexp. run. rewrite Hdb.
  destruct (deadline <? clk env (S (S (tick env)))); run; eexists; split; reflexivity || auto.
Qed.

(** [set] never throws. *)
Lemma set_total {T} (key : string) (data : T) (ttlMs : Z) (env : Env) (c : RedisCache T) :
  exists env' c',
    set key data ttlMs (env, c) = (Ok tt, (env', c')) /\
    hits c' = hits c /\ misses c' = misses c /\
    calls env' = calls env /\ trace env' = trace env.
Proof.
  destruct (reachable (client c)) eqn:Hup; [destruct (Z_lt_le_dec 0 ttlMs)|].
  - rewrite set_accepted by assumption. eexists; eexists. split; [reflexivity|]. cbn. auto.
  - rewrite set_refused by auto. eexists; eexists. split; [reflexivity|]. cbn. auto.
  - rewrite set_refused by auto. eexists; eexists. split; [reflexivity|]. cbn. auto.
Qed.

(** The fetch that ends a miss: one miss counted, one invocation, and the
    result handed to [set] when there is one. *)
Lemma redis_fetchFresh_eq {T} (key : string) (fn : Callback T) (ttlMs : Z)
      (env : Env) (c : RedisCache T) :
  fetchFresh key fn ttlMs (env, c) =
    match fn (calls env) with
    | Ok v => (Ok v, snd (set key v ttlMs (called env, set_misses (misses c + 1) c)))
    | Throw e => (Throw e, (called env, set_misses (misses c + 1) c))
    end.
Proof.
  unfold fetchFresh, miss, invoke, assign, ret.
  unfold bind at 1. cbn [fst snd]. unfold bind at 1. cbn [fst snd].
  destruct (fn (calls env)) as [v|e]; [|reflexivity].
  unfold bind.
  destruct (set_total key v ttlMs (called env) (set_misses (misses c + 1) c))
    as [env' [c' [Hset _]]].
  unfold called in Hset |- *. rewrite Hset. reflexivity.
Qed.

Lemma getWithRefresh_eq {T} (key : string) (fn : Callback T) (ttlMs pct : Z)
      (env : Env) (c : RedisCache T) :
  getWithRefresh key fn ttlMs pct (env, c) =
    match lookupOrFetch key fn ttlMs pct (env, c) with
    | (Ok v, w) => (Ok v, w)
    | (Throw _, w) => fetchFresh key fn ttlMs w
    end.
Proof.
  unfold getWithRefresh, bind, try, ret.
  destruct (lookupOrFetch key fn ttlMs pct (env, c)) as [[v|e] w]; reflexivity.
Qed.

Lemma lookupOrFetch_fresh {T} (key : string) (fn : Callback T) (ttlMs pct : Z)
      (env : Env) (c : RedisCache T) (entry : CacheEntry T) :
  reachable (client c) = true ->
  liveAt c key (clk env (tick env)) entry ->
  Qltb (inject_Z (clk env (S (tick env)))) (refreshThreshold entry ttlMs pct) = true ->
  lookupOrFetch key fn ttlMs pct (env, c) =
    (Ok (data entry), (ticked 2 env, set_hits (hits c + 1) c)).
Proof.
  intros Hup [deadline [Hdb Hlive]] Hfresh.
  destruct c as [[up d] h m rk pd]. cbn in Hup, Hdb. subst up.
  unfold lookupOrFetch, client_get, connected, live, hit, bind, ret, this, assign, date_now.
  cbn [fst snd client reachable db clk tick]. rewrite Hdb.
  assert ((deadline <? clk env (tick env)) = false) as -> by (apply Z.ltb_ge; lia).
  cbn [fst snd clk tick]. rewrite Hfresh. reflexivity.
Qed.

Lemma lookupOrFetch_dead {T} (key : string) (fn : Callback T) (ttlMs pct : Z)
      (env : Env) (c : RedisCache T) :
  reachable (client c) = true ->
  deadAt c key (clk env (tick env)) ->
  lookupOrFetch key fn ttlMs pct (env, c) =
    fetchFresh key fn ttlMs (ticked 2 env, purge key c).
Proof.
  intros Hup Hdead. unfold deadAt, purge in *.
  destruct c as [[up d] h m rk pd]. cbn in Hup, Hdead |- *. subst up.
  unfold lookupOrFetch, client_get, connected, live, bind, ret, this, assign, date_now.
  cbn [fst snd client reachable db clk tick].
  destruct (d !! prefixKey key) as [[raw deadline]|].
  - apply Z.ltb_lt in Hdead. rewrite Hdead. reflexivity.
  - reflexivity.
Qed.

Lemma lookupOrFetch_expired {T} (key : string) (fn : Callback T) (ttlMs pct : Z)
      (env : Env) (c : RedisCache T) (entry : CacheEntry T) :
  reachable (client c) = true ->
  liveAt c key (clk env (tick env)) entry ->
  Qltb (inject_Z (clk env (S (tick env)))) (refreshThreshold entry ttlMs pct) = false ->
  expiresAt entry <= clk env (S (tick env)) ->
  lookupOrFetch key fn ttlMs pct (env, c) = fetchFresh key fn ttlMs (ticked 2 env, c).
Proof.
  intros Hup [deadline [Hdb Hlive]] Hfresh Hexp.
  destruct c as [[up d] h m rk pd]. cbn in Hup, Hdb. subst up.
  unfold lookupOrFetch, client_get, connected, live, bind, ret, this, assign, date_now.
  cbn [fst snd client reachable db clk tick]. rewrite Hdb.
  assert ((deadline <? clk env (tick env)) = false) as -> by (apply Z.ltb_ge; lia).
  cbn [fst snd clk tick]. rewrite Hfresh.
  assert ((clk env (S (tick env)) <? expiresAt entry) = false) as -> by (apply Z.ltb_ge; lia).
  reflexivity.
Qed.
End RedisProps.

(* ======================================================================= *)
(** * The cache contract on both backends                                   *)
(* ======================================================================= *)

Module CacheProps.
Import Js Cache Scenario JsFacts LruFacts.

(** C4 (amended). In the in-memory cache, a key set with a negative [ttlMs]
    (the clock not running backwards), or read more than [ttlMs] after it was
    set, is a miss: [get] returns [null], [misses] grows by exactly one, [hits]
    stays, and the key is absent from the keys any later [stats()] reports. *)
Theorem expired_get_is_a_miss :
  forall (T : Type) (key : string) (data : T) (ttlMs : Z) (env : Env)
         (c : MemoryCache.MemoryCache T),
    (ttlMs < 0 /\ clk env (tick env) <= clk env (S (tick env))) \/
    ttlMs < clk env (S (tick env)) - clk env (tick env) ->
    exists c1,
      MemoryCache.get key (snd (MemoryCache.set key data ttlMs (env, c))) =
        (Ok None, (ticked 2 env, c1)) /\
      MemoryCache.misses c1 = MemoryCache.misses c + 1 /\
      MemoryCache.hits c1 = MemoryCache.hits c /\
      forall env2 : Env,
        exists st c2,
          MemoryCache.stats (env2, c1) = (Ok st, (ticked 1 env2, c2)) /\
          ~ In key (keys st).
Proof.
  intros T key data ttlMs env c Hexp.
  rewrite MemoryProps.set_eq. cbn [snd].
  set (entry := mkEntry data (clk env (tick env)) (clk env (tick env) + ttlMs)).
  set (c0 := MemoryCache.set_cache _ c).
  assert (Lru.lookup key (MemoryCache.cache c0) = Some entry) as Hlook.
  { apply lookup_set_same. unfold MemoryCache.MAX_SIZE. lia. }
  rewrite (MemoryProps.get_expired key (ticked 1 env) c0 entry Hlook).
  2:{ cbn. lia. }
  eexists. split; [reflexivity|]. cbn [MemoryCache.misses MemoryCache.hits
    MemoryCache.set_misses MemoryCache.set_cache c0].
  split; [reflexivity|]. split; [reflexivity|].
  intros env2.
  destruct (MemoryProps.stats_keys env2
              (MemoryCache.set_misses (MemoryCache.misses c0 + 1)
                 (MemoryCache.set_cache
                    (Lru.remove key (Lru.remove key (MemoryCache.cache c0))) c0)))
    as [st [c2 [Hrun [_ [_ Hk]]]]].
  exists st, c2. split; [exact Hrun|].
  intros Hin. apply Hk in Hin. cbn in Hin.
  apply keys_remove in Hin. tauto.
Qed.

Lemma expired_get_is_a_miss_witness :
  exists c1,
    MemoryCache.get "x" (snd (MemoryCache.set "x" 42 1000 (envAt [0; 1100], emptyMemory))) =
      (Ok None, (ticked 2 (envAt [0; 1100]), c1)) /\
    MemoryCache.misses c1 = MemoryCache.misses emptyMemory + 1 /\
    MemoryCache.hits c1 = MemoryCache.hits emptyMemory /\
    forall env2 : Env,
      exists st c2,
        MemoryCache.stats (env2, c1) = (Ok st, (ticked 1 env2, c2)) /\
        ~ In "x"%string (keys st).
Proof.
  apply (expired_get_is_a_miss Z "x" 42 1000 (envAt [0; 1100]) emptyMemory).
  right. vm_compute. reflexivity.
Defined.

(** C4 as stated fails at the boundary: [get] tests [Date.now() > expiresAt],
    so an entry read exactly [ttlMs] after it was set, or set with [ttlMs = 0]
    and read in the same millisecond, is returned and counted as a hit. *)
Lemma get_at_expiry_instant_counterexample :
  (1000 - 0 >= 1000 /\
   MemoryCache.get "x" (snd (MemoryCache.set "x" 42 1000 (envAt [0; 1000], emptyMemory))) =
     (Ok (Some 42),
      (mkEnv (clockOf [0; 1000]) 2 0 [],
       MemoryCache.mkCache [("x"%string, mkEntry 42 0 1000)] 1 0 ∅ []))) /\
  (0 <= 0 /\
   MemoryCache.get "x" (snd (MemoryCache.set "x" 42 0 (envAt [500; 500], emptyMemory))) =
     (Ok (Some 42),
      (mkEnv (clockOf [500; 500]) 2 0 [],
       MemoryCache.mkCache [("x"%string, mkEntry 42 500 500)] 1 0 ∅ []))).
Proof.
  split; (split; [lia | reflexivity]).
Qed.

(** The end-to-end example of the specification, evaluated: set for one
    second, read 1100 ms later. *)
Example set_wait_get_stats :
  MemoryCache.get "x" (envAt [1100], memoryWithX) =
    (Ok None, (mkEnv (clockOf [1100]) 1 0 [], MemoryCache.mkCache [] 0 1 ∅ [])) /\
  MemoryCache.stats (T:=Z) (envAt [1200], MemoryCache.mkCache [] 0 1 ∅ []) =
    (Ok (mkStats 0 []), (mkEnv (clockOf [1200]) 1 0 [], MemoryCache.mkCache [] 0 1 ∅ [])).
Proof. split; reflexivity. Qed.

(** C8 (amended). [set] writes an entry with [createdAt = now] and
    [expiresAt = now + ttlMs], so [expiresAt >= createdAt] whenever
    [ttlMs >= 0].  In the in-memory cache the entry takes the place of any
    earlier one for the key, whatever the state.  In the Redis cache it does
    so when the server takes the write (it is reachable and [ttlMs > 0]);
    otherwise [set] returns normally and leaves the store as it was. *)
Theorem set_writes_entry :
  forall (T : Type) (key : string) (data : T) (ttlMs : Z) (env : Env),
    (0 <= ttlMs ->
     createdAt (mkEntry data (clk env (tick env)) (clk env (tick env) + ttlMs)) <=
     expiresAt (mkEntry data (clk env (tick env)) (clk env (tick env) + ttlMs))) /\
    (forall c : MemoryCache.MemoryCache T,
        exists rest,
          MemoryCache.set key data ttlMs (env, c) =
            (Ok tt,
             (ticked 1 env,
              MemoryCache.set_cache
                ((key, mkEntry data (clk env (tick env)) (clk env (tick env) + ttlMs)) :: rest)
                c)) /\
          Lru.lookup key rest = None) /\
    (forall c : RedisCache.RedisCache T,
        RedisCache.reachable (RedisCache.client c) = true ->
        0 < ttlMs ->
        RedisCache.set key data ttlMs (env, c) =
          (Ok tt,
           (ticked 2 env,
            RedisCache.set_db
              (<[RedisCache.prefixKey key :=
                   (mkEntry data (clk env (tick env)) (clk env (tick env) + ttlMs),
                    clk env (S (tick env)) + ttlMs)]>
                 (RedisCache.db (RedisCache.client c)))
              c))) /\
    (forall c : RedisCache.RedisCache T,
        RedisCache.reachable (RedisCache.client c) = false \/ ttlMs <= 0 ->
        RedisCache.set key data ttlMs (env, c) = (Ok tt, (ticked 1 env, c))).
Proof.
  intros T key data ttlMs env. split; [|split; [|split]].
  - cbn. lia.
  - intros c. rewrite MemoryProps.set_eq.
    destruct (set_head MemoryCache.MAX_SIZE key
                (mkEntry data (clk env (tick env)) (clk env (tick env) + ttlMs))
                (MemoryCache.cache c)) as [rest [Hset Hrest]].
    { unfold MemoryCache.MAX_SIZE. lia. }
    exists rest. rewrite Hset. auto.
  - intros c Hup Httl. apply RedisProps.set_accepted; assumption.
  - intros c H. apply RedisProps.set_refused; assumption.
Qed.

Lemma set_writes_entry_witness :
  createdAt (mkEntry 42 0 (0 + 1000)) <= expiresAt (mkEntry 42 0 (0 + 1000)) /\
  MemoryCache.set "x" 42 1000 (envAt [0; 5], memoryWithX) =
    (Ok tt,
     (ticked 1 (envAt [0; 5]),
      MemoryCache.set_cache [("x"%string, mkEntry 42 0 (0 + 1000))] memoryWithX)) /\
  RedisCache.set "x" 42 1000 (envAt [0; 5], emptyRedis) =
    (Ok tt,
     (ticked 2 (envAt [0; 5]),
      RedisCache.set_db
        (<[RedisCache.prefixKey "x" := (mkEntry 42 0 (0 + 1000), 5 + 1000)]>
           (RedisCache.db (RedisCache.client emptyRedis)))
        emptyRedis)).
Proof.
  destruct (set_writes_entry Z "x" 42 1000 (envAt [0; 5])) as [Hinv [Hmem [Hredis _]]].
  split; [|split].
  - apply Hinv. lia.
  - reflexivity.
  - apply Hredis; [reflexivity | lia].
Defined.

(** C8 as stated fails for a negative [ttlMs]: the entry written expires
    before it was created. *)
Lemma negative_ttl_counterexample :
  MemoryCache.set "x" 42 (-1) (envAt [1000], emptyMemory) =
    (Ok tt,
     (mkEnv (clockOf [1000]) 1 0 [],
      MemoryCache.mkCache [("x"%string, mkEntry 42 1000 999)] 0 0 ∅ [])) /\
  ~ (expiresAt (mkEntry 42 1000 999) >= createdAt (mkEntry 42 1000 999)).
Proof.
  split; [reflexivity | cbn; lia].
Qed.

(** C9 (amended). [has] never touches [hits] or [misses].  In the in-memory
    cache it returns [true] exactly when an entry with [now <= expiresAt] is
    held, which is exactly when [get] would return a value.  In the Redis
    cache it returns [true] exactly when the server is reachable and still
    holds the key (native expiry only: [expiresAt] is not consulted). *)
Theorem has_expiry_and_counters :
  forall (T : Type) (key : string) (env : Env),
    (forall c : MemoryCache.MemoryCache T,
        exists b env' c',
          MemoryCache.has key (env, c) = (Ok b, (env', c')) /\
          MemoryCache.hits c' = MemoryCache.hits c /\
          MemoryCache.misses c' = MemoryCache.misses c /\
          (b = true <->
           exists entry, Lru.lookup key (MemoryCache.cache c) = Some entry /\
                         clk env (tick env) <= expiresAt entry) /\
          (b = true <-> exists v, fst (MemoryCache.get key (env, c)) = Ok (Some v))) /\
    (forall c : RedisCache.RedisCache T,
        exists b env' c',
          RedisCache.has key (env, c) = (Ok b, (env', c')) /\
          RedisCache.hits c' = RedisCache.hits c /\
          RedisCache.misses c' = RedisCache.misses c /\
          (b = true <->
           RedisCache.reachable (RedisCache.client c) = true /\
           exists entry, RedisCache.liveAt c key (clk env (tick env)) entry)).
Proof.
  intros T key env. split.
  - intros c. destruct (Lru.lookup key (MemoryCache.cache c)) as [entry|] eqn:Hlook.
    + destruct (Z_lt_le_dec (expiresAt entry) (clk env (tick env))) as [Hexp|Hval].
      * rewrite (MemoryProps.has_expired key env c entry Hlook Hexp).
        rewrite (MemoryProps.get_expired key env c entry Hlook Hexp).
        eexists; eexists; eexists. split; [reflexivity|]. cbn.
        split; [reflexivity|]. split; [reflexivity|]. split; split; try discriminate.
        -- intros [e [He Hle]]. injection He as <-. lia.
        -- intros [v Hv]. discriminate.
      * rewrite (MemoryProps.has_valid key env c entry Hlook Hval).
        rewrite (MemoryProps.get_valid key env c entry Hlook Hval).
        eexists; eexists; eexists. split; [reflexivity|]. cbn.
        split; [reflexivity|]. split; [reflexivity|]. split; split; try reflexivity.
        -- intros _. exists entry. auto.
        -- intros _. exists (data entry). reflexivity.
    + rewrite (MemoryProps.has_missing key env c Hlook).
      rewrite (MemoryProps.get_missing key env c Hlook).
      eexists; eexists; eexists. split; [reflexivity|]. cbn.
      split; [reflexivity|]. split; [reflexivity|]. split; split; try discriminate.
      * intros [e [He _]]. discriminate.
      * intros [v Hv]. discriminate.
  - intros c. destruct (RedisCache.reachable (RedisCache.client c)) eqn:Hup.
    + destruct (RedisProps.live_or_dead c key (clk env (tick env))) as [[entry Hlive]|Hdead].
      * rewrite (RedisProps.has_live key env c entry Hup Hlive).
        eexists; eexists; eexists. split; [reflexivity|].
        split; [reflexivity|]. split; [reflexivity|]. split; [|reflexivity].
        intros _. split; [reflexivity|]. exists entry. exact Hlive.
      * rewrite (RedisProps.has_dead key env c Hup Hdead).
        eexists; eexists; eexists. split; [reflexivity|].
        assert (RedisCache.hits (RedisCache.purge key c) = RedisCache.hits c /\
                RedisCache.misses (RedisCache.purge key c) = RedisCache.misses c) as [Hh Hm].
        { unfold RedisCache.purge.
          destruct (RedisCache.db (RedisCache.client c) !! RedisCache.prefixKey key);
            split; reflexivity. }
        split; [exact Hh|]. split; [exact Hm|]. split; [discriminate|].
        intros [_ [entry Hlive]]. exfalso.
        exact (RedisProps.live_not_dead c key _ entry Hlive Hdead).
    + rewrite (RedisProps.has_unreachable key env c Hup).
      eexists; eexists; eexists. split; [reflexivity|].
      split; [reflexivity|]. split; [reflexivity|]. split; [discriminate|].
      intros [H _]. discriminate.
Qed.

(** C9 as stated fails on the Redis cache: an entry the server still holds is
    reported by [has] after its [expiresAt], while [get] treats it as expired. *)
Lemma redis_has_ignores_expiresAt_counterexample :
  RedisCache.db (RedisCache.client redisWithX) !! RedisCache.prefixKey "x" =
    Some (mkEntry 42 0 100, 105) /\
  expiresAt (mkEntry 42 0 100) < 103 /\
  fst (RedisCache.has "x" (envAt [103], redisWithX)) = Ok true /\
  fst (RedisCache.get "x" (envAt [103; 103; 103], redisWithX)) = Ok None.
Proof.
  split; [reflexivity|]. split; [cbn; lia|]. split; reflexivity.
Qed.

(** C5. On both backends, when [getWithRefresh] finds an entry for the key
    and reads a clock value below
    [entry.createdAt + ttlMs * refreshThresholdPercent / 100], it returns the
    cached data and counts one hit; [refreshFn] is not invoked and no
    background refresh is started (the trace, the invocation count, the set of
    refreshing keys and the list of pending refreshes are unchanged). *)
Theorem fresh_entry_served_without_refresh :
  forall (T : Type) (key : string) (refreshFn : Callback T) (ttlMs pct : Z)
         (env : Env) (entry : CacheEntry T),
    (forall c : MemoryCache.MemoryCache T,
        Lru.lookup key (MemoryCache.cache c) = Some entry ->
        (inject_Z (clk env (tick env)) < refreshThreshold entry ttlMs pct)%Q ->
        exists c',
          MemoryCache.getWithRefresh key refreshFn ttlMs pct (env, c) =
            (Ok (data entry),
             (mkEnv (clk env) (S (tick env)) (calls env) (trace env), c')) /\
          MemoryCache.hits c' = MemoryCache.hits c + 1 /\
          MemoryCache.misses c' = MemoryCache.misses c /\
          MemoryCache.refreshingKeys c' = MemoryCache.refreshingKeys c /\
          MemoryCache.pending c' = MemoryCache.pending c) /\
    (forall c : RedisCache.RedisCache T,
        RedisCache.reachable (RedisCache.client c) = true ->
        RedisCache.liveAt c key (clk env (tick env)) entry ->
        (inject_Z (clk env (S (tick env))) < refreshThreshold entry ttlMs pct)%Q ->
        exists c',
          RedisCache.getWithRefresh key refreshFn ttlMs pct (env, c) =
            (Ok (data entry),
             (mkEnv (clk env) (S (S (tick env))) (calls env) (trace env), c')) /\
          RedisCache.hits c' = RedisCache.hits c + 1 /\
          RedisCache.misses c' = RedisCache.misses c /\
          RedisCache.refreshingKeys c' = RedisCache.refreshingKeys c /\
          RedisCache.pending c' = RedisCache.pending c /\
          RedisCache.client c' = RedisCache.client c).
Proof.
  intros T key refreshFn ttlMs pct env entry. split.
  - intros c Hlook Hfresh. apply Qltb_spec in Hfresh.
    rewrite (MemoryProps.getWithRefresh_fresh key refreshFn ttlMs pct env c entry Hlook Hfresh).
    eexists. split; [reflexivity|]. cbn. auto.
  - intros c Hup Hlive Hfresh. apply Qltb_spec in Hfresh.
    rewrite RedisProps.getWithRefresh_eq.
    rewrite (RedisProps.lookupOrFetch_fresh key refreshFn ttlMs pct env c entry Hup Hlive Hfresh).
    eexists. split; [reflexivity|]. cbn. auto.
Qed.

Lemma fresh_entry_served_without_refresh_witness :
  (exists c',
      MemoryCache.getWithRefresh "x" upstreamDown 1000 80 (envAt [700], memoryWithX) =
        (Ok (data (mkEntry 42 0 1000)),
         (mkEnv (clk (envAt [700])) (S (tick (envAt [700]))) (calls (envAt [700]))
                (trace (envAt [700])), c')) /\
      MemoryCache.hits c' = MemoryCache.hits memoryWithX + 1 /\
      MemoryCache.misses c' = MemoryCache.misses memoryWithX /\
      MemoryCache.refreshingKeys c' = MemoryCache.refreshingKeys memoryWithX /\
      MemoryCache.pending c' = MemoryCache.pending memoryWithX) /\
  (exists c',
      RedisCache.getWithRefresh "x" upstreamDown 100 80 (envAt [70; 70], redisWithX) =
        (Ok (data (mkEntry 42 0 100)),
         (mkEnv (clk (envAt [70; 70])) (S (S (tick (envAt [70; 70]))))
                (calls (envAt [70; 70])) (trace (envAt [70; 70])), c')) /\
      RedisCache.hits c' = RedisCache.hits redisWithX + 1 /\
      RedisCache.misses c' = RedisCache.misses redisWithX /\
      RedisCache.refreshingKeys c' = RedisCache.refreshingKeys redisWithX /\
      RedisCache.pending c' = RedisCache.pending redisWithX /\
      RedisCache.client c' = RedisCache.client redisWithX).
Proof.
  split.
  - apply (fresh_entry_served_without_refresh Z "x" upstreamDown 1000 80
             (envAt [700]) (mkEntry 42 0 1000)).
    + reflexivity.
    + vm_compute. reflexivity.
  - apply (fresh_entry_served_without_refresh Z "x" upstreamDown 100 80
             (envAt [70; 70]) (mkEntry 42 0 100)).
    + reflexivity.
    + exists 105. split; [reflexivity | vm_compute; discriminate].
    + vm_compute. reflexivity.
Defined.

(** C3 (amended). When [getWithRefresh] finds no entry for the key, or an
    entry that is neither fresh nor still valid (the clock has reached both
    [createdAt + ttlMs * refreshThresholdPercent / 100] and [expiresAt]):
    - in the in-memory cache exactly one miss is counted and [refreshFn] is
      invoked exactly once; when it resolves, its result is returned and
      stored by [set] with [ttlMs]; when it throws, that exception reaches the
      caller and no entry is held for the key;
    - in the Redis cache, the server being reachable and [refreshFn]
      resolving, exactly one miss is counted, [refreshFn] is invoked exactly
      once, its result is returned and handed to [set] with [ttlMs], which
      stores it when [ttlMs > 0]. *)
Theorem miss_fetches_once :
  forall (T : Type) (key : string) (refreshFn : Callback T) (ttlMs pct : Z) (env : Env),
    (forall c : MemoryCache.MemoryCache T,
        Lru.lookup key (MemoryCache.cache c) = None \/
        (exists entry,
            Lru.lookup key (MemoryCache.cache c) = Some entry /\
            ~ (inject_Z (clk env (tick env)) < refreshThreshold entry ttlMs pct)%Q /\
            expiresAt entry <= clk env (tick env)) ->
        exists env' c',
          snd (MemoryCache.getWithRefresh key refreshFn ttlMs pct (env, c)) = (env', c') /\
          MemoryCache.misses c' = MemoryCache.misses c + 1 /\
          MemoryCache.hits c' = MemoryCache.hits c /\
          calls env' = S (calls env) /\
          trace env' = trace env ++ [EvCall] /\
          match refreshFn (calls env) with
          | Ok freshData =>
              fst (MemoryCache.getWithRefresh key refreshFn ttlMs pct (env, c)) =
                Ok freshData /\
              Lru.lookup key (MemoryCache.cache c') =
                Some (mkEntry freshData (clk env (S (tick env)))
                              (clk env (S (tick env)) + ttlMs))
          | Throw error =>
              fst (MemoryCache.getWithRefresh key refreshFn ttlMs pct (env, c)) =
                Throw error /\
              Lru.lookup key (MemoryCache.cache c') = None
          end) /\
    (forall (c : RedisCache.RedisCache T) (freshData : T),
        RedisCache.reachable (RedisCache.client c) = true ->
        RedisCache.deadAt c key (clk env (tick env)) \/
        (exists entry,
            RedisCache.liveAt c key (clk env (tick env)) entry /\
            ~ (inject_Z (clk env (S (tick env))) < refreshThreshold entry ttlMs pct)%Q /\
            expiresAt entry <= clk env (S (tick env))) ->
        refreshFn (calls env) = Ok freshData ->
        exists env' c',
          RedisCache.getWithRefresh key refreshFn ttlMs pct (env, c) =
            (Ok freshData, (env', c')) /\
          RedisCache.misses c' = RedisCache.misses c + 1 /\
          RedisCache.hits c' = RedisCache.hits c /\
          calls env' = S (calls env) /\
          trace env' = trace env ++ [EvCall] /\
          (0 < ttlMs ->
           RedisCache.db (RedisCache.client c') !! RedisCache.prefixKey key =
             Some (mkEntry freshData (clk env (S (S (tick env))))
                           (clk env (S (S (tick env))) + ttlMs),
                   clk env (S (S (S (tick env)))) + ttlMs))).
Proof.
  intros T key refreshFn ttlMs pct env. split.
  - intros c Hmiss.
    assert (exists c0,
               MemoryCache.getWithRefresh key refreshFn ttlMs pct (env, c) =
                 MemoryCache.fetchFresh key refreshFn ttlMs (ticked 1 env, c0) /\
               MemoryCache.misses c0 = MemoryCache.misses c /\
               MemoryCache.hits c0 = MemoryCache.hits c /\
               Lru.lookup key (MemoryCache.cache c0) = None) as [c0 [Hrun [Hm [Hh Hgone]]]].
    { destruct Hmiss as [Hnone | [entry [Hlook [Hstale Hexp]]]].
      - exists c. rewrite (MemoryProps.getWithRefresh_missing _ _ _ _ _ _ Hnone). auto.
      - eexists. rewrite (MemoryProps.getWithRefresh_expired _ _ _ _ _ _ entry Hlook); auto.
        + split; [reflexivity|]. cbn. repeat split; auto.
          rewrite lookup_remove_same. reflexivity.
        + destruct (Qltb _ _) eqn:E; [|reflexivity].
          apply Qltb_spec in E. contradiction. }
    rewrite Hrun, MemoryProps.fetchFresh_eq. cbn [calls ticked].
    destruct (refreshFn (calls env)) as [v|e].
    + eexists; eexists. cbn [fst snd]. split; [reflexivity|].
      cbn. rewrite Hm, Hh. repeat split; auto.
      rewrite String.eqb_refl. reflexivity.
    + eexists; eexists. cbn [fst snd]. split; [reflexivity|].
      cbn. rewrite Hm, Hh. repeat split; auto.
  - intros c v Hup Hmiss Hfn.
    assert (exists c0,
               RedisCache.lookupOrFetch key refreshFn ttlMs pct (env, c) =
                 RedisCache.fetchFresh key refreshFn ttlMs (ticked 2 env, c0) /\
               RedisCache.misses c0 = RedisCache.misses c /\
               RedisCache.hits c0 = RedisCache.hits c /\
               RedisCache.reachable (RedisCache.client c0) = true)
      as [c0 [Hrun [Hm [Hh Hup0]]]].
    { destruct Hmiss as [Hdead | [entry [Hlive [Hstale Hexp]]]].
      - exists (RedisCache.purge key c).
        rewrite (RedisProps.lookupOrFetch_dead _ _ _ _ _ _ Hup Hdead).
        split; [reflexivity|]. unfold RedisCache.purge.
        destruct (RedisCache.db (RedisCache.client c) !! RedisCache.prefixKey key);
          cbn; auto.
      - exists c. rewrite (RedisProps.lookupOrFetch_expired _ _ _ _ _ _ entry Hup Hlive); auto.
        destruct (Qltb _ _) eqn:E; [|reflexivity].
        apply Qltb_spec in E. contradiction. }
    rewrite RedisProps.getWithRefresh_eq, Hrun, RedisProps.redis_fetchFresh_eq.
    cbn [calls ticked]. rewrite Hfn.
    destruct (Z_lt_le_dec 0 ttlMs) as [Httl|Httl].
    + rewrite RedisProps.set_accepted by (cbn; auto).
      eexists; eexists. cbn [fst snd]. split; [reflexivity|].
      cbn. rewrite Hm, Hh. repeat split; auto.
      intros _. apply lookup_insert_eq.
    + rewrite RedisProps.set_refused by (right; lia).
      eexists; eexists. cbn [fst snd]. split; [reflexivity|].
      cbn. rewrite Hm, Hh. repeat split; auto. lia.
Qed.

Lemma miss_fetches_once_witness :
  (exists env' c',
      snd (MemoryCache.getWithRefresh "x" (alwaysReturns 7) 1000 80
             (envAt [0; 1], emptyMemory)) = (env', c') /\
      MemoryCache.misses c' = MemoryCache.misses emptyMemory + 1 /\
      MemoryCache.hits c' = MemoryCache.hits emptyMemory /\
      calls env' = S (calls (envAt [0; 1])) /\
      trace env' = trace (envAt [0; 1]) ++ [EvCall] /\
      fst (MemoryCache.getWithRefresh "x" (alwaysReturns 7) 1000 80
             (envAt [0; 1], emptyMemory)) = Ok 7 /\
      Lru.lookup "x" (MemoryCache.cache c') = Some (mkEntry 7 1 (1 + 1000))) /\
  (exists env' c',
      RedisCache.getWithRefresh "x" (alwaysReturns 7) 1000 80
        (envAt [0; 1; 2; 3], emptyRedis) = (Ok 7, (env', c')) /\
      RedisCache.misses c' = RedisCache.misses emptyRedis + 1 /\
      RedisCache.hits c' = RedisCache.hits emptyRedis /\
      calls env' = S (calls (envAt [0; 1; 2; 3])) /\
      trace env' = trace (envAt [0; 1; 2; 3]) ++ [EvCall] /\
      (0 < 1000 ->
       RedisCache.db (RedisCache.client c') !! RedisCache.prefixKey "x" =
         Some (mkEntry 7 2 (2 + 1000), 3 + 1000))).
Proof.
  split.
  - apply (miss_fetches_once Z "x" (alwaysReturns 7) 1000 80 (envAt [0; 1])).
    left. reflexivity.
  - apply (miss_fetches_once Z "x" (alwaysReturns 7) 1000 80 (envAt [0; 1; 2; 3])).
    + reflexivity.
    + left. vm_compute. exact I.
    + reflexivity.
Defined.

(** C3 as stated fails for a hard-expired entry that the freshness test, made
    first and with the caller's [ttlMs], still accepts: the entry set for one
    second at time 0 is served at time 1500 to a caller passing one minute, as
    a hit and without any refresh. *)
Lemma expired_entry_served_as_fresh_counterexample :
  Lru.lookup "x" (MemoryCache.cache memoryWithX) = Some (mkEntry 42 0 1000) /\
  1500 >= expiresAt (mkEntry 42 0 1000) /\
  MemoryCache.getWithRefresh "x" (alwaysReturns 7) 60000 80 (envAt [1500], memoryWithX) =
    (Ok 42,
     (mkEnv (clockOf [1500]) 1 0 [],
      MemoryCache.mkCache [("x"%string, mkEntry 42 0 1000)] 1 0 ∅ [])).
Proof.
  split; [reflexivity|]. split; [cbn; lia | reflexivity].
Qed.

(** What the Redis cache does when [refreshFn] throws on a miss: the [catch]
    block meant for Redis errors receives the exception, counts a second miss
    and invokes [refreshFn] a second time. *)
Example redis_refresh_error_reaches_catch :
  (let r := RedisCache.getWithRefresh "x" (throwsOnce "upstream failed" 7) 1000 80
              (envAt [0; 1; 2; 3], emptyRedis) in
   fst r = Ok 7 /\
   calls (fst (snd r)) = 2%nat /\
   trace (fst (snd r)) = [EvCall; EvCall] /\
   RedisCache.misses (snd (snd r)) = 2) /\
  (let r := RedisCache.getWithRefresh "x" (alwaysThrows "upstream failed") 1000 80
              (envAt [0; 1; 2; 3], emptyRedis) in
   fst r = Throw (JsError "upstream failed") /\
   calls (fst (snd r)) = 2%nat /\
   RedisCache.misses (snd (snd r)) = 2).
Proof. vm_compute. repeat split. Qed.
End CacheProps.

(* ======================================================================= *)
(** * Retry executor: the shape of every run                             *)
(* ======================================================================= *)

Module RetryMore.
Import Js Retry Scenario JsFacts RetryProps.

Lemma attemptsTrace_more (baseDelayMs attempt : Z) (n : nat) :
  attemptsTrace baseDelayMs attempt (S (S n)) =
    EvCall :: EvSleep (baseDelayMs * 2 ^ (attempt - 1))
           :: attemptsTrace baseDelayMs (attempt + 1) (S n).
Proof. reflexivity. Qed.

Lemma attemptsTrace_invocations (baseDelayMs : Z) (n : nat) :
  forall attempt, invocations (attemptsTrace baseDelayMs attempt n) = n.
Proof.
  induction n as [|[|n] IH]; intros attempt; try reflexivity.
  rewrite attemptsTrace_more. cbn [invocations]. rewrite IH. reflexivity.
Qed.

Lemma attemptsTrace_waits (baseDelayMs : Z) (n : nat) :
  forall attempt,
    waits (attemptsTrace baseDelayMs attempt (S n)) =
      map (fun i => baseDelayMs * 2 ^ (attempt - 1 + Z.of_nat i)) (seq 0 n).
Proof.
  induction n as [|n IH]; intros attempt; [reflexivity|].
  rewrite attemptsTrace_more. cbn [waits]. rewrite IH.
  cbn [seq map]. rewrite Z.add_0_r. f_equal.
  rewrite <- seq_shift, map_map. apply map_ext. intros i. do 2 f_equal. lia.
Qed.

Lemma waits_app (tr tr' : list Event) : waits (tr ++ tr') = waits tr ++ waits tr'.
Proof.
  induction tr as [|[|ms] tr IH]; cbn [waits app]; rewrite ?IH; reflexivity.
Qed.

Section Runs.
Context {T : Type}.
Variable fn : Callback T.
Variable maxRetries baseDelayMs : Z.

(** Whatever [fn] does, a loop with fuel for the iterations left makes some
    number [k] of attempts, at least one when its test passes and never more
    than the iterations left: every attempt but the last threw a retryable
    error, the last one's outcome is the loop's outcome, and the trace is that
    of [k] attempts. *)
Lemma retryLoop_run (fuel : nat) :
  forall (attempt : Z) (lastError : Thrown) (env : Env),
    (Z.to_nat (maxRetries - attempt + 1) <= fuel)%nat ->
    exists k r,
      retryLoop fn maxRetries baseDelayMs fuel attempt lastError (env, tt) =
        (r, (mkEnv (clk env) (tick env) (calls env + k)
                   (trace env ++ attemptsTrace baseDelayMs attempt k), tt)) /\
      (k <= Z.to_nat (maxRetries - attempt + 1))%nat /\
      (attempt <= maxRetries -> (0 < k)%nat) /\
      (k = 0%nat -> r = Throw lastError) /\
      (forall i, (S i < k)%nat ->
                 exists e, fn (calls env + i)%nat = Throw e /\ isRetryableError e = true) /\
      (forall j, k = S j ->
                 r = fn (calls env + j)%nat /\
                 match r with
                 | Ok _ => True
                 | Throw e => isRetryableError e = false \/ attempt + Z.of_nat j = maxRetries
                 end).
Proof.
  induction fuel as [|fuel IH]; intros attempt lastError env Hfuel.
  - exists 0%nat, (Throw lastError). cbn [retryLoop attemptsTrace].
    rewrite Nat.add_0_r, app_nil_r.
    assert ((attempt <=? maxRetries) = false) as -> by (apply Z.leb_gt; lia).
    split; [destruct env; reflexivity|].
    split; [lia|]. split; [lia|]. split; [reflexivity|]. split; [intros i Hi; lia|].
    discriminate.
  - cbn [retryLoop]. destruct (attempt <=? maxRetries) eqn:Hle.
    + apply Z.leb_le in Hle.
      unfold bind at 1. unfold try, invoke. cbn [fst snd].
      destruct (fn (calls env)) as [v|error] eqn:Hfn.
      * exists 1%nat, (Ok v). unfold ret. cbn [attemptsTrace].
        rewrite Nat.add_1_r. split; [reflexivity|].
        split; [lia|]. split; [lia|]. split; [discriminate|]. split; [intros i Hi; lia|].
        intros j Hj. injection Hj as <-. rewrite Nat.add_0_r. auto.
      * destruct (negb (isRetryableError error) || (attempt =? maxRetries)) eqn:Hstop.
        -- exists 1%nat, (Throw error). unfold throw. cbn [attemptsTrace].
           rewrite Nat.add_1_r. split; [reflexivity|].
           split; [lia|]. split; [lia|]. split; [discriminate|]. split; [intros i Hi; lia|].
           intros j Hj. injection Hj as <-. rewrite Nat.add_0_r. split; [auto|].
           apply orb_true_iff in Hstop. destruct Hstop as [H|H].
           ++ left. apply negb_true_iff in H. exact H.
           ++ right. apply Z.eqb_eq in H. lia.
        -- apply orb_false_iff in Hstop. destruct Hstop as [Hretry Hne].
           apply negb_false_iff in Hretry. apply Z.eqb_neq in Hne.
           unfold bind at 1. unfold sleep. cbn [fst snd clk tick calls trace].
           destruct (IH (attempt + 1) error
                        (mkEnv (clk env) (tick env) (S (calls env))
                               ((trace env ++ [EvCall]) ++
                                [EvSleep (baseDelayMs * 2 ^ (attempt - 1))])))
             as [k [r [Hrun [Hk [Hpos [_ [Hpre Hlast]]]]]]]; [lia|].
           cbn [clk tick calls trace] in Hrun, Hpre, Hlast.
           destruct k as [|k]; [specialize (Hpos ltac:(lia)); lia|].
           exists (S (S k)), r. rewrite Hrun. split.
           ++ rewrite attemptsTrace_more, <- !app_assoc. cbn [app].
              do 3 f_equal. lia.
           ++ split; [lia|]. split; [lia|]. split; [discriminate|]. split.
              ** intros [|i] Hi.
                 --- exists error. rewrite Nat.add_0_r. auto.
                 --- destruct (Hpre i ltac:(lia)) as [e [He Hr]]. exists e.
                     rewrite <- He. split; [f_equal; lia | exact Hr].
              ** intros j Hj. injection Hj as <-.
                 destruct (Hlast k eq_refl) as [Hr Hfin]. split.
                 --- rewrite Hr. f_equal. lia.
                 --- destruct r; [exact I|]. destruct Hfin; [auto | right; lia].
    + apply Z.leb_gt in Hle.
      exists 0%nat, (Throw lastError). unfold throw. cbn [attemptsTrace].
      rewrite Nat.add_0_r, app_nil_r. split; [destruct env; reflexivity|].
      split; [lia|]. split; [lia|]. split; [reflexivity|]. split; [intros i Hi; lia|].
      discriminate.
Qed.
End Runs.

(** X1. With at least one attempt allowed, [executeWithRetry] makes some number
    [k] of attempts between 1 and [maxRetries]; every attempt before the last
    threw a retryable error; what the last attempt returned or threw is what
    the caller gets, unchanged; that last attempt either resolved, or threw a
    non-retryable error, or was attempt number [maxRetries]; and the trace is
    [k] invocations separated by the waits [baseDelayMs * 2 ^ (attempt - 1)]. *)
Theorem retry_outcome_is_last_attempt :
  forall (T : Type) (fn : Callback T) (maxRetries baseDelayMs : Z) (env : Env),
    1 <= maxRetries ->
    exists k : nat,
      (1 <= k)%nat /\ Z.of_nat k <= maxRetries /\
      executeWithRetry fn maxRetries baseDelayMs (env, tt) =
        (fn (calls env + (k - 1))%nat,
         (mkEnv (clk env) (tick env) (calls env + k)
                (trace env ++ attemptsTrace baseDelayMs 1 k), tt)) /\
      (forall i, (S i < k)%nat ->
                 exists e, fn (calls env + i)%nat = Throw e /\ isRetryableError e = true) /\
      match fn (calls env + (k - 1))%nat with
      | Ok _ => True
      | Throw e => isRetryableError e = false \/ Z.of_nat k = maxRetries
      end.
Proof.
  intros T fn maxRetries baseDelayMs env Hmax. unfold executeWithRetry.
  destruct (retryLoop_run fn maxRetries baseDelayMs (Z.to_nat maxRetries) 1
              (JsValue "undefined") env ltac:(lia))
    as [k [r [Hrun [Hk [Hpos [_ [Hpre Hlast]]]]]]].
  specialize (Hpos Hmax). destruct k as [|j]; [lia|].
  destruct (Hlast j eq_refl) as [Hr Hfin].
  exists (S j). split; [lia|]. split; [lia|].
  replace (S j - 1)%nat with j by lia. rewrite <- Hr.
  split; [exact Hrun|]. split; [exact Hpre|].
  destruct r; [exact I|]. destruct Hfin; [auto | right; lia].
Qed.

Lemma retry_outcome_is_last_attempt_witness :
  exists k : nat,
    (1 <= k)%nat /\ Z.of_nat k <= 3 /\
    executeWithRetry (throwsOnce "socket hang up" 7) 3 1000 (idle, tt) =
      (throwsOnce "socket hang up" 7 (calls idle + (k - 1))%nat,
       (mkEnv (clk idle) (tick idle) (calls idle + k)
              (trace idle ++ attemptsTrace 1000 1 k), tt)) /\
    (forall i, (S i < k)%nat ->
               exists e, throwsOnce "socket hang up" 7 (calls idle + i)%nat = Throw e /\
                         isRetryableError e = true) /\
    match throwsOnce "socket hang up" 7 (calls idle + (k - 1))%nat with
    | Ok _ => True
    | Throw e => isRetryableError e = false \/ Z.of_nat k = 3
    end.
Proof.
  apply (retry_outcome_is_last_attempt Z (throwsOnce "socket hang up" 7) 3 1000 idle).
  lia.
Defined.

(** X2. With [maxRetries] below one the loop body never runs: [fn] is not
    invoked, nothing is awaited, and the [throw lastError] after the loop
    throws [undefined]. *)
Theorem retry_without_attempts :
  forall (T : Type) (fn : Callback T) (maxRetries baseDelayMs : Z) (env : Env),
    maxRetries < 1 ->
    executeWithRetry fn maxRetries baseDelayMs (env, tt) =
      (Throw (JsValue "undefined"), (env, tt)).
Proof.
  intros T fn maxRetries baseDelayMs env Hmax. unfold executeWithRetry.
  destruct (Z.to_nat maxRetries); cbn [retryLoop];
    assert ((1 <=? maxRetries) = false) as -> by (apply Z.leb_gt; lia); reflexivity.
Qed.

Lemma retry_without_attempts_witness :
  executeWithRetry (alwaysReturns 7) 0 1000 (idle, tt) =
    (Throw (JsValue "undefined"), (idle, tt)).
Proof.
  apply (retry_without_attempts Z (alwaysReturns 7) 0 1000 idle). lia.
Defined.

(** X3. When each of the first [maxRetries] invocations throws a retryable
    error, [fn] is invoked exactly [maxRetries] times, the waits made are
    [baseDelayMs * 2 ^ i] for [i = 0 .. maxRetries - 2] in that order, and the
    error of the last invocation is thrown. *)
Theorem retry_exhausted :
  forall (T : Type) (fn : Callback T) (maxRetries baseDelayMs : Z) (env : Env),
    1 <= maxRetries ->
    (forall i, (i < Z.to_nat maxRetries)%nat ->
               exists e, fn (calls env + i)%nat = Throw e /\ isRetryableError e = true) ->
    exists env',
      executeWithRetry fn maxRetries baseDelayMs (env, tt) =
        (fn (calls env + (Z.to_nat maxRetries - 1))%nat, (env', tt)) /\
      calls env' = (calls env + Z.to_nat maxRetries)%nat /\
      invocations (trace env') = (invocations (trace env) + Z.to_nat maxRetries)%nat /\
      waits (trace env') =
        waits (trace env) ++
        map (fun i => baseDelayMs * 2 ^ Z.of_nat i) (seq 0 (Z.to_nat maxRetries - 1)).
Proof.
  intros T fn maxRetries baseDelayMs env Hmax Hfn. unfold executeWithRetry.
  destruct (retryLoop_run fn maxRetries baseDelayMs (Z.to_nat maxRetries) 1
              (JsValue "undefined") env ltac:(lia))
    as [k [r [Hrun [Hk [Hpos [_ [Hpre Hlast]]]]]]].
  specialize (Hpos Hmax). destruct k as [|j]; [lia|].
  destruct (Hlast j eq_refl) as [Hr Hfin].
  assert (S j = Z.to_nat maxRetries) as Hj.
  { destruct (Hfn j ltac:(lia)) as [e [He Hretry]].
    rewrite Hr, He in Hfin. destruct Hfin as [H|H]; [congruence | lia]. }
  eexists. rewrite Hrun. rewrite <- Hj.
  replace (S j - 1)%nat with j by lia. rewrite <- Hr.
  split; [reflexivity|]. cbn [calls trace]. split; [reflexivity|].
  rewrite invocations_app, attemptsTrace_invocations, waits_app, attemptsTrace_waits.
  split; [reflexivity|]. apply f_equal2; [reflexivity|].
  apply map_ext. intros i.
  replace (1 - 1 + Z.of_nat i) with (Z.of_nat i) by lia. reflexivity.
Qed.

Lemma retry_exhausted_witness :
  exists env',
    executeWithRetry upstreamDown 4 250 (idle, tt) =
      (upstreamDown (calls idle + (Z.to_nat 4 - 1))%nat, (env', tt)) /\
    calls env' = (calls idle + Z.to_nat 4)%nat /\
    invocations (trace env') = (invocations (trace idle) + Z.to_nat 4)%nat /\
    waits (trace env') =
      waits (trace idle) ++
      map (fun i => 250 * 2 ^ Z.of_nat i) (seq 0 (Z.to_nat 4 - 1)).
Proof.
  apply (retry_exhausted Z upstreamDown 4 250 idle).
  - lia.
  - intros i _. exists (JsError "connect ECONNREFUSED"). split; reflexivity.
Defined.

(** X4. When the first [m] invocations throw retryable errors and the next one
    resolves, with [m < maxRetries], the value is returned after exactly
    [m + 1] invocations and the waits [baseDelayMs * 2 ^ i], [i = 0 .. m - 1]. *)
Theorem retry_recovers :
  forall (T : Type) (fn : Callback T) (maxRetries baseDelayMs : Z) (env : Env)
         (m : nat) (v : T),
    Z.of_nat m < maxRetries ->
    (forall i, (i < m)%nat ->
               exists e, fn (calls env + i)%nat = Throw e /\ isRetryableError e = true) ->
    fn (calls env + m)%nat = Ok v ->
    exists env',
      executeWithRetry fn maxRetries baseDelayMs (env, tt) = (Ok v, (env', tt)) /\
      calls env' = (calls env + S m)%nat /\
      invocations (trace env') = (invocations (trace env) + S m)%nat /\
      waits (trace env') =
        waits (trace env) ++ map (fun i => baseDelayMs * 2 ^ Z.of_nat i) (seq 0 m).
Proof.
  intros T fn maxRetries baseDelayMs env m v Hm Hfn Hok. unfold executeWithRetry.
  destruct (retryLoop_run fn maxRetries baseDelayMs (Z.to_nat maxRetries) 1
              (JsValue "undefined") env ltac:(lia))
    as [k [r [Hrun [Hk [Hpos [_ [Hpre Hlast]]]]]]].
  specialize (Hpos ltac:(lia)). destruct k as [|j]; [lia|].
  destruct (Hlast j eq_refl) as [Hr Hfin].
  assert (j = m) as ->.
  { destruct (Nat.lt_trichotomy j m) as [Hlt | [Heq | Hgt]]; [|exact Heq|].
    - destruct (Hfn j Hlt) as [e [He Hretry]].
      rewrite Hr, He in Hfin. destruct Hfin as [H|H]; [congruence | lia].
    - destruct (Hpre m ltac:(lia)) as [e [He _]]. congruence. }
  rewrite Hok in Hr. subst r.
  eexists. rewrite Hrun. split; [reflexivity|]. cbn [calls trace]. split; [reflexivity|].
  rewrite invocations_app, attemptsTrace_invocations, waits_app, attemptsTrace_waits.
  split; [reflexivity|]. apply f_equal2; [reflexivity|].
  apply map_ext. intros i.
  replace (1 - 1 + Z.of_nat i) with (Z.of_nat i) by lia. reflexivity.
Qed.

Lemma retry_recovers_witness :
  exists env',
    executeWithRetry (throwsOnce "socket hang up" 7) 3 1000 (idle, tt) =
      (Ok 7, (env', tt)) /\
    calls env' = (calls idle + 2)%nat /\
    invocations (trace env') = (invocations (trace idle) + 2)%nat /\
    waits (trace env') =
      waits (trace idle) ++ map (fun i => 1000 * 2 ^ Z.of_nat i) (seq 0 1).
Proof.
  apply (retry_recovers Z (throwsOnce "socket hang up" 7) 3 1000 idle 1 7).
  - lia.
  - intros i Hi. exists (JsError "socket hang up").
    destruct i as [|i]; [split; reflexivity | lia].
  - reflexivity.
Defined.
End RetryMore.

(* ======================================================================= *)
(** * Circuit breaker: invariants, recovery and monitoring               *)
(* ======================================================================= *)

Module BreakerMore.
Import Js Breaker Scenario JsFacts BreakerProps.

(** Unfolds a method of the breaker applied to a state, as [run] does, and
    the ones [run] leaves out. *)
Ltac run_all :=
  unfold act, reset, getMetrics;
  BreakerProps.run.

(** Case analysis on the next test a method makes. *)
Ltac case_step :=
  match goal with
  | |- context [if ?c then _ else _] => destruct c eqn:?
  | |- context [match ?o with Some _ => _ | None => _ end] => destruct o eqn:?
  end;
  run_all;
  cbn [fst snd state failureCount successCount lastFailureTime lastStateChange
       halfOpenAttempts failureThreshold resetTimeoutMs halfOpenMaxAttempts
       CircuitState_eqb negb clk tick calls trace] in *.

Lemma kept_refl (b : CircuitBreaker) : Kept b b.
Proof. unfold Kept, sameConfig. auto. Qed.

Lemma kept_trans (b1 b2 b3 : CircuitBreaker) : Kept b1 b2 -> Kept b2 b3 -> Kept b1 b3.
Proof.
  unfold Kept, sameConfig. intros [[A1 [A2 A3]] W1] [[B1 [B2 B3]] W2].
  repeat split; try congruence; apply W2, W1; assumption.
Qed.

Lemma act_kept (a : Action) (env : Env) (b : CircuitBreaker) :
  Kept b (snd (snd (act a (env, b)))).
Proof.
  unfold Kept, sameConfig, WellFormed.
  destruct b as [st fc sc lft lsc hoa ft rt hm].
  destruct a; destruct st; run_all; repeat case_step;
    (split; [auto|]); intros (H1 & H2 & H3 & H4 & H5);
    repeat match goal with
           | H : (_ <=? _) = true |- _ => apply Z.leb_le in H
           | H : (_ <=? _) = false |- _ => apply Z.leb_gt in H
           end;
    try (specialize (H4 ltac:(discriminate)));
    (split; [lia|]); (split; [lia|]); (split; [lia|]);
    (split; [intros; try reflexivity; try lia; try congruence
            | intros; try discriminate; try congruence]).
  - apply H5. reflexivity.
  - exfalso. exact (H5 eq_refl eq_refl).
Qed.

Lemma acts_kept (l : list Action) :
  forall (env : Env) (b : CircuitBreaker), Kept b (snd (snd (acts l (env, b)))).
Proof.
  induction l as [|a l IH]; intros env b.
  - apply kept_refl.
  - cbn [acts]. unfold bind.
    pose proof (act_kept a env b) as Ha.
    destruct (act a (env, b)) as [[u|e] [env' b']] eqn:E; cbn [snd] in Ha.
    + eapply kept_trans; [exact Ha | apply IH].
    + exact Ha.
Qed.

(** X5. However a new breaker is used (calls admitted or refused, promises
    settling in any order, resets, inspections, at any clock readings) its
    counters are never negative, [halfOpenAttempts] stays between 0 and
    [halfOpenMaxAttempts] and is 0 outside HALF_OPEN, an OPEN breaker always has
    a [lastFailureTime], and the constructor parameters never change. *)
Theorem breaker_well_formed_always :
  forall (failureThreshold resetTimeoutMs halfOpenMaxAttempts : Z)
         (l : list Action) (env : Env),
    WellFormed (snd (snd (acts l (env, new failureThreshold resetTimeoutMs
                                            halfOpenMaxAttempts)))) /\
    sameConfig (new failureThreshold resetTimeoutMs halfOpenMaxAttempts)
               (snd (snd (acts l (env, new failureThreshold resetTimeoutMs
                                           halfOpenMaxAttempts)))).
Proof.
  intros ft rt hm l env.
  destruct (acts_kept l env (new ft rt hm)) as [Hcfg Hwf].
  split; [|exact Hcfg]. apply Hwf.
  unfold WellFormed, new. cbn. repeat split; try lia; try discriminate.
Qed.

(** A success while CLOSED. *)
Lemma afterCall_closed_success {T} (result : T) (env : Env) (b : CircuitBreaker) :
  state b = CLOSED ->
  afterCall (Ok result) (env, b) =
    (Ok result, (env, set_failureCount 0 (set_successCount (successCount b + 1) b))).
Proof.
  intros Hs. destruct b; cbn in Hs; subst. run. reflexivity.
Qed.

(** A promise settling while the breaker is OPEN. *)
Lemma afterCall_open_failure {T} (error : Thrown) (env : Env) (b : CircuitBreaker) :
  state b = OPEN ->
  afterCall (T:=T) (Throw error) (env, b) =
    (Throw error,
     (ticked 1 env,
      set_lastFailureTime (Some (clk env (tick env)))
        (set_failureCount (failureCount b + 1) b))).
Proof.
  intros Hs. destruct b; cbn in Hs; subst. run. reflexivity.
Qed.

Lemma afterCall_open_success {T} (result : T) (env : Env) (b : CircuitBreaker) :
  state b = OPEN ->
  afterCall (Ok result) (env, b) =
    (Ok result, (env, set_successCount (successCount b + 1) b)).
Proof.
  intros Hs. destruct b; cbn in Hs; subst. run. reflexivity.
Qed.

(** X6. The threshold counts consecutive failures only.  While CLOSED a call
    that resolves returns its value after one invocation and without reading
    the clock, and sets [failureCount] back to 0; so [n] failures, then a
    success, then [m] failures, with [n] and [m] below the threshold, leave the
    breaker CLOSED with [failureCount = m]. *)
Theorem success_resets_failure_count :
  forall (T : Type) (fn : Callback T) (env : Env) (b : CircuitBreaker) (n m : nat) (v : T),
    state b = CLOSED ->
    failureCount b = 0 ->
    Z.of_nat n < failureThreshold b ->
    Z.of_nat m < failureThreshold b ->
    (forall i, (i < n)%nat -> exists e, fn (calls env + i)%nat = Throw e) ->
    fn (calls env + n)%nat = Ok v ->
    (forall i, (i < m)%nat -> exists e, fn (calls env + S n + i)%nat = Throw e) ->
    exists env1 b1 env2 b2 env3 b3,
      executeMany n fn (env, b) = (Ok tt, (env1, b1)) /\
      execute fn (env1, b1) = (Ok v, (env2, b2)) /\
      tick env2 = tick env1 /\
      state b2 = CLOSED /\ failureCount b2 = 0 /\
      executeMany m fn (env2, b2) = (Ok tt, (env3, b3)) /\
      state b3 = CLOSED /\ failureCount b3 = Z.of_nat m /\
      invocations (trace env3) = (invocations (trace env) + n + 1 + m)%nat.
Proof.
  intros T fn env b n m v Hs Hfc Hn Hm Hfail1 Hok Hfail2.
  destruct (failures_below_threshold fn n env b Hs ltac:(lia) Hfail1)
    as [env1 [b1 [Hrun1 [Hs1 [Hfc1 [[Hc1 [Hc2 Hc3]] [Hcalls1 Hinv1]]]]]]].
  exists env1, b1.
  pose proof (execute_admitted fn env1 env1 b1 b1 (beforeCall_closed env1 b1 Hs1)) as Hex.
  rewrite Hcalls1, Hok, afterCall_closed_success in Hex by exact Hs1.
  eexists; eexists. 
  destruct (failures_below_threshold fn m (called env1)
              (set_failureCount 0 (set_successCount (successCount b1 + 1) b1)))
    as [env3 [b3 [Hrun3 [Hs3 [Hfc3 [_ [Hcalls3 Hinv3]]]]]]].
  - exact Hs1.
  - cbn. lia.
  - intros i Hi. destruct (Hfail2 i Hi) as [e He]. exists e.
    cbn [called calls]. rewrite <- He, Hcalls1. f_equal. lia.
  - exists env3, b3. split; [exact Hrun1|]. split; [exact Hex|].
    split; [reflexivity|]. split; [exact Hs1|]. split; [reflexivity|].
    split; [exact Hrun3|]. split; [exact Hs3|]. split; [cbn in Hfc3; lia|].
    rewrite Hinv3. cbn [called trace]. rewrite invocations_app, Hinv1. cbn. lia.
Qed.

Lemma success_resets_failure_count_witness :
  exists env1 b1 env2 b2 env3 b3,
    executeMany 1 (throwsOnce "socket hang up" 7) (strikesEnv, twoStrikes) =
      (Ok tt, (env1, b1)) /\
    execute (throwsOnce "socket hang up" 7) (env1, b1) = (Ok 7, (env2, b2)) /\
    tick env2 = tick env1 /\
    state b2 = CLOSED /\ failureCount b2 = 0 /\
    executeMany 0 (throwsOnce "socket hang up" 7) (env2, b2) = (Ok tt, (env3, b3)) /\
    state b3 = CLOSED /\ failureCount b3 = Z.of_nat 0 /\
    invocations (trace env3) = (invocations (trace strikesEnv) + 1 + 1 + 0)%nat.
Proof.
  apply (success_resets_failure_count Z (throwsOnce "socket hang up" 7) strikesEnv
           twoStrikes 1 0 7).
  - reflexivity.
  - reflexivity.
  - vm_compute. reflexivity.
  - vm_compute. reflexivity.
  - intros i Hi. exists (JsError "socket hang up").
    destruct i as [|i]; [reflexivity | lia].
  - reflexivity.
  - intros i Hi. lia.
Defined.

(** X7. [reset()] from any state leaves the breaker CLOSED with
    [failureCount = 0] and [halfOpenAttempts = 0], keeps [successCount],
    [lastFailureTime] and the constructor parameters, invokes nothing, and the
    next [execute] is let through: it invokes [fn] exactly once and settles on
    its outcome. *)
Theorem reset_lets_next_call_through :
  forall (T : Type) (fn : Callback T) (env : Env) (b : CircuitBreaker),
    exists env1 b1,
      reset (env, b) = (Ok tt, (env1, b1)) /\
      state b1 = CLOSED /\ failureCount b1 = 0 /\ halfOpenAttempts b1 = 0 /\
      successCount b1 = successCount b /\
      lastFailureTime b1 = lastFailureTime b /\
      sameConfig b b1 /\
      calls env1 = calls env /\ trace env1 = trace env /\
      execute fn (env1, b1) =
        afterCall (fn (calls env))
          (mkEnv (clk env1) (tick env1) (S (calls env)) (trace env ++ [EvCall]), b1).
Proof.
  intros T fn env b.
  assert (exists env1 b1,
             reset (env, b) = (Ok tt, (env1, b1)) /\
             state b1 = CLOSED /\ failureCount b1 = 0 /\ halfOpenAttempts b1 = 0 /\
             successCount b1 = successCount b /\
             lastFailureTime b1 = lastFailureTime b /\
             sameConfig b b1 /\
             calls env1 = calls env /\ trace env1 = trace env)
    as [env1 [b1 [Hrun [Hs [H1 [H2 [H3 [H4 [H5 [H6 H7]]]]]]]]]].
  { unfold sameConfig. destruct b as [st fc sc lft lsc hoa ft rt hm].
    destruct st; run_all; eexists; eexists; (split; [reflexivity|]); cbn; auto 10. }
  exists env1, b1. repeat (split; [assumption|]).
  rewrite (execute_admitted fn env1 env1 b1 b1 (beforeCall_closed env1 b1 Hs)).
  unfold called. rewrite H6, H7. reflexivity.
Qed.

(** X8. A promise that rejects while the breaker is already OPEN (its call was
    admitted earlier) counts as one more failure and moves [lastFailureTime] to
    the reading taken then, leaving the state OPEN: a call made
    [resetTimeoutMs] or more after the failure that opened the circuit, but
    less than [resetTimeoutMs] after this later one, is still refused. *)
Theorem late_failure_extends_window :
  forall (T U : Type) (fn : Callback U) (error : Thrown) (env env' : Env)
         (b : CircuitBreaker) (last : Z),
    state b = OPEN ->
    lastFailureTime b = Some last ->
    resetTimeoutMs b <= clk env' (tick env') - last ->
    clk env' (tick env') - clk env (tick env) < resetTimeoutMs b ->
    clk env' (S (tick env')) - clk env (tick env) < resetTimeoutMs b ->
    exists env1 b1 hint,
      afterCall (T:=T) (Throw error) (env, b) = (Throw error, (env1, b1)) /\
      state b1 = OPEN /\
      failureCount b1 = failureCount b + 1 /\
      lastFailureTime b1 = Some (clk env (tick env)) /\
      execute fn (env', b1) =
        (Throw (CircuitBreakerError (openMessage hint) hint),
         (mkEnv (clk env') (S (S (tick env'))) (calls env') (trace env'), b1)).
Proof.
  intros T U fn error env env' b last Hs Hl Hold H1 H2.
  rewrite afterCall_open_failure by exact Hs.
  eexists; eexists; eexists. split; [reflexivity|].
  split; [destruct b; cbn in *; assumption|].
  split; [reflexivity|]. split; [reflexivity|].
  apply (execute_open_wait fn env' _ (clk env (tick env))).
  - destruct b; cbn in *; assumption.
  - reflexivity.
  - exact H1.
  - exact H2.
Qed.

Lemma late_failure_extends_window_witness :
  exists env1 b1 hint,
    afterCall (T:=Z) (Throw (JsError "socket hang up")) (envAt [50000], tripped) =
      (Throw (JsError "socket hang up"), (env1, b1)) /\
    state b1 = OPEN /\
    failureCount b1 = failureCount tripped + 1 /\
    lastFailureTime b1 = Some (clk (envAt [50000]) (tick (envAt [50000]))) /\
    execute (alwaysReturns 7) (trialEnv, b1) =
      (Throw (CircuitBreakerError (openMessage hint) hint),
       (mkEnv (clk trialEnv) (S (S (tick trialEnv))) (calls trialEnv) (trace trialEnv), b1)).
Proof.
  apply (late_failure_extends_window Z Z (alwaysReturns 7) (JsError "socket hang up")
           (envAt [50000]) trialEnv tripped 1000).
  - reflexivity.
  - reflexivity.
  - vm_compute. discriminate.
  - vm_compute. reflexivity.
  - vm_compute. reflexivity.
Defined.

Lemma hint_max (remaining : Z) :
  (if 0 <? remaining then ceil_div remaining 1000 else 0) =
  Z.max 0 (ceil_div remaining 1000).
Proof.
  pose proof (ceil_div_spec remaining 1000 ltac:(lia)).
  destruct (0 <? remaining) eqn:E.
  - apply Z.ltb_lt in E. lia.
  - apply Z.ltb_ge in E. lia.
Qed.

(** X9. [getMetrics()] leaves the breaker as it is and invokes nothing.  While
    OPEN it reports [secondsUntilHalfOpen = max (0, ceil (remaining / 1000))]
    for the one clock reading it takes: never negative, 0 exactly when the
    timeout has elapsed, and otherwise the hint an [execute] reading the same
    clock value throws.  In any other state it reports [null] and does not
    read the clock. *)
Theorem metrics_agree_with_fail_fast :
  forall (T : Type) (fn : Callback T) (env : Env) (b : CircuitBreaker),
    exists m env1,
      getMetrics (env, b) = (Ok m, (env1, b)) /\
      calls env1 = calls env /\ trace env1 = trace env /\
      m_state m = state b /\ m_failureCount m = failureCount b /\
      m_successCount m = successCount b /\
      match state b, lastFailureTime b with
      | OPEN, Some last =>
          let now := clk env (tick env) in
          let s := Z.max 0 (ceil_div (resetTimeoutMs b - (now - last)) 1000) in
          m_secondsUntilHalfOpen m = Some s /\
          tick env1 = S (tick env) /\
          (s = 0 <-> resetTimeoutMs b <= now - last) /\
          (forall env2 : Env,
              clk env2 (tick env2) = now -> clk env2 (S (tick env2)) = now ->
              now - last < resetTimeoutMs b ->
              fst (execute fn (env2, b)) = Throw (CircuitBreakerError (openMessage s) s))
      | _, _ => m_secondsUntilHalfOpen m = None /\ env1 = env
      end.
Proof.
  intros T fn env b.
  destruct (state b) eqn:Hs; destruct (lastFailureTime b) as [last|] eqn:Hl.
  all: destruct b as [st fc sc lft lsc hoa ft rt hm]; cbn in Hs, Hl; subst st lft.
  all: unfold getMetrics, bind, ret, this, date_now;
       cbn [fst snd state lastFailureTime failureCount successCount lastStateChange
            resetTimeoutMs clk tick calls trace];
       eexists; eexists; (split; [reflexivity|]).
  all: cbn [calls trace tick m_state m_failureCount m_successCount m_secondsUntilHalfOpen
            state failureCount successCount resetTimeoutMs].
  all: repeat (split; [reflexivity|]); try reflexivity.
  split; [rewrite hint_max; reflexivity|]. split; [reflexivity|].
  pose proof (ceil_div_spec (rt - (clk env (tick env) - last)) 1000 ltac:(lia)) as Hc.
  split; [lia|].
  intros env2 E1 E2 Hlt.
  rewrite (execute_open_wait fn env2 _ last); cbn; try reflexivity; try lia.
  unfold retryHint. cbn. rewrite E2.
  replace (Z.max 0 (ceil_div (rt - (clk env (tick env) - last)) 1000))
    with (ceil_div (rt - (clk env (tick env) - last)) 1000) by lia.
  reflexivity.
Qed.

(** While HALF_OPEN with quota left, the call is let through and counted. *)
Lemma beforeCall_half_open_admitted (env : Env) (b : CircuitBreaker) :
  state b = HALF_OPEN ->
  halfOpenAttempts b < halfOpenMaxAttempts b ->
  beforeCall (env, b) = (Ok tt, (env, set_halfOpenAttempts (halfOpenAttempts b + 1) b)).
Proof.
  intros Hs Hq. destruct b; cbn in Hs, Hq; subst. run.
  assert ((halfOpenMaxAttempts0 <=? halfOpenAttempts0) = false) as ->
    by (apply Z.leb_gt; lia).
  reflexivity.
Qed.

Lemma admissions_half_open (k : nat) :
  forall (env : Env) (b : CircuitBreaker),
    state b = HALF_OPEN ->
    halfOpenAttempts b + Z.of_nat k <= halfOpenMaxAttempts b ->
    acts (repeat Begin k) (env, b) =
      (Ok tt, (env, set_halfOpenAttempts (halfOpenAttempts b + Z.of_nat k) b)).
Proof.
  induction k as [|k IH]; intros env b Hs Hq.
  - cbn [repeat acts]. unfold ret. rewrite Z.add_0_r. destruct b; reflexivity.
  - cbn [repeat acts act]. unfold bind at 1. unfold bind at 1. unfold try.
    rewrite beforeCall_half_open_admitted by (auto; lia).
    unfold ret. rewrite IH by (cbn; auto; lia).
    unfold set_halfOpenAttempts.
    cbn [state failureCount successCount lastFailureTime lastStateChange halfOpenAttempts
         failureThreshold resetTimeoutMs halfOpenMaxAttempts].
    replace (halfOpenAttempts b + 1 + Z.of_nat k)
      with (halfOpenAttempts b + Z.of_nat (S k)) by lia.
    reflexivity.
Qed.

(** X10. One HALF_OPEN episode admits exactly [halfOpenMaxAttempts] calls.
    From the state the OPEN to HALF_OPEN transition leaves
    ([halfOpenAttempts = 0]), the first [halfOpenMaxAttempts] calls that arrive
    before any of them settles are all let through, without a clock reading,
    and every call after them is refused with the hint 5 and changes nothing. *)
Theorem half_open_quota :
  forall (env : Env) (b : CircuitBreaker),
    state b = HALF_OPEN ->
    halfOpenAttempts b = 0 ->
    0 <= halfOpenMaxAttempts b ->
    (forall k, (k < Z.to_nat (halfOpenMaxAttempts b))%nat ->
               exists b',
                 acts (repeat Begin k) (env, b) = (Ok tt, (env, b')) /\
                 halfOpenAttempts b' = Z.of_nat k /\
                 fst (beforeCall (env, b')) = Ok tt) /\
    exists full,
      acts (repeat Begin (Z.to_nat (halfOpenMaxAttempts b))) (env, b) =
        (Ok tt, (env, full)) /\
      state full = HALF_OPEN /\
      halfOpenAttempts full = halfOpenMaxAttempts b /\
      forall env' : Env,
        beforeCall (env', full) =
          (Throw (CircuitBreakerError halfOpenMessage 5), (env', full)).
Proof.
  intros env b Hs Ha Hm. split.
  - intros k Hk. eexists. rewrite admissions_half_open by (auto; lia).
    split; [reflexivity|]. rewrite Ha. split; [reflexivity|].
    rewrite beforeCall_half_open_admitted; [reflexivity | destruct b; exact Hs |].
    destruct b; cbn in *. lia.
  - eexists. rewrite admissions_half_open by (auto; lia).
    split; [reflexivity|]. split; [destruct b; exact Hs|].
    split; [destruct b; cbn in *; lia|].
    intros env'. apply beforeCall_half_open_full.
    + destruct b; exact Hs.
    + destruct b; cbn in *. lia.
Qed.

Lemma half_open_quota_witness :
  (forall k, (k < Z.to_nat (halfOpenMaxAttempts threeTrials))%nat ->
             exists b',
               acts (repeat Begin k) (idle, threeTrials) = (Ok tt, (idle, b')) /\
               halfOpenAttempts b' = Z.of_nat k /\
               fst (beforeCall (idle, b')) = Ok tt) /\
  exists full,
    acts (repeat Begin (Z.to_nat (halfOpenMaxAttempts threeTrials))) (idle, threeTrials) =
      (Ok tt, (idle, full)) /\
    state full = HALF_OPEN /\
    halfOpenAttempts full = halfOpenMaxAttempts threeTrials /\
    forall env' : Env,
      beforeCall (env', full) =
        (Throw (CircuitBreakerError halfOpenMessage 5), (env', full)).
Proof.
  apply (half_open_quota idle threeTrials).
  - reflexivity.
  - reflexivity.
  - vm_compute. discriminate.
Defined.



(** The errors the breaker throws for hints below 500, classified one by one. *)
Lemma open_messages_not_retryable :
  forallb (fun n => negb (Retry.isRetryableError
                            (CircuitBreakerError (openMessage (Z.of_nat n)) (Z.of_nat n))))
          (seq 0 500) = true.
Proof. vm_compute. reflexivity. Qed.

(** X12. The retry executor does not retry the breaker's refusals.  The
    "recovery test in progress" error, and the "temporarily unavailable" error
    for any hint from 0 to 499 seconds, match no retryable signature, so a
    wrapped function that throws one of them is invoked once and the error is
    thrown again without a wait. *)
Theorem breaker_refusal_not_retried :
  forall (T : Type) (fn : Callback T) (maxRetries baseDelayMs : Z) (env : Env)
         (error : Thrown),
    1 <= maxRetries ->
    fn (calls env) = Throw error ->
    error = CircuitBreakerError halfOpenMessage 5 \/
    (exists s, 0 <= s < 500 /\ error = CircuitBreakerError (openMessage s) s) ->
    Retry.isRetryableError error = false /\
    Retry.executeWithRetry fn maxRetries baseDelayMs (env, tt) =
      (Throw error,
       (mkEnv (clk env) (tick env) (S (calls env)) (trace env ++ [EvCall]), tt)).
Proof.
  intros T fn maxRetries baseDelayMs env error Hmax Hfn Herr.
  assert (Retry.isRetryableError error = false) as Hclass.
  { destruct Herr as [-> | [s [Hs ->]]]; [reflexivity|].
    pose proof open_messages_not_retryable as Hall.
    rewrite forallb_forall in Hall.
    specialize (Hall (Z.to_nat s)). rewrite Z2Nat.id in Hall by lia.
    apply negb_true_iff, Hall, in_seq. lia. }
  split; [exact Hclass|].
  apply RetryProps.first_error_final; assumption.
Qed.

Lemma breaker_refusal_not_retried_witness :
  Retry.isRetryableError (CircuitBreakerError (openMessage 32) 32) = false /\
  Retry.executeWithRetry refused 3 1000 (idle, tt) =
    (Throw (CircuitBreakerError (openMessage 32) 32),
     (mkEnv (clk idle) (tick idle) (S (calls idle)) (trace idle ++ [EvCall]), tt)).
Proof.
  apply (breaker_refusal_not_retried Z refused 3 1000 idle).
  - lia.
  - reflexivity.
  - right. exists 32. split; [lia | reflexivity].
Defined.

(** At 500 seconds the hint itself reads as an HTTP status, and the refusal
    is classified as retryable. *)
Example refusal_with_hint_500_is_retryable :
  Retry.isRetryableError (CircuitBreakerError (openMessage 500) 500) = true.
Proof. reflexivity. Qed.
End BreakerMore.

(* ======================================================================= *)
(** * In-memory cache: invariants, round trips and background refresh    *)
(* ======================================================================= *)

Module LruMore.
Section LruMore.
Context {V : Type}.
Implicit Types (l : Lru.t V) (key k : string).

Lemma length_remove l key : (length (Lru.remove key l) <= length l)%nat.
Proof.
  induction l as [|[k v] l IH]; cbn [Lru.remove length]; [lia|].
  destruct (String.eqb k key); cbn [length]; lia.
Qed.

Lemma length_remove_found l key v :
  Lru.lookup key l = Some v -> (S (length (Lru.remove key l)) <= length l)%nat.
Proof.
  induction l as [|[k w] l IH]; cbn [Lru.lookup Lru.remove length]; [discriminate|].
  destruct (String.eqb k key).
  - intros _. pose proof (length_remove l key). lia.
  - intros H. cbn [length]. specialize (IH H). lia.
Qed.

Lemma NoDup_remove l key : List.NoDup (Lru.keys l) -> List.NoDup (Lru.keys (Lru.remove key l)).
Proof.
  unfold Lru.keys. induction l as [|[k v] l IH]; cbn [Lru.remove map fst]; [auto|].
  intros H. apply List.NoDup_cons_iff in H. destruct H as [Hnin Hnd].
  destruct (String.eqb k key); [auto|].
  cbn [map fst]. apply List.NoDup_cons_iff. split; [|auto].
  intros Hin. apply (LruFacts.keys_remove key k l) in Hin. tauto.
Qed.

Lemma NoDup_front l key v :
  List.NoDup (Lru.keys l) -> List.NoDup (Lru.keys ((key, v) :: Lru.remove key l)).
Proof.
  intros H. unfold Lru.keys. cbn [map fst]. apply List.NoDup_cons_iff. split.
  - intros Hin. apply (LruFacts.keys_remove key key l) in Hin. tauto.
  - apply NoDup_remove. exact H.
Qed.

Lemma NoDup_firstn {A} (n : nat) (l : list A) : List.NoDup l -> List.NoDup (firstn n l).
Proof.
  revert n. induction l as [|x l IH]; intros [|n] H; cbn [firstn];
    try apply List.NoDup_nil.
  apply List.NoDup_cons_iff in H. destruct H as [Hnin Hnd].
  apply List.NoDup_cons.
  - intros Hin. apply Hnin. revert Hin. clear. revert n.
    induction l as [|y l IH]; intros [|n]; cbn [firstn In]; try tauto.
    intros [<-|Hin]; [left; reflexivity | right; exact (IH n Hin)].
  - apply IH. exact Hnd.
Qed.

Lemma NoDup_set (max : nat) l key v :
  List.NoDup (Lru.keys l) -> List.NoDup (Lru.keys (Lru.set max key v l)).
Proof.
  intros H. unfold Lru.set, Lru.keys. rewrite <- firstn_map.
  apply NoDup_firstn. apply (NoDup_front l key v H).
Qed.

Lemma length_set (max : nat) l key v : (length (Lru.set max key v l) <= max)%nat.
Proof. unfold Lru.set. rewrite length_firstn. lia. Qed.

Lemma remove_absent l key : Lru.lookup key l = None -> Lru.remove key l = l.
Proof.
  induction l as [|[k v] l IH]; cbn [Lru.lookup Lru.remove]; [reflexivity|].
  destruct (String.eqb k key); [discriminate|]. intros H. rewrite IH by exact H. reflexivity.
Qed.

(** Removing the key of an entry whose key occurs nowhere else. *)
Lemma remove_middle (l1 l2 : Lru.t V) key v :
  Lru.lookup key l1 = None -> Lru.lookup key l2 = None ->
  Lru.remove key (l1 ++ (key, v) :: l2) = l1 ++ l2.
Proof.
  intros H1 H2. induction l1 as [|[k w] l1 IH]; cbn [app Lru.remove].
  - rewrite String.eqb_refl. apply remove_absent. exact H2.
  - cbn [Lru.lookup] in H1. destruct (String.eqb k key); [discriminate|].
    rewrite IH by exact H1. reflexivity.
Qed.

Lemma lookup_app l1 l2 key :
  Lru.lookup key (l1 ++ l2) =
    match Lru.lookup key l1 with Some v => Some v | None => Lru.lookup key l2 end.
Proof.
  induction l1 as [|[k w] l1 IH]; cbn [app Lru.lookup]; [reflexivity|].
  destruct (String.eqb k key); [reflexivity | exact IH].
Qed.
End LruMore.
End LruMore.

Module MemoryMore.
Import Js Cache MemoryCache Scenario JsFacts LruFacts LruMore.

Section Keeps.
Context {T : Type}.
Implicit Types (c : MemoryCache T) (env : Env).

Lemma keeps_ret {A} (a : A) : Keeps (T:=T) (ret a).
Proof. intros env c H. exact H. Qed.

Lemma keeps_bind {A B} (m : Method (T:=T) A) (k : A -> Method (T:=T) B) :
  Keeps m -> (forall a, Keeps (k a)) -> Keeps (bind m k).
Proof.
  intros Hm Hk env c H. unfold bind. specialize (Hm env c H).
  destruct (m (env, c)) as [[a|e] [env' c']]; cbn [snd] in Hm |- *.
  - apply Hk. exact Hm.
  - exact Hm.
Qed.

Lemma keeps_try {A} (m : Method (T:=T) A) : Keeps m -> Keeps (try m).
Proof.
  intros Hm env c H. unfold try. specialize (Hm env c H).
  destruct (m (env, c)) as [r w]. exact Hm.
Qed.

Lemma keeps_date_now : Keeps (T:=T) date_now.
Proof. intros env c H. exact H. Qed.

Lemma keeps_invoke (fn : Callback T) : Keeps (T:=T) (invoke fn).
Proof. intros env c H. exact H. Qed.

Lemma keeps_invokeUnawaited (fn : Callback T) : Keeps (T:=T) (invokeUnawaited fn).
Proof.
  intros env c H. unfold invokeUnawaited. cbn [fst snd].
  destruct (thrownAtOnce fn (calls env)); exact H.
Qed.

(** A method that first looks at the fields. *)
Lemma keeps_this {B} (k : MemoryCache T -> Method (T:=T) B) :
  (forall env c, WellFormed c -> WellFormed (snd (snd (k c (env, c))))) ->
  Keeps (bind this k).
Proof. intros Hk env c H. unfold bind, this. cbn [snd]. apply Hk. exact H. Qed.

Lemma keeps_assign (f : MemoryCache T -> MemoryCache T) :
  (forall c, WellFormed c -> WellFormed (f c)) -> Keeps (assign f).
Proof. intros Hf env c H. unfold assign. cbn [snd]. apply Hf, H. Qed.

Lemma keeps_cache_get (key : string) : Keeps (T:=T) (cache_get key).
Proof.
  apply keeps_this. intros env c [Hnd [Hlen [Hh Hm]]].
  unfold Lru.get. destruct (Lru.lookup key (cache c)) as [v|] eqn:Hl;
    unfold bind, assign, ret; cbn [fst snd];
    unfold WellFormed; cbn [cache hits misses set_cache].
  - split; [apply NoDup_front; exact Hnd|]. split; [|auto].
    cbn [length]. pose proof (length_remove_found _ _ _ Hl). lia.
  - auto.
Qed.

Lemma keeps_cache_delete (key : string) : Keeps (T:=T) (cache_delete key).
Proof.
  apply keeps_this. intros env c [Hnd [Hlen [Hh Hm]]].
  unfold Lru.delete, bind, assign, ret; cbn [fst snd].
  unfold WellFormed; cbn [cache hits misses set_cache].
  split; [apply NoDup_remove; exact Hnd|]. split; [|auto].
  pose proof (length_remove (cache c) key). lia.
Qed.

Lemma keeps_hit : Keeps (T:=T) hit.
Proof.
  apply keeps_assign. intros c [Hnd [Hlen [Hh Hm]]]. unfold WellFormed. cbn. auto with zarith.
Qed.

Lemma keeps_miss : Keeps (T:=T) miss.
Proof.
  apply keeps_assign. intros c [Hnd [Hlen [Hh Hm]]]. unfold WellFormed. cbn. auto with zarith.
Qed.

Lemma keeps_set (key : string) (data : T) (ttlMs : Z) : Keeps (set key data ttlMs).
Proof.
  apply keeps_bind; [apply keeps_date_now|]. intros now.
  apply keeps_assign. intros c [Hnd [Hlen [Hh Hm]]]. unfold WellFormed.
  cbn [cache hits misses set_cache].
  split; [apply NoDup_set; exact Hnd|]. split; [apply length_set | auto].
Qed.

Lemma keeps_fields (f : MemoryCache T -> MemoryCache T) :
  (forall c, cache (f c) = cache c /\ hits (f c) = hits c /\ misses (f c) = misses c) ->
  Keeps (assign f).
Proof.
  intros Hf. apply keeps_assign. intros c H. unfold WellFormed in *.
  destruct (Hf c) as [-> [-> ->]]. exact H.
Qed.

Lemma keeps_get (key : string) : Keeps (T:=T) (get key).
Proof.
  apply keeps_bind; [apply keeps_cache_get|]. intros [entry|].
  - apply keeps_bind; [apply keeps_date_now|]. intros now.
    destruct (expiresAt entry <? now).
    + apply keeps_bind; [apply keeps_cache_delete|]. intros _.
      apply keeps_bind; [apply keeps_miss|]. intros _. apply keeps_ret.
    + apply keeps_bind; [apply keeps_hit|]. intros _. apply keeps_ret.
  - apply keeps_bind; [apply keeps_miss|]. intros _. apply keeps_ret.
Qed.

Lemma keeps_has (key : string) : Keeps (T:=T) (has key).
Proof.
  apply keeps_bind; [apply keeps_cache_get|]. intros [entry|]; [|apply keeps_ret].
  apply keeps_bind; [apply keeps_date_now|]. intros now.
  destruct (expiresAt entry <? now); [|apply keeps_ret].
  apply keeps_bind; [apply keeps_cache_delete|]. intros _. apply keeps_ret.
Qed.

Lemma keeps_clear : Keeps (T:=T) clear.
Proof.
  intros env c H. unfold clear, bind, assign. cbn [fst snd].
  unfold WellFormed. cbn. repeat split; try lia. apply List.NoDup_nil.
Qed.

Lemma keeps_resetMetrics : Keeps (T:=T) resetMetrics.
Proof.
  intros env c [Hnd [Hlen _]]. unfold resetMetrics, bind, assign. cbn [fst snd].
  unfold WellFormed. cbn. repeat split; try lia; assumption.
Qed.

Lemma keeps_clearExpiredLoop (now : Z) (todo : list (string * CacheEntry T)) :
  forall cleared, Keeps (clearExpiredLoop now todo cleared).
Proof.
  induction todo as [|[key entry] todo IH]; intros cleared; cbn [clearExpiredLoop].
  - apply keeps_ret.
  - destruct (expiresAt entry <? now); [|apply IH].
    apply keeps_bind; [apply keeps_cache_delete|]. intros _. apply IH.
Qed.

Lemma keeps_clearExpired : Keeps (T:=T) clearExpired.
Proof.
  apply keeps_bind; [apply keeps_date_now|]. intros now.
  apply keeps_this. intros env c H. apply keeps_clearExpiredLoop. exact H.
Qed.

Lemma keeps_stats : Keeps (T:=T) stats.
Proof.
  apply keeps_bind; [apply keeps_clearExpired|]. intros _.
  apply keeps_this. intros env c H. exact H.
Qed.

Lemma keeps_startRefresh (key : string) (fn : Callback T) (ttlMs : Z) :
  Keeps (startRefresh key fn ttlMs).
Proof.
  apply keeps_this. intros env c H.
  destruct (bool_decide (key ∈ refreshingKeys c)); [exact H|].
  revert env c H. change (Keeps (T:=T)
    (bind (assign (fun c => set_refreshingKeys ({[key]} ∪ refreshingKeys c) c))
          (fun _ => bind (invokeUnawaited fn)
             (fun promise => assign (fun c =>
                set_pending (pending c ++ [mkRefresh key promise ttlMs]) c))))).
  apply keeps_bind; [apply keeps_fields; intros c; auto|]. intros _.
  apply keeps_bind; [apply keeps_invokeUnawaited|]. intros promise.
  apply keeps_fields. intros c. auto.
Qed.

Lemma keeps_fetchFresh (key : string) (fn : Callback T) (ttlMs : Z) :
  Keeps (fetchFresh key fn ttlMs).
Proof.
  apply keeps_bind; [apply keeps_miss|]. intros _.
  apply keeps_bind; [apply keeps_invoke|]. intros freshData.
  apply keeps_bind; [apply keeps_set|]. intros _. apply keeps_ret.
Qed.

Lemma keeps_getWithRefresh (key : string) (fn : Callback T) (ttlMs pct : Z) :
  Keeps (getWithRefresh key fn ttlMs pct).
Proof.
  apply keeps_bind; [apply keeps_cache_get|]. intros entry.
  apply keeps_bind; [apply keeps_date_now|]. intros now.
  destruct entry as [entry|]; [|apply keeps_fetchFresh].
  destruct (Qltb _ _).
  - apply keeps_bind; [apply keeps_hit|]. intros _. apply keeps_ret.
  - destruct (now <? expiresAt entry).
    + apply keeps_bind; [apply keeps_hit|]. intros _.
      apply keeps_bind; [apply keeps_startRefresh|]. intros _. apply keeps_ret.
    + apply keeps_bind; [apply keeps_cache_delete|]. intros _. apply keeps_fetchFresh.
Qed.

Lemma keeps_settleRefresh : Keeps (T:=T) settleRefresh.
Proof.
  apply keeps_this. intros env c H.
  destruct (pending c) as [|r rest]; [exact H|].
  revert env c H. change (Keeps (T:=T)
    (bind (assign (set_pending rest))
       (fun _ => bind (match r_outcome r with
                       | Ok freshData => set (r_key r) freshData (r_ttlMs r)
                       | Throw _ => ret tt
                       end)
          (fun _ => assign (fun c =>
             set_refreshingKeys (refreshingKeys c ∖ {[r_key r]}) c))))).
  apply keeps_bind; [apply keeps_fields; intros c; auto|]. intros _.
  apply keeps_bind.
  - destruct (r_outcome r); [apply keeps_set | apply keeps_ret].
  - intros _. apply keeps_fields. intros c. auto.
Qed.

Lemma keeps_perform (call : Call (T:=T)) : Keeps (perform call).
Proof.
  destruct call; cbn [perform];
    (apply keeps_bind; [apply keeps_try | intros _; apply keeps_ret]).
  - apply keeps_get.
  - apply keeps_set.
  - apply keeps_has.
  - apply keeps_cache_delete.
  - apply keeps_clear.
  - apply keeps_clearExpired.
  - apply keeps_stats.
  - apply keeps_getWithRefresh.
  - apply keeps_settleRefresh.
  - apply keeps_resetMetrics.
Qed.

Lemma keeps_performAll (l : list (Call (T:=T))) : Keeps (performAll l).
Proof.
  induction l as [|call l IH]; cbn [performAll].
  - apply keeps_ret.
  - apply keeps_bind; [apply keeps_perform | intros _; exact IH].
Qed.
End Keeps.

(** X13. However a new in-memory cache is used (any sequence of [get], [set],
    [has], [delete], [clear], [clearExpired], [stats], [getWithRefresh] with
    any callbacks, settlements of background refreshes and [resetMetrics], at
    any clock readings) it never holds more than [MAX_SIZE] = 500 entries, it
    holds no key twice, and [hits] and [misses] are never negative. *)
Theorem memory_cache_well_formed_always :
  forall (T : Type) (l : list (Call (T:=T))) (env : Env),
    WellFormed (snd (snd (performAll l (env, MemoryCache.new)))).
Proof.
  intros T l env. apply keeps_performAll.
  unfold WellFormed, MemoryCache.new, MAX_SIZE. cbn.
  repeat split; try lia. apply List.NoDup_nil.
Qed.

(** X14. What [set] stores, [get] returns: a [get] whose clock reading is at
    most [ttlMs] after the one [set] took returns the data and counts one hit,
    whatever the cache held before; [has] at such a reading answers [true]
    and counts nothing. *)
Theorem set_then_get_round_trip :
  forall (T : Type) (key : string) (data : T) (ttlMs : Z) (env : Env)
         (c : MemoryCache T),
    clk env (S (tick env)) <= clk env (tick env) + ttlMs ->
    (exists c1,
        get key (snd (set key data ttlMs (env, c))) =
          (Ok (Some data),
           (mkEnv (clk env) (S (S (tick env))) (calls env) (trace env), c1)) /\
        hits c1 = hits c + 1 /\ misses c1 = misses c) /\
    (exists c1,
        has key (snd (set key data ttlMs (env, c))) =
          (Ok true, (mkEnv (clk env) (S (S (tick env))) (calls env) (trace env), c1)) /\
        hits c1 = hits c /\ misses c1 = misses c).
Proof.
  intros T key data ttlMs env c Hle.
  rewrite MemoryProps.set_eq. cbn [snd].
  set (entry := mkEntry data (clk env (tick env)) (clk env (tick env) + ttlMs)).
  set (c0 := set_cache _ c).
  assert (Lru.lookup key (cache c0) = Some entry) as Hlook.
  { apply lookup_set_same. unfold MAX_SIZE. lia. }
  split.
  - rewrite (MemoryProps.get_valid key (ticked 1 env) c0 entry Hlook) by exact Hle.
    eexists. split; [reflexivity|]. split; reflexivity.
  - rewrite (MemoryProps.has_valid key (ticked 1 env) c0 entry Hlook) by exact Hle.
    eexists. split; [reflexivity|]. split; reflexivity.
Qed.

Lemma set_then_get_round_trip_witness :
  (exists c1,
      get "x" (snd (set "x" 42 1000 (envAt [0; 1000], emptyMemory))) =
        (Ok (Some 42),
         (mkEnv (clk (envAt [0; 1000])) (S (S (tick (envAt [0; 1000]))))
                (calls (envAt [0; 1000])) (trace (envAt [0; 1000])), c1)) /\
      hits c1 = hits emptyMemory + 1 /\ misses c1 = misses emptyMemory) /\
  (exists c1,
      has "x" (snd (set "x" 42 1000 (envAt [0; 1000], emptyMemory))) =
        (Ok true,
         (mkEnv (clk (envAt [0; 1000])) (S (S (tick (envAt [0; 1000]))))
                (calls (envAt [0; 1000])) (trace (envAt [0; 1000])), c1)) /\
      hits c1 = hits emptyMemory /\ misses c1 = misses emptyMemory).
Proof.
  apply (set_then_get_round_trip Z "x" 42 1000 (envAt [0; 1000]) emptyMemory).
  vm_compute. discriminate.
Defined.

Lemma delete_eq {T} (key : string) (env : Env) (c : MemoryCache T) :
  delete key (env, c) =
    (Ok (match Lru.lookup key (cache c) with Some _ => true | None => false end),
     (env, set_cache (Lru.remove key (cache c)) c)).
Proof. reflexivity. Qed.

(** X15. [delete] answers [true] exactly when the store held an entry for the
    key, expired or not, and touches neither the counters nor any other key.
    Afterwards the key is gone: [get] is a miss, [has] is [false] and a second
    [delete] answers [false]. *)
Theorem delete_removes_key :
  forall (T : Type) (key : string) (env : Env) (c : MemoryCache T),
    exists c1,
      delete key (env, c) =
        (Ok (match Lru.lookup key (cache c) with Some _ => true | None => false end),
         (env, c1)) /\
      hits c1 = hits c /\ misses c1 = misses c /\
      (forall k, k <> key -> Lru.lookup k (cache c1) = Lru.lookup k (cache c)) /\
      (forall env2 : Env,
          get key (env2, c1) = (Ok None, (env2, set_misses (misses c1 + 1) c1)) /\
          has key (env2, c1) = (Ok false, (env2, c1)) /\
          fst (delete key (env2, c1)) = Ok false).
Proof.
  intros T key env c.
  exists (set_cache (Lru.remove key (cache c)) c). split; [apply delete_eq|].
  assert (Lru.lookup key (cache (set_cache (Lru.remove key (cache c)) c)) = None) as Hgone
    by apply lookup_remove_same.
  split; [reflexivity|]. split; [reflexivity|]. split.
  - intros k Hk. apply lookup_remove_other. exact Hk.
  - intros env2.
    split; [apply MemoryProps.get_missing; exact Hgone|].
    split; [apply MemoryProps.has_missing; exact Hgone|].
    rewrite delete_eq, Hgone. reflexivity.
Qed.

(** The stale branch: the old data at once, and a refresh unless one is
    already in flight for the key. *)
Lemma getWithRefresh_stale {T} (key : string) (fn : Callback T) (ttlMs pct : Z)
      (env : Env) (c : MemoryCache T) (entry : CacheEntry T) :
  Lru.lookup key (cache c) = Some entry ->
  Qltb (inject_Z (clk env (tick env))) (refreshThreshold entry ttlMs pct) = false ->
  clk env (tick env) < expiresAt entry ->
  getWithRefresh key fn ttlMs pct (env, c) =
    if bool_decide (key ∈ refreshingKeys c) then
      (Ok (data entry),
       (ticked 1 env,
        set_hits (hits c + 1) (set_cache ((key, entry) :: Lru.remove key (cache c)) c)))
    else
      let marked :=
        set_refreshingKeys ({[key]} ∪ refreshingKeys c)
          (set_hits (hits c + 1)
             (set_cache ((key, entry) :: Lru.remove key (cache c)) c)) in
      match thrownAtOnce fn (calls env) with
      | Some e => (Throw e, (called (ticked 1 env), marked))
      | None =>
          (Ok (data entry),
           (called (ticked 1 env),
            set_pending (pending c ++ [mkRefresh key (fn (calls env)) ttlMs]) marked))
      end.
Proof.
  intros H Hfresh Hval. destruct c as [l h m rk pd]. cbn in H.
  unfold getWithRefresh, cache_get, Lru.get, bind, this, assign, date_now, ret, hit.
  cbn [fst snd cache]. rewrite H. cbn [fst snd clk tick]. rewrite Hfresh.
  apply Z.ltb_lt in Hval. rewrite Hval.
  unfold startRefresh, bind, this, assign, invokeUnawaited, ret.
  cbn [fst snd cache hits misses refreshingKeys pending set_hits set_cache
       set_refreshingKeys set_pending clk tick calls trace].
  destruct (bool_decide (key ∈ rk)); [reflexivity|].
  cbv zeta. cbn [fst snd calls clk tick trace ticked].
  destruct (thrownAtOnce fn (calls env)); reflexivity.
Qed.


Lemma NoDup_lookup_split {T} (l1 l2 : Lru.t (CacheEntry T)) (key : string)
      (entry : CacheEntry T) :
  List.NoDup (Lru.keys (l1 ++ (key, entry) :: l2)) ->
  Lru.lookup key l1 = None /\ Lru.lookup key l2 = None.
Proof.
  unfold Lru.keys. rewrite map_app. cbn [map fst]. intros H.
  apply List.NoDup_remove_2 in H. split; apply lookup_None_keys; intros Hin; apply H;
    apply in_or_app; [left | right]; exact Hin.
Qed.

Lemma clearExpiredLoop_filter {T} (now : Z) (todo : Lru.t (CacheEntry T)) :
  forall (kept : Lru.t (CacheEntry T)) (cleared : Z) (env : Env) (c : MemoryCache T),
    cache c = kept ++ todo ->
    List.NoDup (Lru.keys (kept ++ todo)) ->
    clearExpiredLoop now todo cleared (env, c) =
      (Ok (cleared + (Z.of_nat (length todo) - Z.of_nat (length (survivors now todo)))),
       (env, set_cache (kept ++ survivors now todo) c)).
Proof.
  induction todo as [|[key entry] todo IH]; intros kept cleared env c Hc Hnd.
  - cbn [clearExpiredLoop survivors List.filter length]. unfold ret.
    rewrite app_nil_r in *. rewrite <- Hc. destruct c; cbn. do 2 f_equal. lia.
  - cbn [clearExpiredLoop survivors List.filter snd].
    destruct (expiresAt entry <? now) eqn:Hexp; cbn [negb].
    + unfold bind at 1. unfold cache_delete, bind, this, assign, ret, Lru.delete.
      cbn [fst snd]. rewrite Hc.
      destruct (NoDup_lookup_split kept todo key entry Hnd) as [H1 H2].
      rewrite (remove_middle kept todo key entry H1 H2).
      rewrite (IH kept (cleared + 1) env (set_cache (kept ++ todo) c)).
      * cbn [length]. fold (survivors now todo). destruct c; cbn. do 2 f_equal. lia.
      * reflexivity.
      * unfold Lru.keys in *. rewrite map_app in *. cbn [map fst] in Hnd.
        apply List.NoDup_remove_1 in Hnd. exact Hnd.
    + rewrite (IH (kept ++ [(key, entry)]) cleared env c).
      * cbn [length]. fold (survivors now todo). rewrite <- app_assoc. cbn [app].
        do 2 f_equal. lia.
      * rewrite <- app_assoc. exact Hc.
      * rewrite <- app_assoc. exact Hnd.
Qed.

Lemma lookup_survivors {T} (now : Z) (l : Lru.t (CacheEntry T)) (key : string) :
  List.NoDup (Lru.keys l) ->
  Lru.lookup key (survivors now l) =
    match Lru.lookup key l with
    | Some entry => if expiresAt entry <? now then None else Some entry
    | None => None
    end.
Proof.
  induction l as [|[k entry] l IH]; intros Hnd; [reflexivity|].
  unfold Lru.keys in Hnd. cbn [map fst] in Hnd.
  apply List.NoDup_cons_iff in Hnd. destruct Hnd as [Hnin Hnd].
  cbn [survivors List.filter snd Lru.lookup].
  destruct (String.eqb k key) eqn:E.
  - apply String.eqb_eq in E. subst k.
    destruct (expiresAt entry <? now); cbn [negb Lru.lookup].
    + fold (survivors now l). rewrite (IH Hnd).
      apply (proj2 (lookup_None_keys key l)) in Hnin. rewrite Hnin. reflexivity.
    + rewrite String.eqb_refl. reflexivity.
  - destruct (expiresAt entry <? now); cbn [negb Lru.lookup].
    + exact (IH Hnd).
    + rewrite E. exact (IH Hnd).
Qed.

Lemma clearExpired_eq {T} (env : Env) (c : MemoryCache T) :
  List.NoDup (Lru.keys (cache c)) ->
  clearExpired (env, c) =
    (Ok (Z.of_nat (length (cache c)) -
         Z.of_nat (length (survivors (clk env (tick env)) (cache c)))),
     (ticked 1 env, set_cache (survivors (clk env (tick env)) (cache c)) c)).
Proof.
  intros Hnd. unfold clearExpired, bind, date_now, this. cbn [fst snd].
  rewrite (clearExpiredLoop_filter _ _ [] 0); [|reflexivity|exact Hnd].
  reflexivity.
Qed.

(** X17. On a cache that holds no key twice, [clearExpired] removes exactly
    the entries with [expiresAt < now] for the one clock reading it takes,
    keeps every other entry in place and in order, returns the number of
    entries it removed, and leaves the counters alone. *)
Theorem clearExpired_removes_exactly_expired :
  forall (T : Type) (env : Env) (c : MemoryCache T),
    List.NoDup (Lru.keys (cache c)) ->
    exists c1,
      clearExpired (env, c) =
        (Ok (Z.of_nat (length (cache c)) - Z.of_nat (length (cache c1))),
         (mkEnv (clk env) (S (tick env)) (calls env) (trace env), c1)) /\
      hits c1 = hits c /\ misses c1 = misses c /\
      cache c1 =
        List.filter (fun kv => negb (expiresAt (snd kv) <? clk env (tick env))) (cache c) /\
      forall key,
        Lru.lookup key (cache c1) =
          match Lru.lookup key (cache c) with
          | Some entry => if expiresAt entry <? clk env (tick env) then None else Some entry
          | None => None
          end.
Proof.
  intros T env c Hnd.
  exists (set_cache (survivors (clk env (tick env)) (cache c)) c).
  split; [|split; [reflexivity|split; [reflexivity|split; [reflexivity|]]]].
  - rewrite (clearExpired_eq env c Hnd). reflexivity.
  - intros key. apply lookup_survivors. exact Hnd.
Qed.

Lemma clearExpired_removes_exactly_expired_witness :
  exists c1,
    clearExpired (envAt [1100], memoryWithX) =
      (Ok (Z.of_nat (length (cache memoryWithX)) - Z.of_nat (length (cache c1))),
       (mkEnv (clk (envAt [1100])) (S (tick (envAt [1100]))) (calls (envAt [1100]))
              (trace (envAt [1100])), c1)) /\
    hits c1 = hits memoryWithX /\ misses c1 = misses memoryWithX /\
    cache c1 =
      List.filter (fun kv => negb (expiresAt (snd kv) <? clk (envAt [1100])
                                                           (tick (envAt [1100]))))
                  (cache memoryWithX) /\
    forall key,
      Lru.lookup key (cache c1) =
        match Lru.lookup key (cache memoryWithX) with
        | Some entry =>
            if expiresAt entry <? clk (envAt [1100]) (tick (envAt [1100]))
            then None else Some entry
        | None => None
        end.
Proof.
  apply (clearExpired_removes_exactly_expired Z (envAt [1100]) memoryWithX).
  vm_compute. repeat constructor. intros [].
Defined.

(** X18. On a cache that holds no key twice, [stats()] reports exactly the
    keys whose entry has [now <= expiresAt] at its clock reading, each once,
    with [size] their number; the counters are unchanged. *)
Theorem stats_reports_unexpired_keys :
  forall (T : Type) (env : Env) (c : MemoryCache T),
    List.NoDup (Lru.keys (cache c)) ->
    exists st c1,
      stats (env, c) =
        (Ok st, (mkEnv (clk env) (S (tick env)) (calls env) (trace env), c1)) /\
      hits c1 = hits c /\ misses c1 = misses c /\
      size st = Z.of_nat (length (keys st)) /\
      List.NoDup (keys st) /\
      forall key,
        In key (keys st) <->
        exists entry, Lru.lookup key (cache c) = Some entry /\
                      clk env (tick env) <= expiresAt entry.
Proof.
  intros T env c Hnd.
  set (now := clk env (tick env)).
  exists (mkStats (Lru.size (survivors now (cache c))) (Lru.keys (survivors now (cache c)))),
         (set_cache (survivors now (cache c)) c).
  assert (List.NoDup (Lru.keys (survivors now (cache c)))) as Hnd'.
  { clear -Hnd. unfold Lru.keys in *. induction (cache c) as [|[k e] l IH]; [exact Hnd|].
    cbn [map fst] in Hnd. apply List.NoDup_cons_iff in Hnd. destruct Hnd as [Hnin Hnd].
    cbn [survivors List.filter snd]. destruct (negb _).
    - cbn [map fst]. apply List.NoDup_cons; [|exact (IH Hnd)].
      intros Hin. apply Hnin. fold (survivors now l) in Hin.
      apply in_map_iff in Hin. destruct Hin as [[k' e'] [Hk Hin]]. cbn in Hk. subst k'.
      apply filter_In in Hin. destruct Hin as [Hin _].
      apply in_map_iff. exists (k, e'). auto.
    - exact (IH Hnd). }
  split; [|split; [reflexivity|split; [reflexivity|split; [|split; [exact Hnd'|]]]]].
  - unfold stats. unfold bind at 1. rewrite (clearExpired_eq env c Hnd).
    reflexivity.
  - cbn [size keys]. unfold Lru.size, Lru.keys. rewrite length_map. reflexivity.
  - intros key. cbn [keys].
    pose proof (lookup_None_keys key (survivors now (cache c))) as Hnone.
    rewrite (lookup_survivors now (cache c) key Hnd) in Hnone.
    destruct (in_dec string_dec key (Lru.keys (survivors now (cache c)))) as [Hin|Hnin].
    + split; [intros _|intros _; exact Hin].
      destruct (Lru.lookup key (cache c)) as [entry|].
      * destruct (expiresAt entry <? now) eqn:E.
        -- exfalso. apply (proj1 Hnone); [reflexivity | exact Hin].
        -- apply Z.ltb_ge in E. exists entry. auto.
      * exfalso. apply (proj1 Hnone); [reflexivity | exact Hin].
    + split; [intros Hin; contradiction|].
      intros [entry [He Hle]]. rewrite He in Hnone.
      assert ((expiresAt entry <? now) = false) as E by (apply Z.ltb_ge; exact Hle).
      rewrite E in Hnone. apply (proj2 Hnone) in Hnin. discriminate.
Qed.

Lemma stats_reports_unexpired_keys_witness :
  exists st c1,
    stats (envAt [700], memoryWithX) =
      (Ok st, (mkEnv (clk (envAt [700])) (S (tick (envAt [700]))) (calls (envAt [700]))
                     (trace (envAt [700])), c1)) /\
    hits c1 = hits memoryWithX /\ misses c1 = misses memoryWithX /\
    size st = Z.of_nat (length (keys st)) /\
    List.NoDup (keys st) /\
    forall key,
      In key (keys st) <->
      exists entry, Lru.lookup key (cache memoryWithX) = Some entry /\
                    clk (envAt [700]) (tick (envAt [700])) <= expiresAt entry.
Proof.
  apply (stats_reports_unexpired_keys Z (envAt [700]) memoryWithX).
  vm_compute. repeat constructor. intros [].
Defined.

(** X19. Stale-while-revalidate starts one refresh per key.  When the entry
    is past its refresh threshold but not yet expired and no refresh is in
    flight for the key, [getWithRefresh] counts a hit, records the key as
    refreshing and invokes [refreshFn] once, without [await].  When that call
    returns a promise (as every [async] function does, also one that fails),
    the cached data is returned at once and the handlers wait for the promise
    to settle.  When the call throws before returning a promise, the exception
    leaves [getWithRefresh] in place of the data, and no handler is left that
    would take the key out of [refreshingKeys].  In both cases, as long as the
    key is recorded as refreshing, every further [getWithRefresh] for it made
    before [expiresAt], with any callback, returns the cached data, counts a
    hit and invokes nothing. *)
Theorem stale_entry_refreshed_once :
  forall (T : Type) (key : string) (fn : Callback T) (ttlMs pct : Z) (env : Env)
         (c : MemoryCache T) (entry : CacheEntry T),
    Lru.lookup key (cache c) = Some entry ->
    key ∉ refreshingKeys c ->
    ~ (inject_Z (clk env (tick env)) < refreshThreshold entry ttlMs pct)%Q ->
    clk env (tick env) < expiresAt entry ->
    exists c1,
      snd (getWithRefresh key fn ttlMs pct (env, c)) =
        (mkEnv (clk env) (S (tick env)) (S (calls env)) (trace env ++ [EvCall]), c1) /\
      hits c1 = hits c + 1 /\ misses c1 = misses c /\
      Lru.lookup key (cache c1) = Some entry /\
      key ∈ refreshingKeys c1 /\
      match thrownAtOnce fn (calls env) with
      | None =>
          fst (getWithRefresh key fn ttlMs pct (env, c)) = Ok (data entry) /\
          pending c1 = pending c ++ [mkRefresh key (fn (calls env)) ttlMs]
      | Some e =>
          fst (getWithRefresh key fn ttlMs pct (env, c)) = Throw e /\
          pending c1 = pending c
      end /\
      forall (c2 : MemoryCache T) (fn2 : Callback T) (ttlMs2 pct2 : Z) (env2 : Env),
        Lru.lookup key (cache c2) = Some entry ->
        key ∈ refreshingKeys c2 ->
        clk env2 (tick env2) < expiresAt entry ->
        exists c3,
          getWithRefresh key fn2 ttlMs2 pct2 (env2, c2) =
            (Ok (data entry),
             (mkEnv (clk env2) (S (tick env2)) (calls env2) (trace env2), c3)) /\
          hits c3 = hits c2 + 1 /\ misses c3 = misses c2 /\
          pending c3 = pending c2 /\
          Lru.lookup key (cache c3) = Some entry /\
          key ∈ refreshingKeys c3.
Proof.
  intros T key fn ttlMs pct env c entry Hlook Hfree Hstale Hval.
  assert (Qltb (inject_Z (clk env (tick env))) (refreshThreshold entry ttlMs pct) = false)
    as Hq.
  { destruct (Qltb _ _) eqn:E; [|reflexivity]. apply Qltb_spec in E. contradiction. }
  rewrite (getWithRefresh_stale key fn ttlMs pct env c entry Hlook Hq Hval).
  rewrite bool_decide_eq_false_2 by exact Hfree. cbv zeta.
  assert (forall (c2 : MemoryCache T) (fn2 : Callback T) (ttlMs2 pct2 : Z) (env2 : Env),
             Lru.lookup key (cache c2) = Some entry ->
             key ∈ refreshingKeys c2 ->
             clk env2 (tick env2) < expiresAt entry ->
             exists c3,
               getWithRefresh key fn2 ttlMs2 pct2 (env2, c2) =
                 (Ok (data entry),
                  (mkEnv (clk env2) (S (tick env2)) (calls env2) (trace env2), c3)) /\
               hits c3 = hits c2 + 1 /\ misses c3 = misses c2 /\
               pending c3 = pending c2 /\
               Lru.lookup key (cache c3) = Some entry /\
               key ∈ refreshingKeys c3) as Hbusy.
  { intros c2 fn2 ttlMs2 pct2 env2 Hlook2 Hbusy Hval2.
    destruct (Qltb (inject_Z (clk env2 (tick env2))) (refreshThreshold entry ttlMs2 pct2))
      eqn:Hq2.
    - rewrite (MemoryProps.getWithRefresh_fresh key fn2 ttlMs2 pct2 env2 c2 entry Hlook2 Hq2).
      eexists. split; [reflexivity|].
      cbn [hits misses pending cache refreshingKeys set_hits set_cache Lru.lookup].
      rewrite String.eqb_refl. auto.
    - rewrite (getWithRefresh_stale key fn2 ttlMs2 pct2 env2 c2 entry Hlook2 Hq2 Hval2).
      rewrite bool_decide_eq_true_2 by exact Hbusy.
      eexists. split; [reflexivity|].
      cbn [hits misses pending cache refreshingKeys set_hits set_cache Lru.lookup].
      rewrite String.eqb_refl. auto. }
  destruct (thrownAtOnce fn (calls env)) as [e|];
    (eexists; split; [reflexivity|]);
    cbn [fst snd hits misses pending cache refreshingKeys set_pending set_refreshingKeys
         set_hits set_cache Lru.lookup];
    rewrite String.eqb_refl;
    (split; [reflexivity|]); (split; [reflexivity|]); (split; [reflexivity|]);
    (split; [apply elem_of_union_l, elem_of_singleton; reflexivity|]);
    (split; [split; reflexivity | exact Hbusy]).
Qed.

Lemma stale_entry_refreshed_once_witness :
  exists c1,
    snd (getWithRefresh "x" (alwaysReturns 7) 1000 80 (envAt [900], memoryWithX)) =
      (mkEnv (clk (envAt [900])) (S (tick (envAt [900]))) (S (calls (envAt [900])))
             (trace (envAt [900]) ++ [EvCall]), c1) /\
    hits c1 = hits memoryWithX + 1 /\ misses c1 = misses memoryWithX /\
    Lru.lookup "x" (cache c1) = Some (mkEntry 42 0 1000) /\
    "x"%string ∈ refreshingKeys c1 /\
    match thrownAtOnce (alwaysReturns 7) (calls (envAt [900])) with
    | None =>
        fst (getWithRefresh "x" (alwaysReturns 7) 1000 80 (envAt [900], memoryWithX)) =
          Ok (data (mkEntry 42 0 1000)) /\
        pending c1 =
          pending memoryWithX ++
          [mkRefresh "x" (alwaysReturns 7 (calls (envAt [900]))) 1000]
    | Some e =>
        fst (getWithRefresh "x" (alwaysReturns 7) 1000 80 (envAt [900], memoryWithX)) =
          Throw e /\
        pending c1 = pending memoryWithX
    end /\
    forall (c2 : MemoryCache Z) (fn2 : Callback Z) (ttlMs2 pct2 : Z) (env2 : Env),
      Lru.lookup "x" (cache c2) = Some (mkEntry 42 0 1000) ->
      "x"%string ∈ refreshingKeys c2 ->
      clk env2 (tick env2) < expiresAt (mkEntry 42 0 1000) ->
      exists c3,
        getWithRefresh "x" fn2 ttlMs2 pct2 (env2, c2) =
          (Ok (data (mkEntry 42 0 1000)),
           (mkEnv (clk env2) (S (tick env2)) (calls env2) (trace env2), c3)) /\
        hits c3 = hits c2 + 1 /\ misses c3 = misses c2 /\
        pending c3 = pending c2 /\
        Lru.lookup "x" (cache c3) = Some (mkEntry 42 0 1000) /\
        "x"%string ∈ refreshingKeys c3.
Proof.
  apply (stale_entry_refreshed_once Z "x" (alwaysReturns 7) 1000 80 (envAt [900])
           memoryWithX (mkEntry 42 0 1000)).
  - reflexivity.
  - vm_compute. set_solver.
  - vm_compute. discriminate.
  - vm_compute. reflexivity.
Defined.

(** A plain function that throws in the stale branch: the caller of
    [getWithRefresh] gets the exception instead of the cached data, the hit is
    counted, and the key stays in [refreshingKeys] with nothing left to settle,
    so that a later stale read starts no refresh. *)
Example stale_refresh_thrown_at_once :
  let r := getWithRefresh "x" (throwsAtOnce "lookup failed") 1000 80
             (envAt [900; 950], memoryWithX) in
  fst r = Throw (JsError "lookup failed") /\
  hits (snd (snd r)) = 1 /\
  pending (snd (snd r)) = [] /\
  settleRefresh (snd r) = (Ok tt, snd r) /\
  (let r2 := getWithRefresh "x" (alwaysReturns 7) 1000 80 (snd r) in
   fst r2 = Ok 42 /\ calls (fst (snd r2)) = calls (fst (snd r)) /\ pending (snd (snd r2)) = []).
Proof.
  assert (getWithRefresh "x" (throwsAtOnce "lookup failed") 1000 80
            (envAt [900; 950], memoryWithX) =
          (Throw (JsError "lookup failed"),
           (called (ticked 1 (envAt [900; 950])),
            set_refreshingKeys ({["x"%string]} ∪ refreshingKeys memoryWithX)
              (set_hits (hits memoryWithX + 1)
                 (set_cache (("x"%string, mkEntry 42 0 1000)
                             :: Lru.remove "x" (cache memoryWithX)) memoryWithX)))))
    as Hfirst.
  { rewrite (getWithRefresh_stale "x" (throwsAtOnce "lookup failed") 1000 80
               (envAt [900; 950]) memoryWithX (mkEntry 42 0 1000));
      [|reflexivity|reflexivity|vm_compute; reflexivity].
    rewrite bool_decide_eq_false_2 by (vm_compute; set_solver). reflexivity. }
  cbv zeta. rewrite Hfirst. cbn [fst snd].
  split; [reflexivity|]. split; [reflexivity|]. split; [reflexivity|].
  split; [reflexivity|].
  rewrite (getWithRefresh_stale "x" (alwaysReturns 7) 1000 80 _ _ (mkEntry 42 0 1000));
    [|reflexivity|reflexivity|vm_compute; reflexivity].
  rewrite bool_decide_eq_true_2
    by (cbn [refreshingKeys set_refreshingKeys];
        apply elem_of_union_l, elem_of_singleton; reflexivity).
  repeat split.
Qed.

Lemma settleRefresh_eq {T} (r : Refresh T) (rest : list (Refresh T)) (env : Env)
      (c : MemoryCache T) :
  pending c = r :: rest ->
  settleRefresh (env, c) =
    match r_outcome r with
    | Ok freshData =>
        (Ok tt,
         (ticked 1 env,
          set_refreshingKeys (refreshingKeys c ∖ {[r_key r]})
            (set_cache (Lru.set MAX_SIZE (r_key r)
                          (mkEntry freshData (clk env (tick env))
                                   (clk env (tick env) + r_ttlMs r))
                          (cache c))
               (set_pending rest c))))
    | Throw _ =>
        (Ok tt,
         (env, set_refreshingKeys (refreshingKeys c ∖ {[r_key r]}) (set_pending rest c)))
    end.
Proof.
  intros Hp. destruct c as [l h m rk pd]. cbn in Hp. subst pd.
  unfold settleRefresh, bind, this, assign. cbn [fst snd pending].
  destruct (r_outcome r); reflexivity.
Qed.

(** X20. The settlement of a background refresh never reaches a caller and
    always releases the key.  When [refreshFn] resolved, the fresh data is
    stored with [createdAt] at the settlement and the [ttlMs] of the call that
    started the refresh, whatever the cache holds for the key by then (an
    entry deleted or cleared in the meantime comes back).  When it rejected,
    the stored entries are left exactly as they were.  The counters are
    untouched in both cases. *)
Theorem refresh_settlement :
  forall (T : Type) (r : Refresh T) (rest : list (Refresh T)) (env : Env)
         (c : MemoryCache T),
    pending c = r :: rest ->
    exists env1 c1,
      settleRefresh (env, c) = (Ok tt, (env1, c1)) /\
      calls env1 = calls env /\ trace env1 = trace env /\
      pending c1 = rest /\
      (r_key r ∉ refreshingKeys c1) /\
      hits c1 = hits c /\ misses c1 = misses c /\
      match r_outcome r with
      | Ok freshData =>
          Lru.lookup (r_key r) (cache c1) =
            Some (mkEntry freshData (clk env (tick env)) (clk env (tick env) + r_ttlMs r))
      | Throw _ => cache c1 = cache c
      end.
Proof.
  intros T r rest env c Hp. rewrite (settleRefresh_eq r rest env c Hp).
  destruct (r_outcome r) as [freshData|e]; eexists; eexists; (split; [reflexivity|]);
    cbn [calls trace ticked pending hits misses cache refreshingKeys
         set_refreshingKeys set_cache set_pending];
    (split; [reflexivity|]); (split; [reflexivity|]); (split; [reflexivity|]);
    (split; [apply not_elem_of_difference; right; apply elem_of_singleton; reflexivity|]);
    (split; [reflexivity|]); (split; [reflexivity|]).
  - apply lookup_set_same. unfold MAX_SIZE. lia.
  - reflexivity.
Qed.

Lemma refresh_settlement_witness :
  exists env1 c1,
    settleRefresh (envAt [950], refreshingX) = (Ok tt, (env1, c1)) /\
    calls env1 = calls (envAt [950]) /\ trace env1 = trace (envAt [950]) /\
    pending c1 = [] /\
    (r_key (mkRefresh "x" (Ok 7) 1000) ∉ refreshingKeys c1) /\
    hits c1 = hits refreshingX /\ misses c1 = misses refreshingX /\
    Lru.lookup (r_key (mkRefresh "x" (Ok 7) 1000)) (cache c1) =
      Some (mkEntry 7 (clk (envAt [950]) (tick (envAt [950])))
                    (clk (envAt [950]) (tick (envAt [950])) +
                     r_ttlMs (mkRefresh "x" (Ok 7) 1000))).
Proof.
  apply (refresh_settlement Z (mkRefresh "x" (Ok 7) 1000) [] (envAt [950]) refreshingX).
  reflexivity.
Defined.
End MemoryMore.

(* ======================================================================= *)
(** * Redis cache: degraded operation and the key namespace              *)
(* ======================================================================= *)

Module RedisMore.
Import Js Cache RedisCache Scenario JsFacts RedisProps.

(** Unfolds the methods that enumerate the key space as well. *)
Ltac fields :=
  cbn [fst snd client reachable db hits misses refreshingKeys pending clk tick calls trace
       set_db set_hits set_misses set_refreshingKeys set_pending].

Ltac run_all :=
  unfold clear, stats, resetMetrics, client_keys, client_del_many; RedisProps.run;
  unfold invokeUnawaited; fields.

(** Splits on every test and lookup the unfolded method runs into. *)
Ltac branches :=
  repeat (match goal with
          | |- context [if ?b then _ else _] => destruct b eqn:?
          | |- context [match ?x with Some _ => _ | None => _ end] =>
              first [destruct x as [[? ?]|] eqn:? | destruct x as [?|] eqn:?]
          end; fields).

Lemma get_total {T} (key : string) (env : Env) (c : RedisCache T) :
  exists v env' c',
    get key (env, c) = (Ok v, (env', c')) /\
    hits c' + misses c' = hits c + misses c + 1 /\
    calls env' = calls env /\ trace env' = trace env.
Proof.
  destruct c as [[up d] h m rk pd]. run. branches;
    (do 3 eexists; split; [reflexivity|]; cbn; split; [lia|auto]).
Qed.

Lemma has_total {T} (key : string) (env : Env) (c : RedisCache T) :
  exists b env' c',
    has key (env, c) = (Ok b, (env', c')) /\
    hits c' = hits c /\ misses c' = misses c /\
    calls env' = calls env /\ trace env' = trace env.
Proof.
  destruct c as [[up d] h m rk pd]. run. branches;
    (do 3 eexists; split; [reflexivity|]; cbn; auto).
Qed.

Lemma delete_total {T} (key : string) (env : Env) (c : RedisCache T) :
  exists b env' c',
    delete key (env, c) = (Ok b, (env', c')) /\
    hits c' = hits c /\ misses c' = misses c /\
    calls env' = calls env /\ trace env' = trace env.
Proof.
  destruct c as [[up d] h m rk pd]. run. branches;
    (do 3 eexists; split; [reflexivity|]; cbn; auto).
Qed.

Lemma clear_total {T} (env : Env) (c : RedisCache T) :
  exists env' c',
    clear (env, c) = (Ok tt, (env', c')) /\
    calls env' = calls env /\ trace env' = trace env.
Proof.
  destruct c as [[up d] h m rk pd]. run_all. branches;
    (do 2 eexists; split; [reflexivity|]; cbn; auto).
Qed.

Lemma stats_total {T} (env : Env) (c : RedisCache T) :
  exists st env' c',
    stats (env, c) = (Ok st, (env', c')) /\
    hits c' = hits c /\ misses c' = misses c /\
    calls env' = calls env /\ trace env' = trace env.
Proof.
  destruct c as [[up d] h m rk pd]. run_all. branches;
    (do 3 eexists; split; [reflexivity|]; cbn; auto).
Qed.

(** X21. No failure of the Redis client reaches the caller of [get], [set],
    [has], [delete], [clear] or [stats]: whatever the state of the server and
    of the connection, each returns normally and invokes nothing.  [get] counts
    the call exactly once, as a hit or as a miss; [set], [has], [delete] and
    [stats] leave the counters as they were. *)
Theorem redis_methods_swallow_errors :
  forall (T : Type) (key : string) (data : T) (ttlMs : Z) (env : Env) (c : RedisCache T),
    (exists v env' c',
        get key (env, c) = (Ok v, (env', c')) /\
        hits c' + misses c' = hits c + misses c + 1 /\
        calls env' = calls env /\ trace env' = trace env) /\
    (exists env' c',
        set key data ttlMs (env, c) = (Ok tt, (env', c')) /\
        hits c' = hits c /\ misses c' = misses c /\
        calls env' = calls env /\ trace env' = trace env) /\
    (exists b env' c',
        has key (env, c) = (Ok b, (env', c')) /\
        hits c' = hits c /\ misses c' = misses c /\
        calls env' = calls env /\ trace env' = trace env) /\
    (exists b env' c',
        delete key (env, c) = (Ok b, (env', c')) /\
        hits c' = hits c /\ misses c' = misses c /\
        calls env' = calls env /\ trace env' = trace env) /\
    (exists env' c',
        clear (env, c) = (Ok tt, (env', c')) /\
        calls env' = calls env /\ trace env' = trace env) /\
    (exists st env' c',
        stats (env, c) = (Ok st, (env', c')) /\
        hits c' = hits c /\ misses c' = misses c /\
        calls env' = calls env /\ trace env' = trace env).
Proof.
  intros T key data ttlMs env c.
  split; [apply get_total|]. split; [apply set_total|]. split; [apply has_total|].
  split; [apply delete_total|]. split; [apply clear_total|]. apply stats_total.
Qed.

(** X22. While the server cannot be reached, [get] answers [null] and counts a
    miss, [delete] answers [false], [stats] reports an empty cache, and
    [clear] returns without resetting the hit and miss counters (unlike the
    in-memory [clear], and unlike a [clear] the server serves). *)
Theorem unreachable_server_degrades :
  forall (T : Type) (key : string) (env : Env) (c : RedisCache T),
    reachable (client c) = false ->
    get key (env, c) = (Ok None, (env, set_misses (misses c + 1) c)) /\
    delete key (env, c) = (Ok false, (env, c)) /\
    stats (env, c) = (Ok (mkStats 0 []), (env, c)) /\
    clear (env, c) = (Ok tt, (env, c)).
Proof.
  intros T key env c Hup. destruct c as [[up d] h m rk pd]. cbn in Hup. subst up.
  repeat split; run_all; reflexivity.
Qed.

Lemma unreachable_server_degrades_witness :
  get "x" (idle, offlineRedis) =
    (Ok None, (idle, set_misses (misses offlineRedis + 1) offlineRedis)) /\
  delete "x" (idle, offlineRedis) = (Ok false, (idle, offlineRedis)) /\
  stats (idle, offlineRedis) = (Ok (mkStats 0 []), (idle, offlineRedis)) /\
  clear (idle, offlineRedis) = (Ok tt, (idle, offlineRedis)).
Proof.
  apply (unreachable_server_degrades Z "x" idle offlineRedis). reflexivity.
Defined.

(** X23. While the server cannot be reached, [getWithRefresh] falls back to a
    direct fetch: it counts one miss, invokes [refreshFn] exactly once and
    gives the caller what that invocation gave, value or exception; nothing is
    stored and no refresh is left in flight. *)
Theorem unreachable_getWithRefresh_fetches_directly :
  forall (T : Type) (key : string) (refreshFn : Callback T) (ttlMs pct : Z)
         (env : Env) (c : RedisCache T),
    reachable (client c) = false ->
    getWithRefresh key refreshFn ttlMs pct (env, c) =
      match refreshFn (calls env) with
      | Ok freshData =>
          (Ok freshData, (ticked 1 (called env), set_misses (misses c + 1) c))
      | Throw error =>
          (Throw error, (called env, set_misses (misses c + 1) c))
      end.
Proof.
  intros T key fn ttlMs pct env c Hup. destruct c as [[up d] h m rk pd]. cbn in Hup. subst up.
  run. destruct (fn (calls env)); reflexivity.
Qed.

Lemma unreachable_getWithRefresh_fetches_directly_witness :
  getWithRefresh "x" (alwaysReturns 7) 1000 80 (idle, offlineRedis) =
    match alwaysReturns 7 (calls idle) with
    | Ok freshData =>
        (Ok freshData,
         (ticked 1 (called idle), set_misses (misses offlineRedis + 1) offlineRedis))
    | Throw error =>
        (Throw error, (called idle, set_misses (misses offlineRedis + 1) offlineRedis))
    end.
Proof.
  apply (unreachable_getWithRefresh_fetches_directly Z "x" (alwaysReturns 7) 1000 80 idle
           offlineRedis).
  reflexivity.
Defined.

(** What one fetch does to the counters and to the trace. *)
Lemma fetchFresh_bounds {T} (key : string) (fn : Callback T) (ttlMs : Z)
      (env : Env) (c : RedisCache T) :
  exists env' c',
    fetchFresh key fn ttlMs (env, c) = (fn (calls env), (env', c')) /\
    calls env' = S (calls env) /\
    trace env' = trace env ++ [EvCall] /\
    hits c' = hits c /\ misses c' = misses c + 1.
Proof.
  rewrite redis_fetchFresh_eq. destruct (fn (calls env)) as [v|e].
  - destruct (set_total key v ttlMs (called env) (set_misses (misses c + 1) c))
      as [env' [c' [Hset [Hh [Hm [Hc Ht]]]]]].
    rewrite Hset. exists env', c'. cbn [fst snd]. rewrite Hc, Ht, Hh, Hm. cbn. auto.
  - eexists; eexists. split; [reflexivity|]. cbn. auto.
Qed.

(** On a miss the [try] block of [getWithRefresh] comes down to the fetch. *)
Lemma lookupOrFetch_miss {T} (key : string) (fn : Callback T) (ttlMs pct : Z)
      (env : Env) (c : RedisCache T) :
  reachable (client c) = true ->
  deadAt c key (clk env (tick env)) \/
  (exists entry,
      liveAt c key (clk env (tick env)) entry /\
      ~ (inject_Z (clk env (S (tick env))) < refreshThreshold entry ttlMs pct)%Q /\
      expiresAt entry <= clk env (S (tick env))) ->
  exists c0,
    lookupOrFetch key fn ttlMs pct (env, c) = fetchFresh key fn ttlMs (ticked 2 env, c0) /\
    misses c0 = misses c /\ hits c0 = hits c /\
    reachable (client c0) = true.
Proof.
  intros Hup [Hdead | [entry [Hlive [Hstale Hexp]]]].
  - exists (purge key c). rewrite (lookupOrFetch_dead _ _ _ _ _ _ Hup Hdead).
    split; [reflexivity|]. unfold purge.
    destruct (db (client c) !! prefixKey key); cbn; auto.
  - exists c. rewrite (lookupOrFetch_expired _ _ _ _ _ _ entry Hup Hlive); auto.
    destruct (Qltb _ _) eqn:E; [|reflexivity].
    apply Qltb_spec in E. contradiction.
Qed.

(** X24. An exception of [refreshFn] on a miss is caught by the handler meant
    for Redis errors.  With the server reachable, when [getWithRefresh] finds
    no entry for the key (or a hard-expired one) and [refreshFn] throws, the
    exception is not passed on: a second miss is counted and [refreshFn] is
    invoked a second time, and the caller gets what that second invocation
    gives, value or exception. *)
Theorem redis_refresh_error_fetches_again :
  forall (T : Type) (key : string) (refreshFn : Callback T) (ttlMs pct : Z)
         (env : Env) (c : RedisCache T) (error : Thrown),
    reachable (client c) = true ->
    deadAt c key (clk env (tick env)) \/
    (exists entry,
        liveAt c key (clk env (tick env)) entry /\
        ~ (inject_Z (clk env (S (tick env))) < refreshThreshold entry ttlMs pct)%Q /\
        expiresAt entry <= clk env (S (tick env))) ->
    refreshFn (calls env) = Throw error ->
    exists env' c',
      getWithRefresh key refreshFn ttlMs pct (env, c) =
        (refreshFn (S (calls env)), (env', c')) /\
      calls env' = S (S (calls env)) /\
      trace env' = trace env ++ [EvCall; EvCall] /\
      misses c' = misses c + 2 /\
      hits c' = hits c.
Proof.
  intros T key fn ttlMs pct env c error Hup Hmiss Hfn.
  destruct (lookupOrFetch_miss key fn ttlMs pct env c Hup Hmiss) as [c0 [Hrun [Hm [Hh _]]]].
  rewrite getWithRefresh_eq, Hrun.
  destruct (fetchFresh_bounds key fn ttlMs (ticked 2 env) c0)
    as [env1 [c1 [Hfirst [Hc1 [Ht1 [Hh1 Hm1]]]]]].
  rewrite Hfirst. cbn [calls ticked]. rewrite Hfn.
  destruct (fetchFresh_bounds key fn ttlMs env1 c1)
    as [env2 [c2 [Hsecond [Hc2 [Ht2 [Hh2 Hm2]]]]]].
  rewrite Hsecond. exists env2, c2.
  rewrite Hc2, Ht2, Hh2, Hm2, Hc1, Ht1, Hh1, Hm1, Hm, Hh. cbn [calls trace ticked].
  rewrite <- app_assoc. repeat split; auto. lia.
Qed.

Lemma redis_refresh_error_fetches_again_witness :
  exists env' c',
    getWithRefresh "x" (throwsOnce "upstream failed" 7) 1000 80 (idle, emptyRedis) =
      (throwsOnce "upstream failed" 7 (S (calls idle)), (env', c')) /\
    calls env' = S (S (calls idle)) /\
    trace env' = trace idle ++ [EvCall; EvCall] /\
    misses c' = misses emptyRedis + 2 /\
    hits c' = hits emptyRedis.
Proof.
  apply (redis_refresh_error_fetches_again Z "x" (throwsOnce "upstream failed" 7) 1000 80
           idle emptyRedis (JsError "upstream failed")).
  - reflexivity.
  - left. vm_compute. exact I.
  - reflexivity.
Defined.

(** X25. Whatever the state of the server and of the cache, [getWithRefresh]
    invokes [refreshFn] at most twice, counts the call once or twice in
    [hits + misses], and throws nothing of its own: an exception that reaches
    the caller is the one thrown by the last invocation of [refreshFn]. *)
Theorem redis_getWithRefresh_throws_only_refresh_errors :
  forall (T : Type) (key : string) (refreshFn : Callback T) (ttlMs pct : Z)
         (env : Env) (c : RedisCache T),
    exists r env' c',
      getWithRefresh key refreshFn ttlMs pct (env, c) = (r, (env', c')) /\
      (calls env <= calls env' <= calls env + 2)%nat /\
      1 <= (hits c' + misses c') - (hits c + misses c) <= 2 /\
      forall error,
        r = Throw error ->
        (calls env < calls env')%nat /\
        refreshFn (Nat.pred (calls env')) = Throw error.
Proof.
  intros T key fn ttlMs pct env c. rewrite getWithRefresh_eq.
  assert (forall w : Env * RedisCache T,
             (calls env <= calls (fst w) <= calls env + 1)%nat ->
             0 <= (hits (snd w) + misses (snd w)) - (hits c + misses c) <= 1 ->
             exists r env' c',
               fetchFresh key fn ttlMs w = (r, (env', c')) /\
               (calls env <= calls env' <= calls env + 2)%nat /\
               1 <= (hits c' + misses c') - (hits c + misses c) <= 2 /\
               forall error,
                 r = Throw error ->
                 (calls env < calls env')%nat /\
                 fn (Nat.pred (calls env')) = Throw error) as Hfetch.
  { intros [env0 c0] Hc Hn. cbn [fst snd] in Hc, Hn.
    destruct (fetchFresh_bounds key fn ttlMs env0 c0) as [env' [c' [Hs [Hc' [_ [Hh Hm]]]]]].
    rewrite Hs. exists (fn (calls env0)), env', c'. split; [reflexivity|].
    rewrite Hc', Hh, Hm. split; [lia|]. split; [lia|].
    intros error He. split; [lia|]. exact He. }
  destruct (lookupOrFetch key fn ttlMs pct (env, c)) as [[v|e] [env1 c1]] eqn:Hrun.
  - revert Hrun. destruct c as [[up d] h m rk pd]. run_all.
    branches; intros Hrun;
      repeat match goal with
             | H : context [match outcome fn ?i with Ok _ => _ | Throw _ => _ end] |- _ =>
                 destruct (fn i) eqn:?
             end;
      try discriminate;
      injection Hrun as <- <- <-;
      (do 3 eexists; split; [reflexivity|]; cbn; split; [lia|]; split; [lia|];
       intros error He; discriminate).
  - apply Hfetch.
    + revert Hrun. destruct c as [[up d] h m rk pd]. run_all.
      branches; intros Hrun;
        repeat match goal with
               | H : context [match outcome fn ?i with Ok _ => _ | Throw _ => _ end] |- _ =>
                   destruct (fn i) eqn:?
               end;
        try discriminate;
        injection Hrun as <- <- <-; cbn; lia.
    + revert Hrun. destruct c as [[up d] h m rk pd]. run_all.
      branches; intros Hrun;
        repeat match goal with
               | H : context [match outcome fn ?i with Ok _ => _ | Throw _ => _ end] |- _ =>
                   destruct (fn i) eqn:?
               end;
        try discriminate;
        injection Hrun as <- <- <-; cbn; lia.
Qed.

Lemma prefixKey_inj (a b : string) : prefixKey a = prefixKey b -> a = b.
Proof.
  unfold prefixKey. generalize KEY_PREFIX as p.
  induction p as [|ch p IH]; cbn; intros H; [exact H|].
  injection H as H. auto.
Qed.

Lemma startsWith_prefixKey (key : string) : startsWith (prefixKey key) KEY_PREFIX = true.
Proof. apply startsWith_spec. exists key. reflexivity. Qed.

Lemma substringFrom_append (p s : string) : substringFrom (String.length p) (p +:+ s) = s.
Proof. induction p as [|ch p IH]; cbn; auto. Qed.

Lemma substringFrom_prefixKey (key : string) :
  substringFrom (String.length KEY_PREFIX) (prefixKey key) = key.
Proof. apply substringFrom_append. Qed.

(** Reconnection is attempted after 200, 400 and 600 ms and then given up;
    the cap of 2000 ms is never the smaller operand. *)
Remark retryStrategy_delays (times : Z) :
  1 <= times ->
  retryStrategy times = if times <=? 3 then Some (times * 200) else None.
Proof.
  intros Htimes. unfold retryStrategy.
  destruct (3 <? times) eqn:Hgt.
  - apply Z.ltb_lt in Hgt. assert ((times <=? 3) = false) as -> by (apply Z.leb_gt; lia).
    reflexivity.
  - apply Z.ltb_ge in Hgt. assert ((times <=? 3) = true) as -> by (apply Z.leb_le; lia).
    f_equal. lia.
Qed.

(** A key the server does not hold: [has] and [get] find nothing. *)
Lemma has_absent {T} (key : string) (env : Env) (c : RedisCache T) :
  reachable (client c) = true ->
  db (client c) !! prefixKey key = None ->
  has key (env, c) = (Ok false, (ticked 1 env, c)).
Proof.
  intros Hup Hdb. destruct c as [[up d] h m rk pd]. cbn in Hup, Hdb. subst up.
  run. rewrite Hdb. reflexivity.
Qed.

Lemma get_absent {T} (key : string) (env : Env) (c : RedisCache T) :
  reachable (client c) = true ->
  db (client c) !! prefixKey key = None ->
  get key (env, c) = (Ok None, (ticked 1 env, set_misses (misses c + 1) c)).
Proof.
  intros Hup Hdb. destruct c as [[up d] h m rk pd]. cbn in Hup, Hdb. subst up.
  run. rewrite Hdb. reflexivity.
Qed.

(** X26. Round trip through the server.  With the server reachable and
    [ttlMs > 0], a [get] that follows [set key data ttlMs] returns [data] and
    counts a hit, provided the server serves it no later than the deadline it
    gave the key and the cache's own clock has not passed [expiresAt]. *)
Theorem redis_set_then_get_round_trip :
  forall (T : Type) (key : string) (data : T) (ttlMs : Z) (env : Env) (c : RedisCache T),
    reachable (client c) = true ->
    0 < ttlMs ->
    clk env (S (S (tick env))) <= clk env (S (tick env)) + ttlMs ->
    clk env (S (S (S (tick env)))) <= clk env (tick env) + ttlMs ->
    exists c1 c2,
      set key data ttlMs (env, c) = (Ok tt, (ticked 2 env, c1)) /\
      get key (ticked 2 env, c1) = (Ok (Some data), (ticked 4 env, c2)) /\
      hits c2 = hits c + 1 /\ misses c2 = misses c.
Proof.
  intros T key data ttlMs env c Hup Httl Hserver Hlocal.
  rewrite (set_accepted key data ttlMs env c Hup Httl).
  eexists; eexists. split; [reflexivity|].
  rewrite (get_live_valid key (ticked 2 env) _
             (mkEntry data (clk env (tick env)) (clk env (tick env) + ttlMs))).
  - split; [reflexivity|]. cbn. auto.
  - exact Hup.
  - eexists. cbn [db client set_db ticked tick clk]. rewrite lookup_insert_eq.
    split; [reflexivity|]. exact Hserver.
  - cbn. exact Hlocal.
Qed.

Lemma redis_set_then_get_round_trip_witness :
  exists c1 c2,
    set "x" 42 100 (envAt [0; 5; 50; 55], emptyRedis) =
      (Ok tt, (ticked 2 (envAt [0; 5; 50; 55]), c1)) /\
    get "x" (ticked 2 (envAt [0; 5; 50; 55]), c1) =
      (Ok (Some 42), (ticked 4 (envAt [0; 5; 50; 55]), c2)) /\
    hits c2 = hits emptyRedis + 1 /\ misses c2 = misses emptyRedis.
Proof.
  apply (redis_set_then_get_round_trip Z "x" 42 100 (envAt [0; 5; 50; 55]) emptyRedis).
  - reflexivity.
  - lia.
  - vm_compute. discriminate.
  - vm_compute. discriminate.
Defined.

(** X27. With the server reachable, [delete] answers [true] exactly when the
    server still held the key; afterwards the key is gone for any later [has]
    or [get], the entries of all other keys are where they were, and the
    counters are untouched. *)
Theorem redis_delete_removes_key :
  forall (T : Type) (key : string) (env : Env) (c : RedisCache T),
    reachable (client c) = true ->
    exists b c',
      delete key (env, c) = (Ok b, (ticked 1 env, c')) /\
      (b = true <-> exists entry, liveAt c key (clk env (tick env)) entry) /\
      (forall env2,
          has key (env2, c') = (Ok false, (ticked 1 env2, c')) /\
          get key (env2, c') = (Ok None, (ticked 1 env2, set_misses (misses c' + 1) c'))) /\
      (forall other,
          other <> key ->
          db (client c') !! prefixKey other = db (client c) !! prefixKey other) /\
      hits c' = hits c /\ misses c' = misses c.
Proof.
  intros T key env c Hup.
  assert (forall c' : RedisCache T,
             reachable (client c') = true ->
             db (client c') !! prefixKey key = None ->
             forall env2,
               has key (env2, c') = (Ok false, (ticked 1 env2, c')) /\
               get key (env2, c') =
                 (Ok None, (ticked 1 env2, set_misses (misses c' + 1) c'))) as Hgone.
  { intros c' Hup' Hdb env2. split; [apply has_absent | apply get_absent]; assumption. }
  assert (forall (d : gmap string (CacheEntry T * Z)) other,
             other <> key -> base.delete (prefixKey key) d !! prefixKey other =
                             d !! prefixKey other) as Hother.
  { intros d other Hne. apply lookup_delete_ne. intros He. apply Hne.
    symmetry. apply prefixKey_inj. exact He. }
  unfold liveAt.
  destruct c as [[up d] h m rk pd]. cbn in Hup. subst up. run.
  cbn [db client].
  destruct (d !! prefixKey key) as [[raw deadline]|] eqn:Hdb.
  - destruct (deadline <? clk env (tick env)) eqn:Hdl.
    + eexists; eexists. split; [reflexivity|]. split.
      { split; [discriminate|]. intros [entry [dl [He Hle]]].
        injection He as <- <-. apply Z.ltb_lt in Hdl. lia. }
      split; [apply Hgone; [reflexivity | cbn; apply lookup_delete_eq]|].
      split; [intros other Hne; cbn; apply Hother; exact Hne|]. cbn. auto.
    + eexists; eexists. split; [reflexivity|]. split.
      { split; [|reflexivity]. intros _. exists raw, deadline.
        apply Z.ltb_ge in Hdl. auto. }
      split; [apply Hgone; [reflexivity | cbn; apply lookup_delete_eq]|].
      split; [intros other Hne; cbn; apply Hother; exact Hne|]. cbn. auto.
  - eexists; eexists. split; [reflexivity|]. split.
    { split; [discriminate|]. intros [entry [dl [He _]]]. discriminate. }
    split; [apply Hgone; [reflexivity | cbn; exact Hdb]|].
    split; [intros other Hne; reflexivity|]. cbn. auto.
Qed.

Lemma redis_delete_removes_key_witness :
  exists b c',
    delete "x" (envAt [50], redisWithX) = (Ok b, (ticked 1 (envAt [50]), c')) /\
    (b = true <-> exists entry, liveAt redisWithX "x" (clk (envAt [50]) (tick (envAt [50]))) entry) /\
    (forall env2,
        has "x" (env2, c') = (Ok false, (ticked 1 env2, c')) /\
        get "x" (env2, c') = (Ok None, (ticked 1 env2, set_misses (misses c' + 1) c'))) /\
    (forall other,
        other <> "x"%string ->
        db (client c') !! prefixKey other = db (client redisWithX) !! prefixKey other) /\
    hits c' = hits redisWithX /\ misses c' = misses redisWithX.
Proof.
  apply (redis_delete_removes_key Z "x" (envAt [50]) redisWithX). reflexivity.
Defined.

(** The keys of the namespace a map holds, as [client.keys] lists them. *)
Lemma namespace_keys_spec {V} (m : gmap string V) (k : string) :
  In k (List.filter (fun key => startsWith key KEY_PREFIX) (map fst (map_to_list m))) <->
  is_Some (m !! k) /\ startsWith k KEY_PREFIX = true.
Proof.
  rewrite List.filter_In, List.in_map_iff. split.
  - intros [[[k' v] [Hk Hin]] Hsw]. cbn in Hk. subst k'.
    apply list_elem_of_In, elem_of_map_to_list in Hin. split; [eauto|exact Hsw].
  - intros [[v Hv] Hsw]. split; [|exact Hsw]. exists (k, v). split; [reflexivity|].
    apply list_elem_of_In, elem_of_map_to_list. exact Hv.
Qed.

Lemma namespace_keys_NoDup {V} (m : gmap string V) :
  List.NoDup (List.filter (fun key => startsWith key KEY_PREFIX) (map fst (map_to_list m))).
Proof.
  apply List.NoDup_filter. apply NoDup_ListNoDup.
  replace (map fst (map_to_list m)) with ((map_to_list m).*1).
  - apply NoDup_fst_map_to_list.
  - generalize (map_to_list m) as l. induction l as [|x l IH]; cbn; [reflexivity|].
    rewrite IH. reflexivity.
Qed.

(** Deleting the listed keys removes the namespace and nothing else. *)
Lemma namespace_deleted {V} (m : gmap string V) (k : string) :
  foldr base.delete m
    (List.filter (fun key => startsWith key KEY_PREFIX) (map fst (map_to_list m))) !! k =
  if startsWith k KEY_PREFIX then None else m !! k.
Proof.
  set (keys := List.filter _ _).
  destruct (decide (k ∈ keys)) as [Hin|Hout].
  - rewrite lookup_foldr_delete by exact Hin.
    apply list_elem_of_In, namespace_keys_spec in Hin. destruct Hin as [_ ->]. reflexivity.
  - rewrite lookup_foldr_delete_not_elem_of by exact Hout.
    destruct (startsWith k KEY_PREFIX) eqn:Hsw; [|reflexivity].
    destruct (m !! k) as [v|] eqn:Hv; [|reflexivity].
    exfalso. apply Hout, list_elem_of_In, namespace_keys_spec. split; [eauto|exact Hsw].
Qed.

(** X28. With the server reachable, [clear] resets both counters and removes
    every key of the cache's namespace, so that any later [has] answers
    [false]; keys of the same server outside the namespace stay as they were
    (unless their own deadline has passed), and a refresh in flight is not
    cancelled. *)
Theorem redis_clear_empties_namespace_only :
  forall (T : Type) (env : Env) (c : RedisCache T),
    reachable (client c) = true ->
    exists c',
      clear (env, c) = (Ok tt, (ticked 1 env, c')) /\
      hits c' = 0 /\ misses c' = 0 /\
      (forall key env2, has key (env2, c') = (Ok false, (ticked 1 env2, c'))) /\
      (forall k v,
          startsWith k KEY_PREFIX = false ->
          db (client c') !! k = Some v <->
          db (client c) !! k = Some v /\ clk env (tick env) <= snd v) /\
      refreshingKeys c' = refreshingKeys c /\ pending c' = pending c.
Proof.
  intros T env c Hup. destruct c as [[up d] h m rk pd]. cbn in Hup. subst up.
  set (alive := filter (fun kv : string * (CacheEntry T * Z) =>
                          clk env (tick env) <= snd (snd kv)) d).
  set (keys := List.filter (fun key => startsWith key KEY_PREFIX)
                 (map fst (map_to_list alive))).
  assert (forall d' : gmap string (CacheEntry T * Z),
             (forall k, d' !! k = if startsWith k KEY_PREFIX then None else alive !! k) ->
             let c' := mkCache (mkServer true d') 0 0 rk pd in
             hits c' = 0 /\ misses c' = 0 /\
             (forall key env2, has key (env2, c') = (Ok false, (ticked 1 env2, c'))) /\
             (forall k v,
                 startsWith k KEY_PREFIX = false ->
                 db (client c') !! k = Some v <->
                 d !! k = Some v /\ clk env (tick env) <= snd v) /\
             refreshingKeys c' = rk /\ pending c' = pd) as Hafter.
  { intros d' Hd' c'. split; [reflexivity|]. split; [reflexivity|]. split.
    - intros key env2. apply has_absent; [reflexivity|]. cbn.
      rewrite Hd', startsWith_prefixKey. reflexivity.
    - split; [|split; reflexivity]. intros k v Hsw. cbn. rewrite Hd', Hsw.
      unfold alive. rewrite map_lookup_filter_Some. reflexivity. }
  run_all. fold alive. fold keys.
  destruct (0 <? Z.of_nat (length keys)) eqn:Hlen.
  - eexists. split; [reflexivity|]. apply Hafter. intros k. apply namespace_deleted.
  - eexists. split; [reflexivity|]. apply Hafter. intros k.
    rewrite <- namespace_deleted. fold keys.
    destruct keys; [reflexivity|]. cbn in Hlen. apply Z.ltb_ge in Hlen. lia.
Qed.

Lemma redis_clear_empties_namespace_only_witness :
  exists c',
    clear (envAt [50], redisWithX) = (Ok tt, (ticked 1 (envAt [50]), c')) /\
    hits c' = 0 /\ misses c' = 0 /\
    (forall key env2, has key (env2, c') = (Ok false, (ticked 1 env2, c'))) /\
    (forall k v,
        startsWith k KEY_PREFIX = false ->
        db (client c') !! k = Some v <->
        db (client redisWithX) !! k = Some v /\
        clk (envAt [50]) (tick (envAt [50])) <= snd v) /\
    refreshingKeys c' = refreshingKeys redisWithX /\ pending c' = pending redisWithX.
Proof.
  apply (redis_clear_empties_namespace_only Z (envAt [50]) redisWithX). reflexivity.
Defined.

(** X29. With the server reachable, [stats] lists, without the prefix and
    without repetition, exactly the cache keys the server holds at that
    instant, and [size] is their number; the counters are untouched. *)
Theorem redis_stats_lists_live_keys :
  forall (T : Type) (env : Env) (c : RedisCache T),
    reachable (client c) = true ->
    exists st c',
      stats (env, c) = (Ok st, (ticked 1 env, c')) /\
      size st = Z.of_nat (length (keys st)) /\
      List.NoDup (keys st) /\
      (forall key,
          In key (keys st) <-> exists entry, liveAt c key (clk env (tick env)) entry) /\
      hits c' = hits c /\ misses c' = misses c.
Proof.
  intros T env c Hup. destruct c as [[up d] h m rk pd]. cbn in Hup. subst up.
  set (alive := filter (fun kv : string * (CacheEntry T * Z) =>
                          clk env (tick env) <= snd (snd kv)) d).
  run_all. fold alive.
  set (listed := List.filter (fun key => startsWith key KEY_PREFIX)
                   (map fst (map_to_list alive))).
  eexists; eexists. split; [reflexivity|]. cbn [size keys hits misses].
  split; [rewrite length_map; reflexivity|]. split.
  - assert (List.NoDup listed) as Hnd by apply namespace_keys_NoDup.
    assert (forall k, In k listed -> startsWith k KEY_PREFIX = true) as Hpre.
    { intros k Hk. apply namespace_keys_spec in Hk. tauto. }
    clearbody listed. induction listed as [|k l IH]; cbn [map]; [constructor|].
    apply List.NoDup_cons_iff in Hnd. destruct Hnd as [Hk Hl]. constructor.
    + intros Hin. apply List.in_map_iff in Hin. destruct Hin as [k' [Heq Hin']].
      apply Hk. replace k with k'; [exact Hin'|].
      destruct (proj1 (startsWith_spec k KEY_PREFIX) (Hpre k (or_introl eq_refl))) as [b ->].
      destruct (proj1 (startsWith_spec k' KEY_PREFIX) (Hpre k' (or_intror Hin'))) as [b' ->].
      rewrite !substringFrom_append in Heq. subst b'. reflexivity.
    + apply IH; [exact Hl|]. intros k' Hk'. apply Hpre. right. exact Hk'.
  - split; [|split; reflexivity]. intros key. unfold liveAt. cbn [db client].
    rewrite List.in_map_iff. split.
    + intros [k [Heq Hin]]. apply namespace_keys_spec in Hin. destruct Hin as [[v Hv] Hsw].
      apply startsWith_spec in Hsw. destruct Hsw as [b ->].
      rewrite substringFrom_append in Heq. subst b.
      apply map_lookup_filter_Some in Hv. destruct Hv as [Hv Hlive].
      destruct v as [entry deadline]. exists entry, deadline. split; [exact Hv|exact Hlive].
    + intros [entry [deadline [Hv Hlive]]]. exists (prefixKey key).
      split; [apply substringFrom_prefixKey|]. apply namespace_keys_spec.
      split; [|apply startsWith_prefixKey]. exists (entry, deadline).
      apply map_lookup_filter_Some. split; [exact Hv|exact Hlive].
Qed.

Lemma redis_stats_lists_live_keys_witness :
  exists st c',
    stats (envAt [50], redisWithX) = (Ok st, (ticked 1 (envAt [50]), c')) /\
    size st = Z.of_nat (length (keys st)) /\
    List.NoDup (keys st) /\
    (forall key,
        In key (keys st) <->
        exists entry, liveAt redisWithX key (clk (envAt [50]) (tick (envAt [50]))) entry) /\
    hits c' = hits redisWithX /\ misses c' = misses redisWithX.
Proof.
  apply (redis_stats_lists_live_keys Z (envAt [50]) redisWithX). reflexivity.
Defined.

(** The stale branch of the [try] block: the old data at once and a refresh
    started, unless one is in flight for the key already. *)
Lemma lookupOrFetch_stale {T} (key : string) (fn : Callback T) (ttlMs pct : Z)
      (env : Env) (c : RedisCache T) (entry : CacheEntry T) :
  reachable (client c) = true ->
  liveAt c key (clk env (tick env)) entry ->
  Qltb (inject_Z (clk env (S (tick env)))) (refreshThreshold entry ttlMs pct) = false ->
  clk env (S (tick env)) < expiresAt entry ->
  lookupOrFetch key fn ttlMs pct (env, c) =
    if bool_decide (key ∈ refreshingKeys c) then
      (Ok (data entry), (ticked 2 env, set_hits (hits c + 1) c))
    else
      let marked := set_refreshingKeys ({[key]} ∪ refreshingKeys c)
                      (set_hits (hits c + 1) c) in
      match thrownAtOnce fn (calls env) with
      | Some e => (Throw e, (called (ticked 2 env), marked))
      | None =>
          (Ok (data entry),
           (called (ticked 2 env),
            set_pending (pending c ++ [mkRefresh key (fn (calls env)) ttlMs]) marked))
      end.
Proof.
  intros Hup [deadline [Hdb Hlive]] Hstale Hval.
  destruct c as [[up d] h m rk pd]. cbn in Hup, Hdb. subst up.
  run. rewrite Hdb.
  assert ((deadline <? clk env (tick env)) = false) as -> by (apply Z.ltb_ge; lia).
  fields. rewrite Hstale.
  apply Z.ltb_lt in Hval. rewrite Hval. fields.
  destruct (bool_decide (key ∈ rk)); [reflexivity|].
  unfold invokeUnawaited. cbv zeta. fields.
  destruct (thrownAtOnce fn (calls env)); reflexivity.
Qed.

(** X30. The stale branch of the Redis cache.  With the server reachable, an
    entry past its refresh threshold but not yet expired, and no refresh in
    flight for the key, [getWithRefresh] counts a hit, records the key as
    refreshing and invokes [refreshFn] without [await].  When the call returns
    a promise, the cached data is returned and the handlers wait for it to
    settle.  When the call throws before returning a promise, the exception is
    caught by the handler meant for Redis errors: a miss is counted on top of
    the hit, [refreshFn] is invoked a second time and the caller gets what that
    invocation gives; the key stays recorded as refreshing with no handler
    left to take it out. *)
Theorem redis_stale_entry_starts_refresh :
  forall (T : Type) (key : string) (refreshFn : Callback T) (ttlMs pct : Z)
         (env : Env) (c : RedisCache T) (entry : CacheEntry T),
    reachable (client c) = true ->
    liveAt c key (clk env (tick env)) entry ->
    (key ∉ refreshingKeys c) ->
    ~ (inject_Z (clk env (S (tick env))) < refreshThreshold entry ttlMs pct)%Q ->
    clk env (S (tick env)) < expiresAt entry ->
    exists env' c',
      snd (getWithRefresh key refreshFn ttlMs pct (env, c)) = (env', c') /\
      hits c' = hits c + 1 /\
      (key ∈ refreshingKeys c') /\
      match thrownAtOnce refreshFn (calls env) with
      | None =>
          fst (getWithRefresh key refreshFn ttlMs pct (env, c)) = Ok (data entry) /\
          misses c' = misses c /\
          calls env' = S (calls env) /\
          pending c' = pending c ++ [mkRefresh key (refreshFn (calls env)) ttlMs]
      | Some _ =>
          fst (getWithRefresh key refreshFn ttlMs pct (env, c)) =
            refreshFn (S (calls env)) /\
          misses c' = misses c + 1 /\
          calls env' = S (S (calls env)) /\
          pending c' = pending c
      end.
Proof.
  intros T key fn ttlMs pct env c entry Hup Hlive Hfree Hstale Hval.
  assert (Qltb (inject_Z (clk env (S (tick env)))) (refreshThreshold entry ttlMs pct) = false)
    as Hq.
  { destruct (Qltb _ _) eqn:E; [|reflexivity]. apply Qltb_spec in E. contradiction. }
  rewrite getWithRefresh_eq.
  rewrite (lookupOrFetch_stale key fn ttlMs pct env c entry Hup Hlive Hq Hval).
  rewrite bool_decide_eq_false_2 by exact Hfree. cbv zeta.
  destruct (thrownAtOnce fn (calls env)) as [e|].
  - set (marked := set_refreshingKeys ({[key]} ∪ refreshingKeys c) (set_hits (hits c + 1) c)).
    destruct (fetchFresh_bounds key fn ttlMs (called (ticked 2 env)) marked)
      as [env' [c' [Hrun [Hcalls [_ [Hh Hm]]]]]].
    rewrite Hrun. exists env', c'. cbn [fst snd].
    split; [reflexivity|]. rewrite Hh, Hm, Hcalls.
    split; [reflexivity|].
    assert (refreshingKeys c' = refreshingKeys marked /\ pending c' = pending marked)
      as [Hrk Hpd].
    { revert Hrun. rewrite redis_fetchFresh_eq.
      destruct (fn (calls (called (ticked 2 env)))) as [v|e'].
      - destruct (reachable (client c)) eqn:Hr; [destruct (Z_lt_le_dec 0 ttlMs)|].
        + rewrite set_accepted by (cbn; auto). intros [= <- <-]. cbn. auto.
        + rewrite set_refused by auto. intros [= <- <-]. cbn. auto.
        + rewrite set_refused by (cbn; auto). intros [= <- <-]. cbn. auto.
      - intros [= <- <-]. cbn. auto. }
    rewrite Hrk, Hpd. cbn.
    split; [apply elem_of_union_l, elem_of_singleton; reflexivity|]. auto.
  - eexists; eexists. cbn [fst snd]. split; [reflexivity|]. cbn.
    split; [reflexivity|].
    split; [apply elem_of_union_l, elem_of_singleton; reflexivity|]. auto.
Qed.

Lemma redis_stale_entry_starts_refresh_witness :
  exists env' c',
    snd (getWithRefresh "x" (throwsAtOnce "lookup failed") 100 80
           (envAt [90; 92], redisWithX)) = (env', c') /\
    hits c' = hits redisWithX + 1 /\
    ("x"%string ∈ refreshingKeys c') /\
    match thrownAtOnce (throwsAtOnce "lookup failed") (calls (envAt [90; 92])) with
    | None =>
        fst (getWithRefresh "x" (throwsAtOnce "lookup failed") 100 80
               (envAt [90; 92], redisWithX)) = Ok (data (mkEntry 42 0 100)) /\
        misses c' = misses redisWithX /\
        calls env' = S (calls (envAt [90; 92])) /\
        pending c' =
          pending redisWithX ++
          [mkRefresh "x" (throwsAtOnce "lookup failed" (calls (envAt [90; 92]))) 100]
    | Some _ =>
        fst (getWithRefresh "x" (throwsAtOnce "lookup failed") 100 80
               (envAt [90; 92], redisWithX)) =
          throwsAtOnce "lookup failed" (S (calls (envAt [90; 92]))) /\
        misses c' = misses redisWithX + 1 /\
        calls env' = S (S (calls (envAt [90; 92]))) /\
        pending c' = pending redisWithX
    end.
Proof.
  apply (redis_stale_entry_starts_refresh Z "x" (throwsAtOnce "lookup failed") 100 80
           (envAt [90; 92]) redisWithX (mkEntry 42 0 100)).
  - reflexivity.
  - exists 105. split; [reflexivity | vm_compute; discriminate].
  - vm_compute. set_solver.
  - vm_compute. discriminate.
  - vm_compute. reflexivity.
Defined.

End RedisMore.
